(** * Runtime leak-detection agent: allocator interposition with the header trick

    A shallow embedding of [temp_advanced_backup/advanced_agent.cpp] (the
    interposed [malloc], [free], [realloc], [calloc], the table of live
    allocations, the leak scanner and the event ring) and of the publication
    routine of [monitor/agent.cpp].

    Conventions of the embedding:
    - the target is LP64: [size_t], [uint64_t] and pointers are 64 bits wide,
      [int] and [uint32_t] are 32 bits wide.  Integers are [Z] with the
      wrap-around written out ([u32], [u64], [i32]);
    - pointers are addresses in [Z]; [nullptr] is address [0];
    - memory is a flat byte-addressed store, a [gmap Z byte]; a byte that was
      never written reads as [x00].  Multi-byte fields are little-endian;
    - the underlying allocator, the clocks and the identity of the calling
      thread are external: they are the fields of a [Platform], which the
      agent state threads through as [world];
    - the function pointers [real_malloc], [real_free], [real_realloc] are
      taken as bound (every entry point binds the one it calls before it
      calls it, and the constructor binds them all), so the lazy [dlsym]
      lookups are not part of the state;
    - the real [malloc] and [free] keep their bookkeeping out of band: they
      do not write into the bytes of the blocks they hand out or take back.
      The real [free] is handed the block as it lies in memory at the call,
      so what it does may depend on the bytes it is shown;
    - arguments of type [size_t] and pointers are given in range
      ([0 <= x < 2^64]);
    - text written to [stdout] and [stderr] is not modelled. *)

From Stdlib Require Import ZArith List Lia.
From stdpp Require Import base option list gmap.
From coqutil Require Import Byte Word.LittleEndianList.

Local Open Scope Z_scope.

(** ** Machine integers *)

Definition u32 (x : Z) : Z := x mod 2 ^ 32.
Definition u64 (x : Z) : Z := x mod 2 ^ 64.
(** Conversion to a signed 32-bit [int] (two's complement). *)
Definition i32 (x : Z) : Z := (x + 2 ^ 31) mod 2 ^ 32 - 2 ^ 31.
Definition i64 (x : Z) : Z := (x + 2 ^ 63) mod 2 ^ 64 - 2 ^ 63.

(** ** Byte-addressed memory *)

Definition load_byte (m : gmap Z byte) (a : Z) : byte :=
  default Byte.x00 (m !! a).

Fixpoint load_bytes (n : nat) (m : gmap Z byte) (a : Z) : list byte :=
  match n with
  | O => []
  | S k => load_byte m a :: load_bytes k m (a + 1)
  end.

Fixpoint store_bytes (m : gmap Z byte) (a : Z) (bs : list byte) : gmap Z byte :=
  match bs with
  | [] => m
  | b :: rest => store_bytes (<[a := b]> m) (a + 1) rest
  end.

(** An [n]-byte little-endian unsigned field at address [a]. *)
Definition load_le (n : nat) (m : gmap Z byte) (a : Z) : Z :=
  le_combine (load_bytes n m a).

Definition store_le (n : nat) (m : gmap Z byte) (a : Z) (v : Z) : gmap Z byte :=
  store_bytes m a (le_split n v).

(** [memcpy(dst, src, n)]: the source bytes are read, then written. *)
Definition memcpy (m : gmap Z byte) (dst src : Z) (n : Z) : gmap Z byte :=
  store_bytes m dst (load_bytes (Z.to_nat n) m src).

(** [memset(dst, c, n)]. *)
Definition memset (m : gmap Z byte) (dst : Z) (c : Z) (n : Z) : gmap Z byte :=
  store_bytes m dst (repeat (byte.of_Z c) (Z.to_nat n)).

(** ** A small state monad *)

Definition M (S A : Type) : Type := S -> A * S.

Definition ret {S A} (a : A) : M S A := fun s => (a, s).
Definition bind {S A B} (c : M S A) (k : A -> M S B) : M S B :=
  fun s => let (a, s') := c s in k a s'.
Definition gets {S A} (f : S -> A) : M S A := fun s => (f s, s).
Definition modify {S} (f : S -> S) : M S unit := fun s => (tt, f s).
Definition when {S} (b : bool) (c : M S unit) : M S unit :=
  if b then c else ret tt.

Notation "'let*' x ':=' c 'in' k" := (bind c (fun x => k))
  (at level 10, x name, c at level 100, k at level 200).
Notation "'run' c 'in' k" := (bind c (fun _ => k))
  (at level 10, c at level 100, k at level 200).

(** ** The platform under the agent *)

Class Platform : Type := {
  world : Type;
  (** the allocator found by [dlsym(RTLD_NEXT, ...)]; it keeps its
      bookkeeping in [world] and returns [0] on failure *)
  real_malloc : Z -> world -> Z * world;
  (** [free] is handed the block as it lies in memory at the call *)
  real_free : Z -> gmap Z byte -> world -> world;
  (** [realloc] moves the bytes of the block, so it sees the memory *)
  real_realloc : Z -> Z -> gmap Z byte -> world -> Z * gmap Z byte * world;
  (** [clock_gettime(CLOCK_MONOTONIC, &ts)]: [(tv_sec, tv_nsec)] *)
  clock_gettime : world -> (Z * Z) * world;
  (** [time(NULL)] *)
  time : world -> Z * world;
  pthread_self : world -> Z;
  (** [__builtin_return_address(0)] *)
  builtin_return_address : world -> Z
}.

(** ** Shared-memory publication

    Both agents publish a record by a short sequence of accesses to the
    mapped buffer.  The sequence is kept as data, in program order, and the
    buffer changes by running it; a fence changes nothing in a sequential
    run, it only orders the stores around it. *)

Inductive ShmOp (R : Type) : Type :=
  | StoreSlot (slot : Z) (r : R)
  | FullFence
  | IncWriteIndex.
Arguments StoreSlot {R} slot r.
Arguments FullFence {R}.
Arguments IncWriteIndex {R}.

Class RingLayout (B R : Type) : Type := {
  ring_write_index : B -> Z;
  ring_set_write_index : Z -> B -> B;
  ring_slots : B -> list R;
  ring_set_slots : list R -> B -> B
}.

(** A store to a slot outside the array (a negative [slot], which takes a
    negative [write_index]) is outside the array.  In the program it lands
    in front of the array, on the header of the buffer itself; the model
    does not follow such a store and leaves the buffer as it is.  What is
    proved below about the contents of a buffer after a publication is
    therefore stated for [0 <= write_index] only, where the slot is inside
    the array. *)
Definition exec_op {B R} `{RingLayout B R} (op : ShmOp R) (b : B) : B :=
  match op with
  | StoreSlot slot r =>
      if 0 <=? slot
      then ring_set_slots (<[Z.to_nat slot := r]> (ring_slots b)) b
      else b
  | FullFence => b
  | IncWriteIndex => ring_set_write_index (i32 (ring_write_index b + 1)) b
  end.

Definition exec_ops {B R} `{RingLayout B R} (ops : list (ShmOp R)) (b : B) : B :=
  fold_left (fun acc op => exec_op op acc) ops b.

Definition is_fence {R} (op : ShmOp R) : bool :=
  match op with FullFence => true | _ => false end.

(** The publication protocol: the record is stored, then a full fence is
    issued, then the write index advances; nothing else. *)
Definition fenced_publication {R} (ops : list (ShmOp R)) : Prop :=
  exists slot r, ops = [StoreSlot slot r; FullFence; IncWriteIndex].

Definition has_fence {R} (ops : list (ShmOp R)) : bool := existsb is_fence ops.

(** How the shared-memory set-up of a constructor ends: [shm_open] fails,
    [ftruncate] fails, [mmap] fails, or the object is mapped. *)
Inductive ShmOutcome : Type :=
  | ShmOpenFailed
  | FtruncateFailed
  | MmapFailed
  | ShmMapped.

(** ** monitor/agent.cpp: the counting agent *)

Module Monitor.

Record AllocationData : Type := {
  malloc_count_field : Z;   (* int32_t malloc_count *)
  size : Z;                 (* uint64_t *)
  total_bytes : Z;          (* uint64_t *)
  timestamp : Z;            (* int64_t *)
  is_valid : Z              (* int32_t: 0 = empty, 1 = valid data *)
}.

Definition BUFFER_SIZE : Z := 1000.

Record SharedBuffer : Type := {
  write_index : Z;          (* volatile int *)
  read_index : Z;           (* volatile int *)
  allocations : list AllocationData
}.

#[export] Instance SharedBuffer_layout : RingLayout SharedBuffer AllocationData := {
  ring_write_index := write_index;
  ring_set_write_index := fun v b =>
    {| write_index := v; read_index := read_index b; allocations := allocations b |};
  ring_slots := allocations;
  ring_set_slots := fun l b =>
    {| write_index := write_index b; read_index := read_index b; allocations := l |}
}.

Section WithPlatform.
Context {P : Platform}.

Record State : Type := {
  env : world;
  malloc_count : Z;             (* static int *)
  total_bytes_allocated : Z;    (* static size_t *)
  shared_buffer : option SharedBuffer
}.

(** The accesses [write_to_shared_memory] makes to the mapped buffer, in
    program order: the slot is chosen from [write_index], the packet is
    prepared (reading [time(NULL)]) and stored, [__sync_synchronize()] is
    issued, the index is incremented. *)
Definition write_to_shared_memory_ops (count size total : Z)
  : M State (list (ShmOp AllocationData)) := fun st =>
  match shared_buffer st with
  | None => ([], st)
  | Some b =>
      let next_slot := Z.rem (write_index b) BUFFER_SIZE in
      let (t, w) := time (env st) in
      let data := {| malloc_count_field := i32 count; size := u64 size;
                     total_bytes := u64 total; timestamp := i64 t;
                     is_valid := 1 |} in
      ([StoreSlot next_slot data; FullFence; IncWriteIndex],
       {| env := w; malloc_count := malloc_count st;
          total_bytes_allocated := total_bytes_allocated st;
          shared_buffer := shared_buffer st |})
  end.

Definition write_to_shared_memory (count size total : Z) : M State unit :=
  let* ops := write_to_shared_memory_ops count size total in
  modify (fun st =>
    {| env := env st; malloc_count := malloc_count st;
       total_bytes_allocated := total_bytes_allocated st;
       shared_buffer := exec_ops ops <$> shared_buffer st |}).

Definition malloc (size : Z) : M State Z := fun st =>
  let (ptr, w) := real_malloc size (env st) in
  if ptr =? 0
  then (ptr, {| env := w; malloc_count := malloc_count st;
                total_bytes_allocated := total_bytes_allocated st;
                shared_buffer := shared_buffer st |})
  else
    let count := i32 (malloc_count st + 1) in
    let total := u64 (total_bytes_allocated st + size) in
    let st1 := {| env := w; malloc_count := count;
                  total_bytes_allocated := total;
                  shared_buffer := shared_buffer st |} in
    (ptr, snd (write_to_shared_memory count size total st1)).

(** The statics when the library is loaded: the counters hold their
    initialisers and no buffer is mapped. *)
Definition loaded (w : world) : State :=
  {| env := w; malloc_count := 0; total_bytes_allocated := 0;
     shared_buffer := None |}.

Definition zero_record : AllocationData :=
  {| malloc_count_field := 0; size := 0; total_bytes := 0; timestamp := 0;
     is_valid := 0 |}.

Definition zero_buffer : SharedBuffer :=
  {| write_index := 0; read_index := 0;
     allocations := replicate (Z.to_nat BUFFER_SIZE) zero_record |}.

(** [agent_start]: the buffer, when it is mapped, is zeroed by the
    [memset]; the counters are not assigned, so calls of [malloc] served
    before the constructor stay counted.  The result of [ftruncate] is not
    checked: the code goes on as when the object has its size. *)
Definition agent_start (o : ShmOutcome) : M State unit :=
  modify (fun st =>
    {| env := env st; malloc_count := malloc_count st;
       total_bytes_allocated := total_bytes_allocated st;
       shared_buffer :=
         match o with
         | ShmOpenFailed => shared_buffer st
         | MmapFailed => None
         | FtruncateFailed | ShmMapped => Some zero_buffer
         end |}).
End WithPlatform.
Arguments State P : clear implicits.

End Monitor.

(** ** temp_advanced_backup/advanced_agent.cpp: the header-trick agent *)

Module Advanced.

(** *** [struct AllocationMeta], packed: field offsets and size *)

Definition ALLOC_MAGIC : Z := 0xDEADBEEF.
Definition off_magic : Z := 0.         (* uint32_t magic *)
Definition off_size : Z := 4.          (* size_t size *)
Definition off_alloc_time : Z := 12.   (* uint64_t alloc_time *)
Definition off_last_access : Z := 20.  (* uint64_t last_access *)
Definition off_site_id : Z := 28.      (* uint32_t site_id *)
Definition off_thread_id : Z := 32.    (* uint32_t thread_id *)
Definition sizeof_AllocationMeta : Z := 36.

Definition EVENT_MALLOC : Z := 1.
Definition EVENT_FREE : Z := 2.
Definition EVENT_LEAK_DETECTED : Z := 3.
Definition EVENT_ACCESS_PATTERN : Z := 4.

(** The union [data] of an event; both of its members have the layout
    pointer, [size_t], [uint64_t], [uint32_t]. *)
Record EventData : Type := {
  address : Z;
  size : Z;
  time_ns : Z;     (* staleness_ns of [leak], alloc_time of [allocation] *)
  site_id : Z
}.

Record LeakEvent : Type := {
  event_id : Z;      (* int32_t *)
  event_type : Z;    (* int32_t *)
  timestamp : Z;     (* uint64_t *)
  thread_id : Z;     (* uint32_t *)
  data : EventData;
  is_valid : Z       (* int32_t *)
}.

Definition zero_data : EventData :=
  {| address := 0; size := 0; time_ns := 0; site_id := 0 |}.
Definition zero_event : LeakEvent :=
  {| event_id := 0; event_type := 0; timestamp := 0; thread_id := 0;
     data := zero_data; is_valid := 0 |}.

Definition LEAK_BUFFER_SIZE : Z := 1000.

Record LeakDetectionBuffer : Type := {
  write_index : Z;              (* volatile int *)
  read_index : Z;               (* volatile int *)
  shm_total_allocations : Z;    (* volatile uint64_t total_allocations *)
  shm_total_frees : Z;          (* volatile uint64_t total_frees *)
  current_memory : Z;           (* volatile uint64_t *)
  leak_count : Z;               (* volatile uint32_t *)
  events : list LeakEvent
}.

#[export] Instance LeakDetectionBuffer_layout
  : RingLayout LeakDetectionBuffer LeakEvent := {
  ring_write_index := write_index;
  ring_set_write_index := fun v b =>
    {| write_index := v; read_index := read_index b;
       shm_total_allocations := shm_total_allocations b;
       shm_total_frees := shm_total_frees b;
       current_memory := current_memory b; leak_count := leak_count b;
       events := events b |};
  ring_slots := events;
  ring_set_slots := fun l b =>
    {| write_index := write_index b; read_index := read_index b;
       shm_total_allocations := shm_total_allocations b;
       shm_total_frees := shm_total_frees b;
       current_memory := current_memory b; leak_count := leak_count b;
       events := l |}
}.

(** The buffer as the constructor leaves it. *)
Definition zero_buffer : LeakDetectionBuffer :=
  {| write_index := 0; read_index := 0; shm_total_allocations := 0;
     shm_total_frees := 0; current_memory := 0; leak_count := 0;
     events := replicate (Z.to_nat LEAK_BUFFER_SIZE) zero_event |}.

(** *** The table of live allocations *)

Definition MAX_TRACKED_ALLOCS : Z := 10000.

Record Tracked : Type := {
  tr_address : Z;    (* void* address *)
  tr_meta : Z        (* AllocationMeta* meta *)
}.

#[export] Instance Tracked_inhabited : Inhabited Tracked :=
  populate {| tr_address := 0; tr_meta := 0 |}.

(** *** Header access *)

Definition meta_magic (m : gmap Z byte) (meta : Z) : Z := load_le 4 m (meta + off_magic).
Definition meta_size (m : gmap Z byte) (meta : Z) : Z := load_le 8 m (meta + off_size).
Definition meta_alloc_time (m : gmap Z byte) (meta : Z) : Z :=
  load_le 8 m (meta + off_alloc_time).
Definition meta_last_access (m : gmap Z byte) (meta : Z) : Z :=
  load_le 8 m (meta + off_last_access).
Definition meta_site_id (m : gmap Z byte) (meta : Z) : Z := load_le 4 m (meta + off_site_id).
Definition meta_thread_id (m : gmap Z byte) (meta : Z) : Z :=
  load_le 4 m (meta + off_thread_id).

Definition is_valid_allocation (m : gmap Z byte) (meta : Z) : bool :=
  negb (meta =? 0) && (meta_magic m meta =? ALLOC_MAGIC).

Definition get_meta_from_user_ptr (user_ptr : Z) : Z :=
  if user_ptr =? 0 then 0 else user_ptr - sizeof_AllocationMeta.

Definition get_user_ptr_from_meta (meta : Z) : Z :=
  meta + sizeof_AllocationMeta.

Section WithPlatform.
Context {P : Platform}.

(** *** Process-wide state *)

Record AgentState : Type := {
  mem : gmap Z byte;
  env : world;
  leak_buffer : option LeakDetectionBuffer;   (* nullptr: not mapped *)
  next_event_id : Z;                          (* volatile uint32_t *)
  staleness_threshold_ns : Z;                 (* atomic uint64_t *)
  total_allocations : Z;                      (* atomic uint64_t *)
  total_frees : Z;                            (* atomic uint64_t *)
  current_memory_usage : Z;                   (* atomic uint64_t *)
  active_allocs : list Tracked;               (* [MAX_TRACKED_ALLOCS] *)
  active_alloc_count : Z                      (* volatile int *)
}.

Definition set_mem (f : gmap Z byte -> gmap Z byte) (st : AgentState) :=
  {| mem := f (mem st); env := env st; leak_buffer := leak_buffer st;
     next_event_id := next_event_id st;
     staleness_threshold_ns := staleness_threshold_ns st;
     total_allocations := total_allocations st; total_frees := total_frees st;
     current_memory_usage := current_memory_usage st;
     active_allocs := active_allocs st;
     active_alloc_count := active_alloc_count st |}.

Definition set_env (w : world) (st : AgentState) :=
  {| mem := mem st; env := w; leak_buffer := leak_buffer st;
     next_event_id := next_event_id st;
     staleness_threshold_ns := staleness_threshold_ns st;
     total_allocations := total_allocations st; total_frees := total_frees st;
     current_memory_usage := current_memory_usage st;
     active_allocs := active_allocs st;
     active_alloc_count := active_alloc_count st |}.

Definition set_leak_buffer (f : LeakDetectionBuffer -> LeakDetectionBuffer)
    (st : AgentState) :=
  {| mem := mem st; env := env st; leak_buffer := f <$> leak_buffer st;
     next_event_id := next_event_id st;
     staleness_threshold_ns := staleness_threshold_ns st;
     total_allocations := total_allocations st; total_frees := total_frees st;
     current_memory_usage := current_memory_usage st;
     active_allocs := active_allocs st;
     active_alloc_count := active_alloc_count st |}.

Definition set_next_event_id (v : Z) (st : AgentState) :=
  {| mem := mem st; env := env st; leak_buffer := leak_buffer st;
     next_event_id := v;
     staleness_threshold_ns := staleness_threshold_ns st;
     total_allocations := total_allocations st; total_frees := total_frees st;
     current_memory_usage := current_memory_usage st;
     active_allocs := active_allocs st;
     active_alloc_count := active_alloc_count st |}.

Definition set_stats (allocs frees current : Z) (st : AgentState) :=
  {| mem := mem st; env := env st; leak_buffer := leak_buffer st;
     next_event_id := next_event_id st;
     staleness_threshold_ns := staleness_threshold_ns st;
     total_allocations := allocs; total_frees := frees;
     current_memory_usage := current;
     active_allocs := active_allocs st;
     active_alloc_count := active_alloc_count st |}.

Definition set_active (l : list Tracked) (n : Z) (st : AgentState) :=
  {| mem := mem st; env := env st; leak_buffer := leak_buffer st;
     next_event_id := next_event_id st;
     staleness_threshold_ns := staleness_threshold_ns st;
     total_allocations := total_allocations st; total_frees := total_frees st;
     current_memory_usage := current_memory_usage st;
     active_allocs := l; active_alloc_count := n |}.

(** Counters of the mapped buffer. *)
Definition set_shm_stats (allocs frees current leaks : Z)
    (b : LeakDetectionBuffer) : LeakDetectionBuffer :=
  {| write_index := write_index b; read_index := read_index b;
     shm_total_allocations := allocs; shm_total_frees := frees;
     current_memory := current; leak_count := leaks; events := events b |}.

(** *** Helper functions *)

Definition get_timestamp_ns : M AgentState Z := fun st =>
  let '((tv_sec, tv_nsec), w) := clock_gettime (env st) in
  (u64 (tv_sec * 1000000000 + tv_nsec), set_env w st).

Definition get_thread_id : M AgentState Z :=
  gets (fun st => u32 (pthread_self (env st))).

Definition get_call_site_id : M AgentState Z :=
  gets (fun st =>
    Z.land (u32 (Z.shiftr (u64 (builtin_return_address (env st))) 4)) 0xFFFF).

(** The used prefix of the table: what a pass of the scanner visits. *)
Definition snapshot (st : AgentState) : list Tracked :=
  take (Z.to_nat (active_alloc_count st)) (active_allocs st).

(** The table has [MAX_TRACKED_ALLOCS] slots and the count never leaves
    [0 .. MAX_TRACKED_ALLOCS] (see [reachable_index_inv]), so the index
    written here is inside the array. *)
Definition track_allocation (user_ptr meta : Z) : M AgentState unit :=
  modify (fun st =>
    if active_alloc_count st <? MAX_TRACKED_ALLOCS then
      let index := active_alloc_count st in
      set_active
        (<[Z.to_nat index := {| tr_address := user_ptr; tr_meta := meta |}]>
           (active_allocs st))
        (i32 (index + 1)) st
    else st).

(** The [for] loop of [untrack_allocation], from index [i] on; [fuel]
    bounds the iterations left and the loop test is the source's. *)
Fixpoint untrack_from (fuel : nat) (i : Z) (user_ptr : Z) (st : AgentState)
  : AgentState :=
  match fuel with
  | O => st
  | S k =>
      if i <? active_alloc_count st then
        if tr_address (active_allocs st !!! Z.to_nat i) =? user_ptr then
          let last := active_allocs st !!! Z.to_nat (active_alloc_count st - 1) in
          set_active (<[Z.to_nat i := last]> (active_allocs st))
                     (i32 (active_alloc_count st - 1)) st
        else untrack_from k (i + 1) user_ptr st
      else st
  end.

Definition untrack_allocation (user_ptr : Z) : M AgentState unit :=
  modify (fun st => untrack_from (Z.to_nat (active_alloc_count st)) 0 user_ptr st).

(** The accesses [write_leak_event] makes to the mapped buffer, in
    program order: the event is built, stored into the slot chosen from
    [write_index], and the index is incremented. *)
Definition write_leak_event_ops (event_type : Z) (d : option EventData)
  : M AgentState (list (ShmOp LeakEvent)) := fun st =>
  match leak_buffer st with
  | None => ([], st)
  | Some b =>
      let id := next_event_id st in
      let st1 := set_next_event_id (u32 (id + 1)) st in
      let (ts, st2) := get_timestamp_ns st1 in
      let event := {| event_id := i32 id; event_type := i32 event_type;
                      timestamp := ts;
                      thread_id := u32 (pthread_self (env st2));
                      data := default zero_data d; is_valid := 1 |} in
      let slot := Z.rem (write_index b) LEAK_BUFFER_SIZE in
      ([StoreSlot slot event; IncWriteIndex], st2)
  end.

Definition write_leak_event (event_type : Z) (d : option EventData)
  : M AgentState unit :=
  let* ops := write_leak_event_ops event_type d in
  modify (set_leak_buffer (exec_ops ops)).

Definition load_field (n : nat) (meta off : Z) : M AgentState Z :=
  gets (fun st => load_le n (mem st) (meta + off)).

Definition store_field (n : nat) (meta off v : Z) : M AgentState unit :=
  modify (set_mem (fun m => store_le n m (meta + off) v)).

Definition call_real_malloc (n : Z) : M AgentState Z := fun st =>
  let (p, w) := real_malloc n (env st) in (p, set_env w st).

Definition call_real_free (p : Z) : M AgentState unit :=
  modify (fun st => set_env (real_free p (mem st) (env st)) st).

Definition call_real_realloc (p n : Z) : M AgentState Z := fun st =>
  let '(q, m, w) := real_realloc p n (mem st) (env st) in
  (q, set_env w (set_mem (fun _ => m) st)).

Definition mapped : M AgentState bool :=
  gets (fun st => bool_decide (is_Some (leak_buffer st))).

Definition update_allocation_access (addr : Z) : M AgentState unit :=
  if addr =? 0 then ret tt else
  let meta := get_meta_from_user_ptr addr in
  let* ours := gets (fun st => is_valid_allocation (mem st) meta) in
  if ours then
    let* now := get_timestamp_ns in
    store_field 8 meta off_last_access now
  else ret tt.

Definition is_potentially_leaked (meta : Z) : M AgentState bool :=
  let* ours := gets (fun st => is_valid_allocation (mem st) meta) in
  if negb ours then ret false else
  let* now := get_timestamp_ns in
  let* last := load_field 8 meta off_last_access in
  let staleness := u64 (now - last) in
  let* threshold := gets staleness_threshold_ns in
  ret (threshold <? staleness).

Definition report_leak (meta user_ptr : Z) : M AgentState unit :=
  let* now := get_timestamp_ns in
  let* last := load_field 8 meta off_last_access in
  let staleness := u64 (now - last) in
  let* sz := load_field 8 meta off_size in
  let* site := load_field 4 meta off_site_id in
  run write_leak_event EVENT_LEAK_DETECTED
        (Some {| address := user_ptr; size := sz; time_ns := staleness;
                 site_id := site |}) in
  modify (set_leak_buffer (fun b =>
    set_shm_stats (shm_total_allocations b) (shm_total_frees b)
                  (current_memory b) (u32 (leak_count b + 1)) b)).

(** *** The interposed entry points *)

Definition malloc (size : Z) : M AgentState Z :=
  if size =? 0 then ret 0 else
  let total_size := u64 (size + sizeof_AllocationMeta) in
  let* real_ptr := call_real_malloc total_size in
  if real_ptr =? 0 then ret 0 else
  let meta := real_ptr in
  run store_field 4 meta off_magic ALLOC_MAGIC in
  run store_field 8 meta off_size size in
  let* now := get_timestamp_ns in
  run store_field 8 meta off_alloc_time now in
  let* t := load_field 8 meta off_alloc_time in
  run store_field 8 meta off_last_access t in
  let* site := get_call_site_id in
  run store_field 4 meta off_site_id site in
  let* tid := get_thread_id in
  run store_field 4 meta off_thread_id tid in
  let user_ptr := get_user_ptr_from_meta meta in
  run track_allocation user_ptr meta in
  run modify (fun st =>
        set_stats (u64 (total_allocations st + 1)) (total_frees st)
                  (u64 (current_memory_usage st + size)) st) in
  let* shm := mapped in
  run when shm (
        run modify (set_leak_buffer (fun b =>
              set_shm_stats (u64 (shm_total_allocations b + 1)) (shm_total_frees b)
                            (u64 (current_memory b + size)) (leak_count b) b)) in
        let* t := load_field 8 meta off_alloc_time in
        let* site := load_field 4 meta off_site_id in
        write_leak_event EVENT_MALLOC
          (Some {| address := user_ptr; size := size; time_ns := t;
                   site_id := site |})) in
  ret user_ptr.

(** [meta->size] is read where the source first uses it; nothing writes the
    header between that read and the later ones, which reuse the value. *)
Definition free (ptr : Z) : M AgentState unit :=
  if ptr =? 0 then ret tt else
  let meta := get_meta_from_user_ptr ptr in
  let* ours := gets (fun st => is_valid_allocation (mem st) meta) in
  if negb ours then
    (* not our allocation or corrupted header *)
    call_real_free ptr
  else
    let* sz := load_field 8 meta off_size in
    run modify (fun st =>
          set_stats (total_allocations st) (u64 (total_frees st + 1))
                    (u64 (current_memory_usage st - sz)) st) in
    run untrack_allocation ptr in
    let* shm := mapped in
    run when shm (
          run modify (set_leak_buffer (fun b =>
                set_shm_stats (shm_total_allocations b) (u64 (shm_total_frees b + 1))
                              (u64 (current_memory b - sz)) (leak_count b) b)) in
          let* t := load_field 8 meta off_alloc_time in
          let* site := load_field 4 meta off_site_id in
          write_leak_event EVENT_FREE
            (Some {| address := ptr; size := sz; time_ns := t;
                     site_id := site |})) in
    (* clear magic to detect double-free *)
    run store_field 4 meta off_magic 0 in
    (* free the real pointer (including header) *)
    call_real_free meta.

Definition realloc (ptr size : Z) : M AgentState Z :=
  if ptr =? 0 then malloc size else
  if size =? 0 then (run free ptr in ret 0) else
  let old_meta := get_meta_from_user_ptr ptr in
  let* ours := gets (fun st => is_valid_allocation (mem st) old_meta) in
  if negb ours then call_real_realloc ptr size else
  let* old_size := load_field 8 old_meta off_size in
  let* new_ptr := malloc size in
  if new_ptr =? 0 then ret 0 else
  let copy_size := if size <? old_size then size else old_size in
  run modify (set_mem (fun m => memcpy m new_ptr ptr copy_size)) in
  run free ptr in
  ret new_ptr.

Definition calloc (nmemb size : Z) : M AgentState Z :=
  let total_size := u64 (nmemb * size) in
  let* ptr := malloc total_size in
  run when (negb (ptr =? 0))
        (modify (set_mem (fun m => memset m ptr 0 total_size))) in
  ret ptr.

(** *** The scanner *)

(** The [for] loop of one pass of [leak_scanner_thread], from index [i]
    on, with [leaks] found so far. *)
Fixpoint scan_from (fuel : nat) (i leaks : Z) : M AgentState Z :=
  match fuel with
  | O => ret leaks
  | S k =>
      let* n := gets active_alloc_count in
      if i <? n then
        let* meta := gets (fun st => tr_meta (active_allocs st !!! Z.to_nat i)) in
        let* user_ptr :=
          gets (fun st => tr_address (active_allocs st !!! Z.to_nat i)) in
        let* ours := gets (fun st => is_valid_allocation (mem st) meta) in
        let* stale := (if ours then is_potentially_leaked meta else ret false) in
        if stale
        then (run report_leak meta user_ptr in scan_from k (i + 1) (i32 (leaks + 1)))
        else scan_from k (i + 1) leaks
      else ret leaks
  end.

(** One pass of the scanner, after its [sleep(5)]. *)
Definition scan_pass : M AgentState Z :=
  let* shm := mapped in
  if shm then
    let* n := gets active_alloc_count in
    scan_from (Z.to_nat n) 0 0
  else ret 0.

(** [get_allocation_stats]: each counter is loaded and stored through its
    pointer when the pointer is not null, in the order of the source. *)
Definition get_allocation_stats (allocs frees current_mem : Z) : M AgentState unit :=
  let* a := gets total_allocations in
  run when (negb (allocs =? 0))
        (modify (set_mem (fun m => store_le 8 m allocs a))) in
  let* f := gets total_frees in
  run when (negb (frees =? 0))
        (modify (set_mem (fun m => store_le 8 m frees f))) in
  let* c := gets current_memory_usage in
  when (negb (current_mem =? 0))
    (modify (set_mem (fun m => store_le 8 m current_mem c))).

(** *** Start-up and the executions of the agent *)

(** The statics when the library is loaded ([shm_ok = false]: the counters
    and the table hold their initialisers and no buffer is mapped), and the
    state [advanced_agent_init] leaves when it maps the buffer and no
    allocation was served before it ([shm_ok = true]). *)
Definition initial_state (m : gmap Z byte) (w : world) (shm_ok : bool)
  : AgentState :=
  {| mem := m; env := w;
     leak_buffer := if shm_ok then Some zero_buffer else None;
     next_event_id := 1;
     staleness_threshold_ns := 3000000000;
     total_allocations := 0; total_frees := 0; current_memory_usage := 0;
     active_allocs :=
       replicate (Z.to_nat MAX_TRACKED_ALLOCS) {| tr_address := 0; tr_meta := 0 |};
     active_alloc_count := 0 |}.

(** [advanced_agent_init]: when the object is opened, sized and mapped, the
    header of the buffer and its events are zeroed; the counters, the table
    and [next_event_id] are not assigned, so what was allocated before the
    constructor ran (for one, by its own [printf]) stays counted and
    tracked.  When [shm_open] or [ftruncate] fails [leak_buffer] is left as
    it is; when [mmap] fails it is reset to null. *)
Definition advanced_agent_init (o : ShmOutcome) : M AgentState unit :=
  modify (fun st =>
    {| mem := mem st; env := env st;
       leak_buffer :=
         match o with
         | ShmOpenFailed | FtruncateFailed => leak_buffer st
         | MmapFailed => None
         | ShmMapped => Some zero_buffer
         end;
       next_event_id := next_event_id st;
       staleness_threshold_ns := staleness_threshold_ns st;
       total_allocations := total_allocations st; total_frees := total_frees st;
       current_memory_usage := current_memory_usage st;
       active_allocs := active_allocs st;
       active_alloc_count := active_alloc_count st |}).

(** What happens to the agent: calls of its entry points, passes of the
    scanner, and stores of the program into its own memory. *)
Inductive Call : Type :=
  | CallMalloc (size : Z)
  | CallFree (ptr : Z)
  | CallRealloc (ptr size : Z)
  | CallCalloc (nmemb size : Z)
  | CallUpdateAccess (addr : Z)
  | ScannerPass
  | UserStore (addr : Z) (b : byte).

Definition step (c : Call) (st : AgentState) : AgentState :=
  match c with
  | CallMalloc size => snd (malloc size st)
  | CallFree ptr => snd (free ptr st)
  | CallRealloc ptr size => snd (realloc ptr size st)
  | CallCalloc nmemb size => snd (calloc nmemb size st)
  | CallUpdateAccess addr => snd (update_allocation_access addr st)
  | ScannerPass => snd (scan_pass st)
  | UserStore addr b => set_mem (fun m => <[addr := b]> m) st
  end.

Inductive reachable : AgentState -> Prop :=
  | reachable_init m w shm_ok : reachable (initial_state m w shm_ok)
  | reachable_step c st : reachable st -> reachable (step c st).

(** The table is consistent: it has its [MAX_TRACKED_ALLOCS] slots, the
    count is between [0] and [MAX_TRACKED_ALLOCS], and every entry of the
    used prefix stores a user pointer that is its header pointer plus
    [sizeof(AllocationMeta)]. *)
Definition entry_consistent (e : Tracked) : Prop :=
  tr_address e = tr_meta e + sizeof_AllocationMeta.

Definition index_inv (st : AgentState) : Prop :=
  length (active_allocs st) = Z.to_nat MAX_TRACKED_ALLOCS /\
  0 <= active_alloc_count st <= MAX_TRACKED_ALLOCS /\
  Forall entry_consistent (snapshot st).
End WithPlatform.
Arguments AgentState P : clear implicits.

End Advanced.

(** ** A platform to run the agent on: a bump allocator that logs its calls *)

Module Fixture.

Inductive RealCall : Type :=
  | RealMalloc (n : Z)
  | RealFree (p magic : Z)     (* the pointer, and the four bytes found there *)
  | RealRealloc (p n : Z).

Record BumpWorld : Type := {
  brk : Z;                   (* next free address *)
  limit : Z;                 (* end of the arena *)
  calls : list RealCall;     (* calls received, oldest first *)
  ticks : Z                  (* seconds shown by the clocks *)
}.

Definition bump_malloc (n : Z) (w : BumpWorld) : Z * BumpWorld :=
  if brk w + n <=? limit w
  then (brk w, {| brk := brk w + n; limit := limit w;
                  calls := calls w ++ [RealMalloc n]; ticks := ticks w |})
  else (0, {| brk := brk w; limit := limit w;
              calls := calls w ++ [RealMalloc n]; ticks := ticks w |}).

Definition bump_free (p : Z) (m : gmap Z byte) (w : BumpWorld) : BumpWorld :=
  {| brk := brk w; limit := limit w;
     calls := calls w ++ [RealFree p (load_le 4 m p)];
     ticks := ticks w |}.

Definition bump_realloc (p n : Z) (m : gmap Z byte) (w : BumpWorld)
  : Z * gmap Z byte * BumpWorld :=
  if brk w + n <=? limit w
  then (brk w, memcpy m (brk w) p n,
        {| brk := brk w + n; limit := limit w;
           calls := calls w ++ [RealRealloc p n]; ticks := ticks w |})
  else (0, m, {| brk := brk w; limit := limit w;
                 calls := calls w ++ [RealRealloc p n]; ticks := ticks w |}).

Definition tick (w : BumpWorld) : BumpWorld :=
  {| brk := brk w; limit := limit w; calls := calls w; ticks := ticks w + 1 |}.

#[export] Instance bump : Platform := {
  world := BumpWorld;
  real_malloc := bump_malloc;
  real_free := bump_free;
  real_realloc := bump_realloc;
  clock_gettime := fun w => ((ticks w, 0), tick w);
  time := fun w => (ticks w, tick w);
  pthread_self := fun _ => 7;
  builtin_return_address := fun _ => 0x401a30
}.

(** An arena of 4 KiB at address [0x1000]. *)
Definition arena : BumpWorld :=
  {| brk := 0x1000; limit := 0x2000; calls := []; ticks := 100 |}.

(** An allocator with no memory left. *)
Definition exhausted : BumpWorld :=
  {| brk := 0x1000; limit := 0x1000; calls := []; ticks := 100 |}.

Definition started : Advanced.AgentState bump := Advanced.initial_state ∅ arena true.
Definition started_exhausted : Advanced.AgentState bump :=
  Advanced.initial_state ∅ exhausted true.

(** The agent after one [malloc(16)]: the block's user pointer is [0x1024]. *)
Definition one_block : Advanced.AgentState bump :=
  snd (Advanced.malloc 16 started).

(** A table filled to capacity with the entry of one block. *)
Definition full_table : Advanced.AgentState bump :=
  Advanced.set_active
    (replicate (Z.to_nat Advanced.MAX_TRACKED_ALLOCS)
       {| Advanced.tr_address := 0x1024; Advanced.tr_meta := 0x1000 |})
    Advanced.MAX_TRACKED_ALLOCS started.

Definition monitor_started : Monitor.State bump :=
  {| Monitor.env := arena; Monitor.malloc_count := 0;
     Monitor.total_bytes_allocated := 0;
     Monitor.shared_buffer :=
       Some {| Monitor.write_index := 0; Monitor.read_index := 0;
               Monitor.allocations :=
                 replicate (Z.to_nat Monitor.BUFFER_SIZE)
                   {| Monitor.malloc_count_field := 0; Monitor.size := 0;
                      Monitor.total_bytes := 0; Monitor.timestamp := 0;
                      Monitor.is_valid := 0 |} |} |}.

End Fixture.

(** * Properties *)

(** ** Memory *)

Section Memory.
Implicit Types (m : gmap Z byte) (a : Z) (bs : list byte).

Lemma store_bytes_lookup_outside bs : forall m a a',
  a' < a \/ a + Z.of_nat (length bs) <= a' ->
  store_bytes m a bs !! a' = m !! a'.
Proof.
  induction bs as [|b bs IH]; intros m a a' Hout; simpl; [reflexivity|].
  rewrite IH by (simpl length in Hout; lia).
  apply lookup_insert_ne. simpl length in Hout. lia.
Qed.

Lemma load_byte_store_bytes_outside bs m a a' :
  a' < a \/ a + Z.of_nat (length bs) <= a' ->
  load_byte (store_bytes m a bs) a' = load_byte m a'.
Proof. intros. unfold load_byte. now rewrite store_bytes_lookup_outside. Qed.

Lemma load_bytes_ext n : forall m1 m2 a,
  (forall i, a <= i < a + Z.of_nat n -> load_byte m1 i = load_byte m2 i) ->
  load_bytes n m1 a = load_bytes n m2 a.
Proof.
  induction n as [|n IH]; intros m1 m2 a Hext; simpl; [reflexivity|].
  f_equal.
  - apply Hext. lia.
  - apply IH. intros i Hi. apply Hext. lia.
Qed.

Lemma length_load_bytes n : forall m a, length (load_bytes n m a) = n.
Proof. induction n; intros; simpl; auto. Qed.

Lemma load_bytes_store_bytes_same bs : forall m a,
  load_bytes (length bs) (store_bytes m a bs) a = bs.
Proof.
  induction bs as [|b bs IH]; intros m a; simpl; [reflexivity|].
  f_equal.
  - unfold load_byte. rewrite store_bytes_lookup_outside by lia.
    now rewrite lookup_insert_eq.
  - apply IH.
Qed.

Lemma load_bytes_store_bytes_disjoint n bs m a a' :
  a' + Z.of_nat n <= a \/ a + Z.of_nat (length bs) <= a' ->
  load_bytes n (store_bytes m a bs) a' = load_bytes n m a'.
Proof.
  intros Hd. apply load_bytes_ext. intros i Hi.
  apply load_byte_store_bytes_outside. lia.
Qed.

Lemma load_le_store_le_same n m a v :
  load_le n (store_le n m a v) a = v mod 2 ^ (Z.of_nat n * 8).
Proof.
  unfold load_le, store_le.
  rewrite <- (length_le_split n v) at 1.
  rewrite load_bytes_store_bytes_same. apply le_combine_split.
Qed.

Lemma load_le_store_le_disjoint n k m a a' v :
  a' + Z.of_nat n <= a \/ a + Z.of_nat k <= a' ->
  load_le n (store_le k m a v) a' = load_le n m a'.
Proof.
  intros Hd. unfold load_le, store_le.
  rewrite load_bytes_store_bytes_disjoint; [reflexivity|].
  now rewrite length_le_split.
Qed.

Lemma load_byte_store_le_outside k m a a' v :
  a' < a \/ a + Z.of_nat k <= a' ->
  load_byte (store_le k m a v) a' = load_byte m a'.
Proof.
  intros Hd. unfold store_le. apply load_byte_store_bytes_outside.
  now rewrite length_le_split.
Qed.
End Memory.

(** ** Publication to the ring *)

Section Publication.
Context {P : Platform}.

(** [write_to_shared_memory] of the counting agent follows the protocol:
    store, full fence, advance. *)
Lemma monitor_publication_fenced (st : Monitor.State P) b count size total :
  Monitor.shared_buffer st = Some b ->
  fenced_publication (fst (Monitor.write_to_shared_memory_ops count size total st)).
Proof.
  intros Hb. unfold Monitor.write_to_shared_memory_ops. rewrite Hb.
  destruct (time _) as [t w]. simpl. eexists _, _. reflexivity.
Qed.

Lemma fenced_publication_has_fence {R} (ops : list (ShmOp R)) :
  fenced_publication ops -> has_fence ops = true.
Proof. intros (slot & r & ->). reflexivity. Qed.

(** C1 (the code departs from the claim).  Whenever the ring is mapped,
    [write_leak_event] of the header-trick agent stores the event into the
    slot [write_index % LEAK_BUFFER_SIZE] and increments [write_index]
    right after: no fence is issued between the two, so the accesses are
    not the store / full fence / advance sequence the claim describes. *)
Theorem write_leak_event_no_fence (st : Advanced.AgentState P) b event_type d :
  Advanced.leak_buffer st = Some b ->
  let ops := fst (Advanced.write_leak_event_ops event_type d st) in
  (exists ev, ops = [StoreSlot (Z.rem (Advanced.write_index b)
                                      Advanced.LEAK_BUFFER_SIZE) ev;
                     IncWriteIndex]) /\
  has_fence ops = false /\
  ~ fenced_publication ops.
Proof.
  intros Hb ops. subst ops. unfold Advanced.write_leak_event_ops. rewrite Hb.
  destruct (Advanced.get_timestamp_ns _) as [ts st2]. simpl.
  split; [eexists; reflexivity|]. split; [reflexivity|].
  intros (slot & r & Heq). discriminate Heq.
Qed.

(** In a sequential run the event is in place once the index has moved:
    the slot before the new [write_index] holds a record with
    [is_valid = 1]. *)
Lemma write_leak_event_slot_filled (st : Advanced.AgentState P) b event_type d :
  Advanced.leak_buffer st = Some b ->
  0 <= Advanced.write_index b < 2 ^ 31 - 1 ->
  length (Advanced.events b) = Z.to_nat Advanced.LEAK_BUFFER_SIZE ->
  exists b' ev,
    Advanced.leak_buffer (snd (Advanced.write_leak_event event_type d st)) = Some b' /\
    Advanced.write_index b' = Advanced.write_index b + 1 /\
    Advanced.events b'
      !! Z.to_nat ((Advanced.write_index b' - 1) mod Advanced.LEAK_BUFFER_SIZE)
      = Some ev /\
    Advanced.is_valid ev = 1.
Proof.
  intros Hb Hw Hlen.
  unfold Advanced.write_leak_event, bind, modify.
  unfold Advanced.write_leak_event_ops. rewrite Hb.
  unfold Advanced.get_timestamp_ns. simpl.
  destruct (clock_gettime _) as [[s ns] w]. simpl. rewrite Hb. simpl.
  assert (Hrem : Z.rem (Advanced.write_index b) Advanced.LEAK_BUFFER_SIZE
                 = Advanced.write_index b mod Advanced.LEAK_BUFFER_SIZE).
  { apply Z.rem_mod_nonneg; unfold Advanced.LEAK_BUFFER_SIZE; lia. }
  assert (Hrange : 0 <= Advanced.write_index b mod Advanced.LEAK_BUFFER_SIZE
                   < Advanced.LEAK_BUFFER_SIZE).
  { apply Z.mod_pos_bound. unfold Advanced.LEAK_BUFFER_SIZE. lia. }
  rewrite Hrem.
  destruct (0 <=? _) eqn:Hge; [|apply Z.leb_gt in Hge; lia].
  eexists _, _. split; [reflexivity|]. simpl.
  assert (Hinc : i32 (Advanced.write_index b + 1) = Advanced.write_index b + 1).
  { unfold i32. rewrite Z.mod_small; lia. }
  rewrite Hinc. split; [reflexivity|].
  replace (Advanced.write_index b + 1 - 1) with (Advanced.write_index b) by lia.
  split.
  - apply list_lookup_insert_eq. rewrite Hlen. lia.
  - reflexivity.
Qed.
End Publication.

Lemma write_leak_event_no_fence_witness :
  Advanced.leak_buffer Fixture.started = Some Advanced.zero_buffer /\
  has_fence (fst (Advanced.write_leak_event_ops Advanced.EVENT_MALLOC None
                    Fixture.started)) = false.
Proof.
  split; [reflexivity|].
  apply (write_leak_event_no_fence Fixture.started Advanced.zero_buffer
           Advanced.EVENT_MALLOC None).
  reflexivity.
Defined.

Import Advanced.

(** ** Header arithmetic *)

Section Header.
Context {P : Platform}.

Ltac monad := unfold bind, ret, gets, modify, when in *.

Lemma malloc_zero (st : AgentState P) : malloc 0 st = (0, st).
Proof. reflexivity. Qed.

(** [malloc] hands out the real block shifted by the header. *)
Lemma malloc_result (st : AgentState P) size r w :
  size <> 0 ->
  real_malloc (u64 (size + sizeof_AllocationMeta)) (env st) = (r, w) ->
  r <> 0 ->
  fst (malloc size st) = get_user_ptr_from_meta r.
Proof.
  intros Hs Hr Hr0. unfold malloc.
  destruct (size =? 0) eqn:E; [apply Z.eqb_eq in E; contradiction|].
  unfold bind at 1. unfold call_real_malloc. rewrite Hr.
  destruct (r =? 0) eqn:E0; [apply Z.eqb_eq in E0; contradiction|].
  monad. unfold store_field, load_field, get_timestamp_ns, get_call_site_id,
    get_thread_id, track_allocation, mapped. monad.
  repeat match goal with
         | |- context [let (_, _) := ?c in _] => destruct c
         | |- context [if ?c then _ else _] => destruct c
         end; reflexivity.
Qed.

(** C5.  For a header base [h] in the address space, the user pointer is
    [h + sizeof(AllocationMeta)] and [get_meta_from_user_ptr] takes it back
    to [h]; and the pointer [malloc] returns for a real block at [h] is that
    user pointer, so its header is found at [h] again. *)
Theorem header_round_trip (h : Z) :
  0 <= h ->
  get_user_ptr_from_meta h = h + sizeof_AllocationMeta /\
  get_meta_from_user_ptr (get_user_ptr_from_meta h) = h /\
  (forall (st : AgentState P) size w,
      size <> 0 -> h <> 0 ->
      real_malloc (u64 (size + sizeof_AllocationMeta)) (env st) = (h, w) ->
      fst (malloc size st) = h + sizeof_AllocationMeta /\
      get_meta_from_user_ptr (fst (malloc size st)) = h).
Proof.
  intros Hh.
  assert (Hrt : get_meta_from_user_ptr (get_user_ptr_from_meta h) = h).
  { unfold get_meta_from_user_ptr, get_user_ptr_from_meta, sizeof_AllocationMeta.
    destruct (h + 36 =? 0) eqn:E; [apply Z.eqb_eq in E; lia | lia]. }
  split; [reflexivity|]. split; [exact Hrt|].
  intros st size w Hs Hh0 Hr.
  rewrite (malloc_result st size h w Hs Hr Hh0). split; [reflexivity | exact Hrt].
Qed.
End Header.

Lemma header_round_trip_witness :
  0 <= 0x1000 /\
  get_meta_from_user_ptr (get_user_ptr_from_meta 0x1000) = 0x1000 /\
  fst (malloc 64 Fixture.started) = 0x1000 + sizeof_AllocationMeta.
Proof.
  split; [lia|].
  destruct (header_round_trip (P := Fixture.bump) 0x1000 ltac:(lia))
    as (_ & Hrt & Hm).
  split; [exact Hrt|].
  eapply (Hm Fixture.started 64); [lia | lia | reflexivity].
Defined.

(** ** Failure and pass-through paths of the entry points *)

Section EntryPoints.
Context {P : Platform}.

Lemma malloc_fails_eq (st : AgentState P) size w :
  size <> 0 ->
  real_malloc (u64 (size + sizeof_AllocationMeta)) (env st) = (0, w) ->
  malloc size st = (0, set_env w st).
Proof.
  intros Hs Hr. unfold malloc.
  destruct (size =? 0) eqn:E; [apply Z.eqb_eq in E; contradiction|].
  unfold bind at 1. unfold call_real_malloc. rewrite Hr. reflexivity.
Qed.

(** C3.  For a request of [size > 0], when the real allocator returns null
    for [size + sizeof(AllocationMeta)], [malloc] returns null and the
    state is the one before the call but for the real allocator having been
    asked: no event is published ([leak_buffer] and [next_event_id] are the
    same), the table is the same, and the counters, local and in the ring,
    are unchanged. *)
Theorem malloc_real_null (st : AgentState P) size :
  0 < size ->
  fst (real_malloc (u64 (size + sizeof_AllocationMeta)) (env st)) = 0 ->
  let st' := snd (malloc size st) in
  fst (malloc size st) = 0 /\
  leak_buffer st' = leak_buffer st /\
  next_event_id st' = next_event_id st /\
  active_allocs st' = active_allocs st /\
  active_alloc_count st' = active_alloc_count st /\
  total_allocations st' = total_allocations st /\
  total_frees st' = total_frees st /\
  current_memory_usage st' = current_memory_usage st /\
  mem st' = mem st.
Proof.
  intros Hs Hnull.
  destruct (real_malloc (u64 (size + sizeof_AllocationMeta)) (env st))
    as [r w] eqn:Hr.
  simpl in Hnull. subst r.
  rewrite (malloc_fails_eq st size w) by (lia || assumption).
  simpl. repeat split; reflexivity.
Qed.

(** A pointer whose header is not ours goes to the real [free] as it is. *)
Lemma free_not_ours (st : AgentState P) ptr :
  ptr <> 0 ->
  is_valid_allocation (mem st) (get_meta_from_user_ptr ptr) = false ->
  free ptr st = (tt, set_env (real_free ptr (mem st) (env st)) st).
Proof.
  intros Hp Hv. unfold free.
  destruct (ptr =? 0) eqn:E; [apply Z.eqb_eq in E; contradiction|].
  unfold bind at 1. unfold gets. rewrite Hv. reflexivity.
Qed.

Lemma magic_mismatch_not_ours (m : gmap Z byte) ptr :
  ptr <> 0 ->
  meta_magic m (ptr - sizeof_AllocationMeta) <> ALLOC_MAGIC ->
  is_valid_allocation m (get_meta_from_user_ptr ptr) = false.
Proof.
  intros Hp Hm. unfold is_valid_allocation, get_meta_from_user_ptr.
  destruct (ptr =? 0) eqn:E; [apply Z.eqb_eq in E; contradiction|].
  apply andb_false_iff. right. now apply Z.eqb_neq.
Qed.

(** C4.  For a non-null pointer whose preceding header does not carry
    [ALLOC_MAGIC], [free] forwards the pointer itself to the real [free];
    it publishes no event, changes no counter, and leaves the table and the
    memory as they were. *)
Theorem free_foreign_pass_through (st : AgentState P) ptr :
  ptr <> 0 ->
  meta_magic (mem st) (ptr - sizeof_AllocationMeta) <> ALLOC_MAGIC ->
  let st' := snd (free ptr st) in
  env st' = real_free ptr (mem st) (env st) /\
  leak_buffer st' = leak_buffer st /\
  next_event_id st' = next_event_id st /\
  total_allocations st' = total_allocations st /\
  total_frees st' = total_frees st /\
  current_memory_usage st' = current_memory_usage st /\
  active_allocs st' = active_allocs st /\
  active_alloc_count st' = active_alloc_count st /\
  mem st' = mem st.
Proof.
  intros Hp Hm. simpl.
  rewrite (free_not_ours st ptr Hp (magic_mismatch_not_ours _ _ Hp Hm)).
  simpl. repeat split; reflexivity.
Qed.

(** [calloc] sees its two arguments only through their wrapped product. *)
Lemma calloc_wrapped_product (st : AgentState P) nmemb size :
  calloc nmemb size st = calloc 1 (u64 (nmemb * size)) st.
Proof.
  unfold calloc.
  replace (u64 (1 * u64 (nmemb * size))) with (u64 (nmemb * size)); [reflexivity|].
  unfold u64. rewrite Z.mul_1_l. symmetry. apply Z.mod_mod. lia.
Qed.

(** C9.  With [nmemb = 0] or [size = 0] the product is zero, [malloc(0)]
    returns null, and [calloc] returns null with the state untouched: no
    block is obtained and no event is published. *)
Theorem calloc_zero (st : AgentState P) nmemb size :
  nmemb = 0 \/ size = 0 ->
  calloc nmemb size st = (0, st).
Proof.
  intros Hz. unfold calloc.
  replace (nmemb * size) with 0 by (destruct Hz; subst; lia).
  reflexivity.
Qed.
End EntryPoints.

Lemma malloc_real_null_witness :
  0 < 16 /\
  fst (malloc 16 Fixture.started_exhausted) = 0 /\
  leak_buffer (snd (malloc 16 Fixture.started_exhausted))
  = leak_buffer Fixture.started_exhausted.
Proof.
  split; [lia|].
  destruct (malloc_real_null Fixture.started_exhausted 16 ltac:(lia) eq_refl)
    as (H0 & Hb & _).
  split; [exact H0 | exact Hb].
Defined.

Lemma free_foreign_pass_through_witness :
  0x500 <> 0 /\
  env (snd (free 0x500 Fixture.started))
  = real_free 0x500 (mem Fixture.started) (env Fixture.started).
Proof.
  split; [lia|].
  refine (proj1 (free_foreign_pass_through Fixture.started 0x500 _ _)).
  - lia.
  - vm_compute. discriminate.
Defined.

Lemma calloc_zero_witness :
  calloc 0 8 Fixture.started = (0, Fixture.started) /\
  calloc 8 0 Fixture.started = (0, Fixture.started).
Proof.
  split.
  - apply (calloc_zero Fixture.started 0 8). left. reflexivity.
  - apply (calloc_zero Fixture.started 8 0). right. reflexivity.
Defined.

(** C2 (the code departs from the claim).  [calloc] multiplies without a
    check: for [nmemb = 2^63 + 1] and [size = 2] the product overflows 64
    bits and wraps to [2]; on an allocator with memory left the call asks the
    real allocator for [2 + 36] bytes and returns a non-null pointer to a
    block of the truncated size, counted as one allocation of 2 bytes. *)
Theorem calloc_overflow_truncates :
  let nmemb := 2 ^ 63 + 1 in
  let size := 2 in
  let r := calloc nmemb size Fixture.started in
  2 ^ 64 <= nmemb * size /\
  fst r = 0x1024 /\
  fst r <> 0 /\
  Fixture.calls (env (snd r)) = [Fixture.RealMalloc 38] /\
  total_allocations (snd r) = 1 /\
  current_memory_usage (snd r) = 2.
Proof. vm_compute. repeat split; congruence. Qed.

(** ** Frame reasoning: what a computation leaves alone *)

Section Frame.
Context {P : Platform}.
Implicit Types (st : AgentState P).

(** [keeps proj c]: running [c] does not change the view [proj] of the
    state. *)
Definition keeps {A B} (proj : AgentState P -> B) (c : M (AgentState P) A) : Prop :=
  forall st, proj (snd (c st)) = proj st.

Section View.
Context {B : Type} (proj : AgentState P -> B).

Definition ignores_env : Prop := forall w st, proj (set_env w st) = proj st.
Definition ignores_mem : Prop := forall f st, proj (set_mem f st) = proj st.
Definition ignores_leak_buffer : Prop :=
  forall f st, proj (set_leak_buffer f st) = proj st.
Definition ignores_next_event_id : Prop :=
  forall v st, proj (set_next_event_id v st) = proj st.
Definition ignores_active : Prop :=
  forall l n st, proj (set_active l n st) = proj st.

Lemma keeps_ret {A} (a : A) : keeps proj (ret a).
Proof. intros st. reflexivity. Qed.

Lemma keeps_gets {A} (f : AgentState P -> A) : keeps proj (gets f).
Proof. intros st. reflexivity. Qed.

Lemma keeps_modify f : (forall st, proj (f st) = proj st) -> keeps proj (modify f).
Proof. intros Hf st. apply Hf. Qed.

Lemma keeps_bind {A C} (c : M (AgentState P) A) (k : A -> M (AgentState P) C) :
  keeps proj c -> (forall a, keeps proj (k a)) -> keeps proj (bind c k).
Proof.
  intros Hc Hk st. unfold bind. specialize (Hc st).
  destruct (c st) as [a st1]. simpl in Hc. rewrite Hk. exact Hc.
Qed.

Lemma keeps_when b c : keeps proj c -> keeps proj (when b c).
Proof. intros Hc. destruct b; [exact Hc | apply keeps_ret]. Qed.

Lemma keeps_get_timestamp_ns : ignores_env -> keeps proj get_timestamp_ns.
Proof.
  intros He st. unfold get_timestamp_ns.
  destruct (clock_gettime _) as [[s ns] w]. apply He.
Qed.

Lemma keeps_call_real_malloc n : ignores_env -> keeps proj (call_real_malloc n).
Proof.
  intros He st. unfold call_real_malloc. destruct (real_malloc _ _). apply He.
Qed.

Lemma keeps_call_real_free p : ignores_env -> keeps proj (call_real_free p).
Proof. intros He st. apply He. Qed.

Lemma keeps_call_real_realloc p n :
  ignores_env -> ignores_mem -> keeps proj (call_real_realloc p n).
Proof.
  intros He Hm st. unfold call_real_realloc.
  destruct (real_realloc _ _ _ _) as [[q m] w]. simpl. now rewrite He, Hm.
Qed.

Lemma keeps_write_leak_event_ops t d :
  ignores_env -> ignores_next_event_id -> keeps proj (write_leak_event_ops t d).
Proof.
  intros He Hn st. unfold write_leak_event_ops.
  destruct (leak_buffer st); [|reflexivity].
  pose proof (keeps_get_timestamp_ns He
                (set_next_event_id (u32 (next_event_id st + 1)) st)) as H.
  destruct (get_timestamp_ns _) as [ts st2]. simpl in *. now rewrite H, Hn.
Qed.

Lemma keeps_write_leak_event t d :
  ignores_env -> ignores_next_event_id -> ignores_leak_buffer ->
  keeps proj (write_leak_event t d).
Proof.
  intros He Hn Hb. unfold write_leak_event.
  apply keeps_bind; [now apply keeps_write_leak_event_ops|].
  intros ops. apply keeps_modify. intros st. apply Hb.
Qed.

Lemma keeps_store_field n meta off v :
  ignores_mem -> keeps proj (store_field n meta off v).
Proof. intros Hm st. apply Hm. Qed.

Lemma untrack_from_set_active user_ptr fuel : forall i st,
  exists l n, untrack_from fuel i user_ptr st = set_active l n st.
Proof.
  induction fuel as [|k IH]; intros i st; simpl.
  - exists (active_allocs st), (active_alloc_count st). now destruct st.
  - destruct (i <? active_alloc_count st);
      [|exists (active_allocs st), (active_alloc_count st); now destruct st].
    destruct (_ =? user_ptr); [eexists _, _; reflexivity | apply IH].
Qed.

Lemma keeps_untrack_allocation user_ptr :
  ignores_active -> keeps proj (untrack_allocation user_ptr).
Proof.
  intros Ha st. unfold untrack_allocation, modify. simpl.
  destruct (untrack_from_set_active user_ptr
              (Z.to_nat (active_alloc_count st)) 0 st) as (l & n & ->).
  apply Ha.
Qed.

Lemma keeps_track_allocation user_ptr meta :
  ignores_active -> keeps proj (track_allocation user_ptr meta).
Proof.
  intros Ha st. unfold track_allocation, modify. simpl.
  destruct (_ <? _); [apply Ha | reflexivity].
Qed.
End View.
End Frame.

Ltac ignored :=
  solve [ assumption
        | unfold ignores_env, ignores_mem, ignores_leak_buffer,
            ignores_next_event_id, ignores_active; intros; reflexivity ].

(** Decomposes a [keeps] goal along the structure of the computation. *)
Ltac keeps :=
  repeat first
    [ apply keeps_get_timestamp_ns; ignored
    | apply keeps_call_real_malloc; ignored
    | apply keeps_call_real_free; ignored
    | apply keeps_call_real_realloc; ignored
    | apply keeps_write_leak_event; ignored
    | apply keeps_store_field; ignored
    | apply keeps_untrack_allocation; ignored
    | apply keeps_track_allocation; ignored
    | apply keeps_ret
    | apply keeps_gets
    | apply keeps_when
    | apply keeps_bind; [|intros ?]
    | apply keeps_modify; intros ?; reflexivity
    | match goal with
      | |- keeps _ (if ?b then _ else _) => destruct b
      end ].

(** ** The table of live allocations *)

Section Table.
Context {P : Platform}.
Implicit Types (st : AgentState P).

Definition table_of st : list Tracked * Z :=
  (active_allocs st, active_alloc_count st).

(** A computation that keeps the table consistent. *)
Definition preserves_inv {A} (c : M (AgentState P) A) : Prop :=
  forall st, index_inv st -> index_inv (snd (c st)).

Lemma index_inv_table st1 st2 :
  table_of st1 = table_of st2 -> index_inv st2 -> index_inv st1.
Proof.
  unfold table_of, index_inv, snapshot. intros Heq. injection Heq as -> ->. auto.
Qed.

Lemma keeps_preserves {A} (c : M (AgentState P) A) :
  keeps table_of c -> preserves_inv c.
Proof. intros Hc st Hinv. eapply index_inv_table; [apply Hc | exact Hinv]. Qed.

Lemma preserves_bind {A B} (c : M (AgentState P) A) (k : A -> M (AgentState P) B) :
  preserves_inv c -> (forall a, preserves_inv (k a)) -> preserves_inv (bind c k).
Proof.
  intros Hc Hk st Hinv. unfold bind. specialize (Hc st Hinv).
  destruct (c st) as [a st1]. simpl in Hc. now apply Hk.
Qed.

Lemma keeps_is_potentially_leaked {B} (proj : AgentState P -> B) meta :
  ignores_env proj -> keeps proj (is_potentially_leaked meta).
Proof. intros He. unfold is_potentially_leaked, load_field. keeps. Qed.

Lemma keeps_report_leak {B} (proj : AgentState P -> B) meta p :
  ignores_env proj -> ignores_next_event_id proj -> ignores_leak_buffer proj ->
  keeps proj (report_leak meta p).
Proof.
  intros He Hn Hb. unfold report_leak, load_field. keeps.
  apply keeps_modify. intros st. apply Hb.
Qed.

Lemma keeps_scan_from fuel : forall i leaks, keeps table_of (scan_from fuel i leaks).
Proof.
  induction fuel as [|k IH]; intros i leaks; simpl; keeps.
  all: first [ apply IH
             | apply keeps_is_potentially_leaked; ignored
             | apply keeps_report_leak; ignored ].
Qed.

Lemma keeps_scan_pass : keeps table_of scan_pass.
Proof. unfold scan_pass, mapped. keeps. apply keeps_scan_from. Qed.

Lemma keeps_update_allocation_access addr :
  keeps table_of (update_allocation_access addr).
Proof. unfold update_allocation_access. keeps. Qed.

(** *** [track_allocation] *)

Lemma i32_small x : - 2 ^ 31 <= x < 2 ^ 31 -> i32 x = x.
Proof. intros Hx. unfold i32. rewrite Z.mod_small; lia. Qed.

Lemma track_allocation_full st user_ptr meta :
  ~ active_alloc_count st < MAX_TRACKED_ALLOCS ->
  track_allocation user_ptr meta st = (tt, st).
Proof.
  intros Hfull. unfold track_allocation, modify.
  destruct (active_alloc_count st <? MAX_TRACKED_ALLOCS) eqn:E;
    [apply Z.ltb_lt in E; contradiction | reflexivity].
Qed.

Lemma track_allocation_room st user_ptr meta :
  length (active_allocs st) = Z.to_nat MAX_TRACKED_ALLOCS ->
  0 <= active_alloc_count st < MAX_TRACKED_ALLOCS ->
  let st' := snd (track_allocation user_ptr meta st) in
  snapshot st' = snapshot st ++ [{| tr_address := user_ptr; tr_meta := meta |}] /\
  active_alloc_count st' = active_alloc_count st + 1 /\
  length (active_allocs st') = length (active_allocs st).
Proof.
  intros Hlen Hc. unfold track_allocation, modify, snapshot. simpl.
  destruct (active_alloc_count st <? MAX_TRACKED_ALLOCS) eqn:E;
    [|apply Z.ltb_ge in E; lia].
  simpl. unfold MAX_TRACKED_ALLOCS in *.
  rewrite i32_small by lia.
  split; [|split; [reflexivity | apply length_insert]].
  replace (Z.to_nat (active_alloc_count st + 1))
    with (S (Z.to_nat (active_alloc_count st))) by lia.
  erewrite take_S_r by (apply list_lookup_insert_eq; lia).
  rewrite take_insert_ge by lia. reflexivity.
Qed.

(** C6.  On a table with its [MAX_TRACKED_ALLOCS = 10000] slots and a count
    in range, [track_allocation] appends the pair to the used prefix and
    increments the count exactly when the count is below
    [MAX_TRACKED_ALLOCS]; otherwise the whole state is unchanged, so the
    entries already in the table are those the scanner visits: its next
    pass runs as it would have. *)
Theorem track_allocation_bounded st user_ptr meta :
  length (active_allocs st) = Z.to_nat MAX_TRACKED_ALLOCS ->
  0 <= active_alloc_count st <= MAX_TRACKED_ALLOCS ->
  MAX_TRACKED_ALLOCS = 10000 /\
  let st' := snd (track_allocation user_ptr meta st) in
  (active_alloc_count st < MAX_TRACKED_ALLOCS ->
     snapshot st' = snapshot st ++ [{| tr_address := user_ptr; tr_meta := meta |}] /\
     active_alloc_count st' = active_alloc_count st + 1) /\
  (~ active_alloc_count st < MAX_TRACKED_ALLOCS ->
     st' = st /\ snapshot st' = snapshot st /\ scan_pass st' = scan_pass st) /\
  (active_alloc_count st' = active_alloc_count st + 1 <->
     active_alloc_count st < MAX_TRACKED_ALLOCS).
Proof.
  intros Hlen Hc. split; [reflexivity|]. cbv zeta.
  split; [|split].
  - intros Hroom.
    destruct (track_allocation_room st user_ptr meta Hlen ltac:(lia)) as (Hs & Hn & _).
    split; assumption.
  - intros Hfull. rewrite (track_allocation_full st user_ptr meta Hfull).
    simpl. repeat split; reflexivity.
  - split.
    + intros Hinc. destruct (Z.lt_ge_cases (active_alloc_count st) MAX_TRACKED_ALLOCS)
        as [Hlt | Hge]; [exact Hlt|].
      rewrite (track_allocation_full st user_ptr meta) in Hinc by lia.
      simpl in Hinc. lia.
    + intros Hroom.
      apply (track_allocation_room st user_ptr meta Hlen). lia.
Qed.

(** *** [untrack_allocation] *)

Lemma untrack_from_inv user_ptr fuel : forall i st,
  0 <= i -> index_inv st -> index_inv (untrack_from fuel i user_ptr st).
Proof.
  induction fuel as [|k IH]; intros i st Hi Hinv; simpl; [exact Hinv|].
  destruct (i <? active_alloc_count st) eqn:Hlt; [|exact Hinv].
  apply Z.ltb_lt in Hlt.
  destruct (_ =? user_ptr); [|apply IH; [lia | exact Hinv]].
  destruct Hinv as (Hlen & Hc & Hall).
  unfold index_inv, snapshot in *. simpl. unfold MAX_TRACKED_ALLOCS in *.
  rewrite i32_small by lia. rewrite length_insert.
  split; [exact Hlen|]. split; [lia|].
  set (c := active_alloc_count st) in *.
  replace (Z.to_nat (c - 1)) with (Nat.min (Z.to_nat (c - 1)) (Z.to_nat c)) at 1 by lia.
  rewrite <- take_take. apply Forall_take.
  rewrite take_insert_lt by lia.
  apply Forall_insert; [exact Hall|].
  rewrite <- (lookup_total_take_lt _ (Z.to_nat c)) by lia.
  apply Forall_lookup_total_1; [exact Hall|].
  rewrite length_take. lia.
Qed.

Lemma preserves_untrack_allocation user_ptr :
  preserves_inv (untrack_allocation user_ptr).
Proof. intros st Hinv. apply untrack_from_inv; [lia | exact Hinv]. Qed.

(** Registering a user pointer with its own header keeps the table
    consistent. *)
Lemma preserves_track_allocation meta :
  preserves_inv (track_allocation (get_user_ptr_from_meta meta) meta).
Proof.
  intros st Hinv.
  destruct (Z.lt_ge_cases (active_alloc_count st) MAX_TRACKED_ALLOCS) as [Hlt | Hge].
  - destruct Hinv as (Hlen & Hc & Hall).
    destruct (track_allocation_room st (get_user_ptr_from_meta meta) meta Hlen
                ltac:(lia)) as (Hs & Hn & Hl).
    split; [congruence|]. split; [lia|].
    rewrite Hs. apply Forall_app_2; [exact Hall|].
    constructor; [reflexivity | constructor].
  - rewrite track_allocation_full by lia. exact Hinv.
Qed.

(** *** The entry points keep the table consistent *)

Ltac preserves :=
  repeat first
    [ apply preserves_track_allocation
    | apply preserves_untrack_allocation
    | apply keeps_preserves; solve [keeps]
    | apply preserves_bind; [|intros ?]
    | match goal with
      | |- preserves_inv (if ?b then _ else _) => destruct b
      end ].

Lemma preserves_malloc size : preserves_inv (malloc size).
Proof. unfold malloc, load_field, mapped, get_call_site_id, get_thread_id. preserves. Qed.

Lemma preserves_free ptr : preserves_inv (free ptr).
Proof. unfold free, load_field, mapped. preserves. Qed.

Lemma preserves_realloc ptr size : preserves_inv (realloc ptr size).
Proof.
  unfold realloc, load_field.
  repeat first
    [ apply preserves_malloc | apply preserves_free
    | apply keeps_preserves; solve [keeps]
    | apply preserves_bind; [|intros ?]
    | match goal with
      | |- preserves_inv (if ?b then _ else _) => destruct b
      end ].
Qed.

Lemma preserves_calloc nmemb size : preserves_inv (calloc nmemb size).
Proof.
  unfold calloc. apply preserves_bind; [apply preserves_malloc|].
  intros ptr. apply keeps_preserves. keeps.
Qed.

Lemma initial_state_inv m w shm_ok : index_inv (initial_state m w shm_ok).
Proof.
  unfold index_inv, snapshot, initial_state.
  cbn [active_allocs active_alloc_count]. rewrite length_replicate.
  split; [reflexivity|]. split; [unfold MAX_TRACKED_ALLOCS; lia | constructor].
Qed.

Lemma step_inv c st : index_inv st -> index_inv (step c st).
Proof.
  destruct c; simpl.
  - apply preserves_malloc.
  - apply preserves_free.
  - apply preserves_realloc.
  - apply preserves_calloc.
  - apply keeps_preserves, keeps_update_allocation_access.
  - apply keeps_preserves, keeps_scan_pass.
  - intros Hinv. eapply index_inv_table; [|exact Hinv]. reflexivity.
Qed.

(** C10.  In every state the agent reaches from its start-up by calls of
    [malloc], [free], [realloc] and [calloc] (and by passes of the scanner,
    access updates and stores of the program), the table is consistent:
    each entry of the used prefix stores a user pointer equal to its header
    pointer plus [sizeof(AllocationMeta)], and
    [0 <= active_alloc_count <= MAX_TRACKED_ALLOCS]; registering a block
    with its own header and the swap-with-last removal both keep it so. *)
Theorem reachable_index_inv st :
  reachable st ->
  index_inv st /\
  (forall meta,
      index_inv (snd (track_allocation (get_user_ptr_from_meta meta) meta st))) /\
  (forall user_ptr, index_inv (snd (untrack_allocation user_ptr st))).
Proof.
  intros Hreach.
  assert (Hinv : index_inv st).
  { induction Hreach as [m w ok | c st Hreach IH].
    - apply initial_state_inv.
    - apply step_inv, IH. }
  split; [exact Hinv|]. split.
  - intros meta. now apply preserves_track_allocation.
  - intros user_ptr. now apply preserves_untrack_allocation.
Qed.
End Table.

Lemma track_allocation_bounded_witness :
  (active_alloc_count Fixture.started < MAX_TRACKED_ALLOCS ->
   active_alloc_count (snd (track_allocation 0x1024 0x1000 Fixture.started)) = 0 + 1) /\
  (~ active_alloc_count Fixture.full_table < MAX_TRACKED_ALLOCS ->
   snd (track_allocation 0x2024 0x2000 Fixture.full_table) = Fixture.full_table).
Proof.
  split.
  - intros Hroom.
    destruct (track_allocation_bounded Fixture.started 0x1024 0x1000)
      as (_ & Hadd & _); [vm_compute; reflexivity | vm_compute; split; discriminate |].
    exact (proj2 (Hadd Hroom)).
  - intros Hfull.
    destruct (track_allocation_bounded Fixture.full_table 0x2024 0x2000)
      as (_ & _ & Hdrop & _); [vm_compute; reflexivity | vm_compute; split; discriminate |].
    exact (proj1 (Hdrop Hfull)).
Defined.

Lemma reachable_index_inv_witness :
  index_inv (step (CallFree 0x1024) (step (CallMalloc 64) Fixture.started)).
Proof.
  exact (proj1 (reachable_index_inv _
    (reachable_step (CallFree 0x1024) _
       (reachable_step (CallMalloc 64) _ (reachable_init (P := Fixture.bump) ∅ Fixture.arena true))))).
Defined.

(** ** The owned path of [free] *)

Section Free.
Context {P : Platform}.
Implicit Types (st : AgentState P).

Lemma bind_run {A B} (c : M (AgentState P) A) (k : A -> M (AgentState P) B) st :
  bind c k st = k (fst (c st)) (snd (c st)).
Proof. unfold bind. now destruct (c st). Qed.

Lemma keeps_free_event {B} (proj : AgentState P -> B) shm ptr meta sz :
  ignores_env proj -> ignores_next_event_id proj -> ignores_leak_buffer proj ->
  keeps proj
    (when shm (
       run modify (set_leak_buffer (fun b =>
             set_shm_stats (shm_total_allocations b) (u64 (shm_total_frees b + 1))
                           (u64 (current_memory b - sz)) (leak_count b) b)) in
       let* t := load_field 8 meta off_alloc_time in
       let* site := load_field 4 meta off_site_id in
       write_leak_event EVENT_FREE
         (Some {| address := ptr; size := sz; time_ns := t; site_id := site |}))).
Proof.
  intros He Hn Hb. unfold load_field. keeps.
  apply keeps_modify. intros st. apply Hb.
Qed.

Lemma free_ours st ptr :
  ptr <> 0 ->
  is_valid_allocation (mem st) (get_meta_from_user_ptr ptr) = true ->
  let meta := ptr - sizeof_AllocationMeta in
  exists st1,
    free ptr st
    = (tt, set_env (real_free meta (store_le 4 (mem st1) (meta + off_magic) 0) (env st1))
             (set_mem (fun m => store_le 4 m (meta + off_magic) 0) st1)) /\
    mem st1 = mem st /\
    total_allocations st1 = total_allocations st /\
    total_frees st1 = u64 (total_frees st + 1).
Proof.
  intros Hp Hv meta. unfold free.
  destruct (ptr =? 0) eqn:E; [apply Z.eqb_eq in E; contradiction|].
  rewrite bind_run. unfold gets at 1 2. cbn [fst snd]. rewrite Hv. cbn [negb].
  repeat (rewrite bind_run; cbv beta).
  replace (get_meta_from_user_ptr ptr) with meta
    by (unfold get_meta_from_user_ptr; now rewrite E).
  match goal with
  | |- context [snd (when ?b ?c ?s)] =>
      set (shm := b); set (s2 := s); exists (snd (when shm c s2))
  end.
  split; [reflexivity|].
  split; [|split].
  all: rewrite keeps_free_event by ignored; subst s2.
  all: unfold mapped, gets; cbn [snd].
  all: rewrite keeps_untrack_allocation by ignored.
  all: reflexivity.
Qed.

Lemma meta_magic_cleared (m : gmap Z byte) meta :
  meta_magic (store_le 4 m (meta + off_magic) 0) meta = 0.
Proof. unfold meta_magic. rewrite load_le_store_le_same. reflexivity. Qed.

End Free.


(** ** [realloc] of an owned block *)

Section Realloc.
Context {P : Platform}.
Implicit Types (st : AgentState P).

Lemma keeps_store_field_outside n meta off v a :
  a < meta + off \/ meta + off + Z.of_nat n <= a ->
  keeps (fun st => load_byte (mem st) a) (store_field n meta off v).
Proof.
  intros Hout st. unfold store_field, modify. cbn [snd mem set_mem].
  now apply load_byte_store_le_outside.
Qed.

(** A successful [malloc] returns the real block shifted by the header and
    writes only into the header. *)
Lemma malloc_success st size r w :
  size <> 0 ->
  real_malloc (u64 (size + sizeof_AllocationMeta)) (env st) = (r, w) ->
  r <> 0 ->
  fst (malloc size st) = r + sizeof_AllocationMeta /\
  (forall a, a < r \/ r + sizeof_AllocationMeta <= a ->
             load_byte (mem (snd (malloc size st))) a = load_byte (mem st) a).
Proof.
  intros Hs Hr Hr0.
  split; [apply (malloc_result st size r w Hs Hr Hr0)|].
  unfold malloc.
  destruct (size =? 0) eqn:E; [apply Z.eqb_eq in E; contradiction|].
  rewrite bind_run. unfold call_real_malloc. rewrite Hr. cbn [fst snd].
  destruct (r =? 0) eqn:E0; [apply Z.eqb_eq in E0; contradiction|].
  intros a Ha.
  match goal with
  | |- load_byte (mem (snd (?c ?s))) a = _ =>
      assert (Hk : keeps (fun st => load_byte (mem st) a) c)
  end.
  { unfold load_field, mapped, get_call_site_id, get_thread_id. keeps.
    all: apply keeps_store_field_outside.
    all: unfold off_magic, off_size, off_alloc_time, off_last_access,
           off_site_id, off_thread_id, sizeof_AllocationMeta in *; lia. }
  rewrite Hk. reflexivity.
Qed.

Lemma meta_size_nonneg (m : gmap Z byte) meta : 0 <= meta_size m meta.
Proof. unfold meta_size, load_le. apply le_combine_bound. Qed.

(** [realloc] of an owned block, as the sequence it runs. *)
Lemma realloc_sequence st ptr size :
  ptr <> 0 -> size <> 0 ->
  is_valid_allocation (mem st) (get_meta_from_user_ptr ptr) = true ->
  let copy_size := Z.min (meta_size (mem st) (ptr - sizeof_AllocationMeta)) size in
  realloc ptr size st =
  (let (new_ptr, st1) := malloc size st in
   if new_ptr =? 0 then (0, st1)
   else (new_ptr,
         snd (free ptr (set_mem (fun m => memcpy m new_ptr ptr copy_size) st1)))).
Proof.
  intros Hp Hs Hv copy_size. unfold realloc.
  destruct (ptr =? 0) eqn:E; [apply Z.eqb_eq in E; contradiction|].
  destruct (size =? 0) eqn:E1; [apply Z.eqb_eq in E1; contradiction|].
  rewrite bind_run. unfold gets at 1 2. cbn [fst snd]. rewrite Hv. cbn [negb].
  rewrite bind_run. unfold load_field, gets. cbn [fst snd].
  rewrite bind_run. destruct (malloc size st) as [new_ptr st1]. cbn [fst snd].
  destruct (new_ptr =? 0); [reflexivity|].
  replace (get_meta_from_user_ptr ptr) with (ptr - sizeof_AllocationMeta)
    by (unfold get_meta_from_user_ptr; now rewrite E).
  fold (meta_size (mem st) (ptr - sizeof_AllocationMeta)).
  set (old_size := meta_size (mem st) (ptr - sizeof_AllocationMeta)) in *.
  replace (if size <? old_size then size else old_size) with copy_size.
  2:{ subst copy_size. destruct (size <? old_size) eqn:E2;
      [apply Z.ltb_lt in E2 | apply Z.ltb_ge in E2]; lia. }
  rewrite bind_run. unfold modify at 1. cbn [fst snd].
  rewrite bind_run. unfold ret. cbn [fst snd]. reflexivity.
Qed.

(** C7.  For an owned pointer [ptr] and [size > 0], [realloc] asks [malloc]
    for a fresh block.  If the real allocator fails, it returns null and
    the memory is untouched.  Otherwise, with the fresh block clear of the
    old one, it returns the new user pointer; the first
    [min(old_size, size)] bytes of the new block are those of the old one,
    no other byte of the new block's payload is written; the old block is
    released through [free], which leaves its header's magic at 0 and
    hands the old header base to the real [free]. *)
Theorem realloc_owned st ptr size r w :
  ptr <> 0 -> 0 < size ->
  is_valid_allocation (mem st) (get_meta_from_user_ptr ptr) = true ->
  real_malloc (u64 (size + sizeof_AllocationMeta)) (env st) = (r, w) ->
  0 <= r ->
  let old_size := meta_size (mem st) (ptr - sizeof_AllocationMeta) in
  let copy_size := Z.min old_size size in
  let st' := snd (realloc ptr size st) in
  (r = 0 -> fst (realloc ptr size st) = 0 /\ mem st' = mem st) /\
  (r <> 0 ->
   r + sizeof_AllocationMeta + size <= ptr - sizeof_AllocationMeta \/
   ptr + old_size <= r ->
   let new_ptr := r + sizeof_AllocationMeta in
   realloc ptr size st
   = (fst (malloc size st),
      snd (free ptr (set_mem (fun m => memcpy m new_ptr ptr copy_size)
                             (snd (malloc size st))))) /\
   fst (realloc ptr size st) = new_ptr /\
   load_bytes (Z.to_nat copy_size) (mem st') new_ptr
   = load_bytes (Z.to_nat copy_size) (mem st) ptr /\
   (forall a, ~ new_ptr <= a < new_ptr + copy_size ->
              ~ ptr - sizeof_AllocationMeta <= a < ptr - sizeof_AllocationMeta + 4 ->
              load_byte (mem st') a = load_byte (mem (snd (malloc size st))) a) /\
   meta_magic (mem st') (ptr - sizeof_AllocationMeta) = 0 /\
   exists s, env st' = real_free (ptr - sizeof_AllocationMeta) (mem st') (env s)).
Proof.
  intros Hp Hs Hv Hr Hr0 old_size copy_size st'.
  pose proof (realloc_sequence st ptr size Hp ltac:(lia) Hv) as Hre.
  cbv zeta in Hre. fold old_size in Hre. fold copy_size in Hre.
  pose proof (meta_size_nonneg (mem st) (ptr - sizeof_AllocationMeta)) as Hold.
  fold old_size in Hold.
  split.
  - intros ->. subst st'. rewrite Hre.
    rewrite (malloc_fails_eq st size w) by (lia || assumption).
    cbn. split; reflexivity.
  - intros Hrn Hdisj new_ptr.
    destruct (malloc_success st size r w ltac:(lia) Hr Hrn) as (Hq & Hframe).
    fold new_ptr in Hq.
    assert (Hnz : (new_ptr =? 0) = false).
    { apply Z.eqb_neq. subst new_ptr. unfold sizeof_AllocationMeta. lia. }
    destruct (malloc size st) as [q st1] eqn:Hm. cbn [fst snd] in Hq, Hframe |- *.
    subst q. rewrite Hnz in Hre.
    set (st2 := set_mem (fun m => memcpy m new_ptr ptr copy_size) st1) in *.
    set (meta := ptr - sizeof_AllocationMeta) in *.
    assert (Hcopy : 0 <= copy_size <= size /\ copy_size <= old_size)
      by (subst copy_size; lia).
    assert (Hlen : Z.of_nat (length (load_bytes (Z.to_nat copy_size) (mem st1) ptr))
                   = copy_size) by (rewrite length_load_bytes; lia).
    assert (Hmem2 : mem st2 = memcpy (mem st1) new_ptr ptr copy_size) by reflexivity.
    assert (Hmagic2 : meta_magic (mem st2) meta = meta_magic (mem st) meta).
    { unfold meta_magic, load_le. f_equal. apply load_bytes_ext. intros i Hi.
      rewrite Hmem2. unfold memcpy.
      rewrite load_byte_store_bytes_outside
        by (rewrite Hlen; subst new_ptr meta;
            unfold off_magic, sizeof_AllocationMeta in *; lia).
      apply Hframe. subst new_ptr meta.
      unfold off_magic, sizeof_AllocationMeta in *. lia. }
    assert (Hgm : get_meta_from_user_ptr ptr = meta).
    { unfold get_meta_from_user_ptr.
      destruct (ptr =? 0) eqn:E; [apply Z.eqb_eq in E; contradiction | reflexivity]. }
    assert (Hv2 : is_valid_allocation (mem st2) (get_meta_from_user_ptr ptr) = true).
    { rewrite Hgm in *. unfold is_valid_allocation in *. now rewrite Hmagic2. }
    destruct (free_ours st2 ptr Hp Hv2) as (s1 & Hfree & Hmem1 & _).
    fold meta in Hfree.
    assert (Hst' : st' = set_env (real_free meta (store_le 4 (mem s1) (meta + off_magic) 0)
                                    (env s1))
                           (set_mem (fun m => store_le 4 m (meta + off_magic) 0) s1)).
    { subst st'. rewrite Hre. cbn [snd]. now rewrite Hfree. }
    assert (Hmem' : mem st' = store_le 4 (mem st2) (meta + off_magic) 0).
    { rewrite Hst'. cbn [mem set_env set_mem]. now rewrite Hmem1. }
    split; [now rewrite Hre|]. split; [now rewrite Hre|].
    split; [|split; [|split]].
    + rewrite Hmem'. unfold store_le.
      rewrite load_bytes_store_bytes_disjoint
        by (rewrite length_le_split; subst new_ptr meta;
            unfold off_magic, sizeof_AllocationMeta in *; lia).
      rewrite Hmem2. unfold memcpy.
      rewrite <- (length_load_bytes (Z.to_nat copy_size) (mem st1) ptr) at 1.
      rewrite load_bytes_store_bytes_same.
      apply load_bytes_ext. intros i Hi. apply Hframe.
      subst new_ptr meta. unfold sizeof_AllocationMeta in *. lia.
    + intros a Hnew Hhdr. rewrite Hmem'.
      rewrite load_byte_store_le_outside by (unfold off_magic; lia).
      rewrite Hmem2. unfold memcpy.
      apply load_byte_store_bytes_outside. rewrite Hlen. lia.
    + rewrite Hmem'. apply meta_magic_cleared.
    + exists s1. rewrite Hst'. reflexivity.
Qed.
End Realloc.

Lemma realloc_owned_witness :
  0x1024 <> 0 /\ 0 < 64 /\
  fst (realloc 0x1024 64 Fixture.one_block) = 0x1034 + sizeof_AllocationMeta /\
  meta_magic (mem (snd (realloc 0x1024 64 Fixture.one_block)))
             (0x1024 - sizeof_AllocationMeta) = 0.
Proof.
  split; [lia|]. split; [lia|].
  destruct (realloc_owned Fixture.one_block 0x1024 64 0x1034
              (snd (real_malloc (u64 (64 + sizeof_AllocationMeta))
                      (env Fixture.one_block))))
    as (_ & Hok); [lia | lia | vm_compute; reflexivity | vm_compute; reflexivity | lia |].
  destruct Hok as (_ & Hptr & _ & _ & Hmagic & _);
    [lia | right; vm_compute; discriminate |].
  split; [exact Hptr | exact Hmagic].
Defined.

(** ** Running a computation step by step

    [wp c Q st]: the result and the final state of [c] run from [st] satisfy
    [Q].  The rules below take a computation apart along its structure; the
    platform's answers are named, everything else is computed. *)

Section Wp.
Context {P : Platform}.
Implicit Types (st : AgentState P).

Definition wp {A} (c : M (AgentState P) A) (Q : A -> AgentState P -> Prop) st : Prop :=
  Q (fst (c st)) (snd (c st)).

Lemma wp_bind {A B} (c : M (AgentState P) A) (k : A -> M (AgentState P) B) Q st :
  wp c (fun a s => wp (k a) Q s) st -> wp (bind c k) Q st.
Proof. unfold wp, bind. now destruct (c st). Qed.

Lemma wp_ret {A} (a : A) (Q : A -> AgentState P -> Prop) st : Q a st -> wp (ret a) Q st.
Proof. auto. Qed.

Lemma wp_gets {A} (f : AgentState P -> A) (Q : A -> AgentState P -> Prop) st :
  Q (f st) st -> wp (gets f) Q st.
Proof. auto. Qed.

Lemma wp_modify f (Q : unit -> AgentState P -> Prop) st :
  Q tt (f st) -> wp (modify f) Q st.
Proof. auto. Qed.

Lemma wp_when b c (Q : unit -> AgentState P -> Prop) st :
  (b = true -> wp c Q st) -> (b = false -> Q tt st) -> wp (when b c) Q st.
Proof. intros H1 H2. destruct b; [now apply H1 | now apply H2]. Qed.

Lemma wp_get_timestamp_ns (Q : Z -> AgentState P -> Prop) st :
  (forall tv_sec tv_nsec w,
      clock_gettime (env st) = ((tv_sec, tv_nsec), w) ->
      Q (u64 (tv_sec * 1000000000 + tv_nsec)) (set_env w st)) ->
  wp get_timestamp_ns Q st.
Proof.
  intros H. unfold wp, get_timestamp_ns.
  destruct (clock_gettime (env st)) as [[s ns] w] eqn:E. now apply H.
Qed.

Lemma wp_call_real_malloc n (Q : Z -> AgentState P -> Prop) st :
  (forall r w, real_malloc n (env st) = (r, w) -> Q r (set_env w st)) ->
  wp (call_real_malloc n) Q st.
Proof.
  intros H. unfold wp, call_real_malloc.
  destruct (real_malloc n (env st)) as [r w] eqn:E. now apply H.
Qed.

Lemma wp_call_real_realloc p n (Q : Z -> AgentState P -> Prop) st :
  (forall q m w, real_realloc p n (mem st) (env st) = (q, m, w) ->
                 Q q (set_env w (set_mem (fun _ => m) st))) ->
  wp (call_real_realloc p n) Q st.
Proof.
  intros H. unfold wp, call_real_realloc.
  destruct (real_realloc p n (mem st) (env st)) as [[q m] w] eqn:E. now apply H.
Qed.

Lemma wp_track_allocation user_ptr meta (Q : unit -> AgentState P -> Prop) st :
  (active_alloc_count st < MAX_TRACKED_ALLOCS ->
   Q tt (set_active
           (<[Z.to_nat (active_alloc_count st) :=
                {| tr_address := user_ptr; tr_meta := meta |}]> (active_allocs st))
           (i32 (active_alloc_count st + 1)) st)) ->
  (~ active_alloc_count st < MAX_TRACKED_ALLOCS -> Q tt st) ->
  wp (track_allocation user_ptr meta) Q st.
Proof.
  intros Hroom Hfull. unfold wp, track_allocation, modify. cbn [fst snd].
  destruct (active_alloc_count st <? MAX_TRACKED_ALLOCS) eqn:E.
  - apply Hroom. now apply Z.ltb_lt.
  - apply Hfull. apply Z.ltb_ge in E. lia.
Qed.

Lemma wp_untrack_allocation user_ptr (Q : unit -> AgentState P -> Prop) st :
  (forall l n,
      untrack_from (Z.to_nat (active_alloc_count st)) 0 user_ptr st = set_active l n st ->
      Q tt (set_active l n st)) ->
  wp (untrack_allocation user_ptr) Q st.
Proof.
  intros H. unfold wp, untrack_allocation, modify. cbn [fst snd].
  destruct (untrack_from_set_active user_ptr
              (Z.to_nat (active_alloc_count st)) 0 st) as (l & n & E).
  rewrite E. now apply H.
Qed.

(** The event [write_leak_event] builds from the state it is called in and
    the platform's answers. *)
Definition built_event st (event_type : Z) (d : option EventData) (ts : Z) (w : world)
  : LeakEvent :=
  {| event_id := i32 (next_event_id st); event_type := i32 event_type;
     timestamp := ts; thread_id := u32 (pthread_self w);
     data := default zero_data d; is_valid := 1 |}.

(** The buffer after the publication of [ev]. *)
Definition published (ev : LeakEvent) (b : LeakDetectionBuffer) : LeakDetectionBuffer :=
  exec_ops [StoreSlot (Z.rem (write_index b) LEAK_BUFFER_SIZE) ev; IncWriteIndex] b.

Lemma wp_write_leak_event event_type d (Q : unit -> AgentState P -> Prop) st :
  (leak_buffer st = None -> Q tt st) ->
  (forall b tv_sec tv_nsec w,
      leak_buffer st = Some b ->
      clock_gettime (env st) = ((tv_sec, tv_nsec), w) ->
      Q tt (set_leak_buffer
              (fun _ => published
                 (built_event st event_type d (u64 (tv_sec * 1000000000 + tv_nsec)) w) b)
              (set_env w (set_next_event_id (u32 (next_event_id st + 1)) st)))) ->
  wp (write_leak_event event_type d) Q st.
Proof.
  intros Hnone Hsome. unfold wp, write_leak_event, write_leak_event_ops, bind, modify.
  destruct (leak_buffer st) as [b|] eqn:Hb.
  - unfold get_timestamp_ns. cbn [env set_next_event_id].
    destruct (clock_gettime (env st)) as [[s ns] w] eqn:Hc. cbn [fst snd].
    specialize (Hsome b s ns w eq_refl eq_refl).
    unfold set_leak_buffer in *. cbn [leak_buffer set_env set_next_event_id] in *.
    rewrite Hb in *. exact Hsome.
  - cbn [fst snd]. unfold set_leak_buffer. rewrite Hb.
    specialize (Hnone eq_refl). destruct st. cbn in Hb |- *. subst. exact Hnone.
Qed.

Lemma wp_elim {A} (c : M (AgentState P) A) (Q : A -> AgentState P -> Prop) st :
  wp c Q st -> Q (fst (c st)) (snd (c st)).
Proof. auto. Qed.

Lemma wp_elim_state {A} (c : M (AgentState P) A) (Q : AgentState P -> Prop) st :
  wp c (fun _ s => Q s) st -> Q (snd (c st)).
Proof. auto. Qed.

Lemma wp_conseq {A} (c : M (AgentState P) A) (Q Q' : A -> AgentState P -> Prop) st :
  wp c Q st -> (forall a s, Q a s -> Q' a s) -> wp c Q' st.
Proof. unfold wp. auto. Qed.
End Wp.

Ltac proj_simpl :=
  cbn [fst snd mem env leak_buffer next_event_id staleness_threshold_ns
       total_allocations total_frees current_memory_usage active_allocs
       active_alloc_count set_mem set_env set_leak_buffer set_next_event_id
       set_stats set_active fmap option_fmap option_map] in *.

Section WpMore.
Context {P : Platform}.
Implicit Types (st : AgentState P).

Lemma wp_mapped (Q : bool -> AgentState P -> Prop) st :
  (forall b, leak_buffer st = Some b -> Q true st) ->
  (leak_buffer st = None -> Q false st) ->
  wp mapped Q st.
Proof.
  intros Hsome Hnone. unfold wp, mapped, gets. cbn [fst snd].
  destruct (leak_buffer st) as [b|] eqn:Hb.
  - now apply (Hsome b).
  - now apply Hnone.
Qed.

Lemma wp_get_timestamp_ns_eq (Q : Z -> AgentState P -> Prop) st tv_sec tv_nsec w :
  clock_gettime (env st) = ((tv_sec, tv_nsec), w) ->
  Q (u64 (tv_sec * 1000000000 + tv_nsec)) (set_env w st) ->
  wp get_timestamp_ns Q st.
Proof.
  intros Hc HQ. apply wp_get_timestamp_ns. intros s ns w' Hc'.
  rewrite Hc in Hc'. now inversion Hc'; subst.
Qed.

Lemma wp_call_real_malloc_eq n (Q : Z -> AgentState P -> Prop) st r w :
  real_malloc n (env st) = (r, w) -> Q r (set_env w st) ->
  wp (call_real_malloc n) Q st.
Proof.
  intros Hr HQ. apply wp_call_real_malloc. intros r' w' Hr'.
  rewrite Hr in Hr'. now inversion Hr'; subst.
Qed.

Lemma wp_when_true c (Q : unit -> AgentState P -> Prop) st :
  wp c Q st -> wp (when true c) Q st.
Proof. auto. Qed.

Lemma wp_when_false c (Q : unit -> AgentState P -> Prop) st :
  Q tt st -> wp (when false c) Q st.
Proof. auto. Qed.
End WpMore.

(** One step of a run: the rule for the head of the computation. *)
Ltac wp_step :=
  lazymatch goal with
  | |- wp get_timestamp_ns _ _ =>
      first [ eapply wp_get_timestamp_ns_eq; [eassumption|]
            | apply wp_get_timestamp_ns; intros ? ? ? ? ]
  | |- wp (call_real_malloc _) _ _ =>
      first [ eapply wp_call_real_malloc_eq; [eassumption|]
            | apply wp_call_real_malloc; intros ? ? ? ]
  | |- wp (call_real_realloc _ _) _ _ => apply wp_call_real_realloc; intros ? ? ? ?
  | |- wp (call_real_free _) _ _ => apply wp_modify
  | |- wp (track_allocation _ _) _ _ => apply wp_track_allocation; intros ?
  | |- wp (untrack_allocation _) _ _ => apply wp_untrack_allocation; intros ? ? ?
  | |- wp (write_leak_event _ _) _ _ =>
      apply wp_write_leak_event; [intros ? | intros ? ? ? ? ? ?]
  | |- wp (store_field _ _ _ _) _ _ => apply wp_modify
  | |- wp (load_field _ _ _) _ _ => apply wp_gets
  | |- wp get_call_site_id _ _ => apply wp_gets
  | |- wp get_thread_id _ _ => apply wp_gets
  | |- wp mapped _ _ => apply wp_mapped; [intros ? ? | intros ?]
  | |- wp (ret _) _ _ => apply wp_ret
  | |- wp (gets _) _ _ => apply wp_gets
  | |- wp (modify _) _ _ => apply wp_modify
  | |- wp (when true _) _ _ => apply wp_when_true
  | |- wp (when false _) _ _ => apply wp_when_false
  | |- wp (when _ _) _ _ => apply wp_when; intros ?
  | |- wp (bind _ _) _ _ => apply wp_bind
  end;
  proj_simpl;
  repeat match goal with
         | H : leak_buffer ?s = _ |- context [leak_buffer ?s] => rewrite H
         | H : leak_buffer ?s = _, H' : context [leak_buffer ?s] |- _ =>
             lazymatch H' with H => fail | _ => rewrite H in H' end
         end;
  proj_simpl;
  try discriminate.

(** Turns a goal about the final state of [c st] into a run of [c]. *)
Ltac run_of c st :=
  pattern (snd (c st)); apply (wp_elim_state c).

Ltac platform_eq :=
  repeat match goal with
         | H1 : ?f = (_, _), H2 : ?f = (_, _) |- _ =>
             rewrite H1 in H2; inversion H2; subst; clear H2
         end.

Ltac fields :=
  unfold meta_magic, meta_size, meta_alloc_time, meta_last_access, meta_site_id,
    meta_thread_id, store_field, load_field.

Ltac offsets :=
  unfold off_magic, off_size, off_alloc_time, off_last_access, off_site_id,
    off_thread_id, sizeof_AllocationMeta in *.

(** Reads a field back through the stores that followed it. *)
Ltac mem_simpl :=
  repeat first
    [ rewrite load_le_store_le_same
    | rewrite load_le_store_le_disjoint by (offsets; lia) ].

Section MallocRuns.
Context {P : Platform}.
Implicit Types (st : AgentState P).

Lemma u64_range x : 0 <= u64 x < 2 ^ 64.
Proof. unfold u64. apply Z.mod_pos_bound. lia. Qed.

Lemma u32_range x : 0 <= u32 x < 2 ^ 32.
Proof. unfold u32. apply Z.mod_pos_bound. lia. Qed.

Lemma call_site_range x : 0 <= Z.land x 0xFFFF < 2 ^ 16.
Proof.
  split.
  - apply Z.land_nonneg. right. lia.
  - change 0xFFFF with (Z.ones 16). rewrite Z.land_ones by lia.
    apply Z.mod_pos_bound. lia.
Qed.

(** The bytes of a block's header as [malloc] leaves them. *)
Definition installed_header (m : gmap Z byte) (r size now site tid : Z) : gmap Z byte :=
  let m1 := store_le 4 m (r + off_magic) ALLOC_MAGIC in
  let m2 := store_le 8 m1 (r + off_size) size in
  let m3 := store_le 8 m2 (r + off_alloc_time) now in
  let m4 := store_le 8 m3 (r + off_last_access) (load_le 8 m3 (r + off_alloc_time)) in
  let m5 := store_le 4 m4 (r + off_site_id) site in
  store_le 4 m5 (r + off_thread_id) tid.

Definition site_of (w : world) : Z :=
  Z.land (u32 (Z.shiftr (u64 (builtin_return_address w)) 4)) 0xFFFF.

Lemma malloc_mem st size r w tv_sec tv_nsec w1 :
  size <> 0 ->
  real_malloc (u64 (size + sizeof_AllocationMeta)) (env st) = (r, w) ->
  r <> 0 ->
  clock_gettime w = ((tv_sec, tv_nsec), w1) ->
  mem (snd (malloc size st))
  = installed_header (mem st) r size (u64 (tv_sec * 1000000000 + tv_nsec))
      (site_of w1) (u32 (pthread_self w1)).
Proof.
  intros Hs Hr Hr0 Hc.
  apply (wp_elim (malloc size) (fun _ s => mem s = _)).
  unfold malloc. destruct (size =? 0) eqn:E; [apply Z.eqb_eq in E; contradiction|].
  wp_step. wp_step.
  destruct (r =? 0) eqn:E0; [apply Z.eqb_eq in E0; contradiction|].
  repeat wp_step; reflexivity.
Qed.

Lemma installed_header_fields (m : gmap Z byte) r size now site tid :
  let m' := installed_header m r size now site tid in
  meta_magic m' r = ALLOC_MAGIC /\
  meta_size m' r = u64 size /\
  meta_alloc_time m' r = u64 now /\
  meta_last_access m' r = u64 now /\
  meta_site_id m' r = u32 site /\
  meta_thread_id m' r = u32 tid.
Proof.
  unfold installed_header. fields. cbv zeta. mem_simpl.
  change (Z.of_nat 4 * 8) with 32. change (Z.of_nat 8 * 8) with 64.
  fold (u64 size) (u64 now) (u32 site) (u32 tid).
  repeat split; try reflexivity.
  unfold u64. now rewrite Zmod_mod.
Qed.

Lemma u64_idem x : u64 (u64 x) = u64 x.
Proof. unfold u64. now rewrite Zmod_mod. Qed.

Lemma u32_idem x : u32 (u32 x) = u32 x.
Proof. unfold u32. now rewrite Zmod_mod. Qed.

Lemma get_meta_of_user r :
  0 < r -> get_meta_from_user_ptr (get_user_ptr_from_meta r) = r.
Proof.
  intros Hr. unfold get_meta_from_user_ptr, get_user_ptr_from_meta. offsets.
  destruct (r + 36 =? 0) eqn:E; [apply Z.eqb_eq in E; lia | lia].
Qed.

(** A successful [malloc] leaves a complete header in front of the pointer
    it returns: the magic, the requested size, the time of the allocation
    (also as the last access), a 16-bit call-site fingerprint and the thread;
    the returned pointer is recognised as ours. *)
Theorem malloc_installs_header st size r w tv_sec tv_nsec w1 :
  size <> 0 ->
  real_malloc (u64 (size + sizeof_AllocationMeta)) (env st) = (r, w) ->
  0 < r ->
  clock_gettime w = ((tv_sec, tv_nsec), w1) ->
  let m' := mem (snd (malloc size st)) in
  meta_magic m' r = ALLOC_MAGIC /\
  meta_size m' r = u64 size /\
  meta_alloc_time m' r = u64 (tv_sec * 1000000000 + tv_nsec) /\
  meta_last_access m' r = meta_alloc_time m' r /\
  meta_site_id m' r = site_of w1 /\
  meta_site_id m' r < 2 ^ 16 /\
  meta_thread_id m' r = u32 (pthread_self w1) /\
  is_valid_allocation m' (get_meta_from_user_ptr (fst (malloc size st))) = true.
Proof.
  intros Hs Hr Hr0 Hc m'. subst m'.
  rewrite (malloc_result st size r w Hs Hr ltac:(lia)), (get_meta_of_user r Hr0).
  rewrite (malloc_mem st size r w tv_sec tv_nsec w1 Hs Hr ltac:(lia) Hc).
  destruct (installed_header_fields (mem st) r size
              (u64 (tv_sec * 1000000000 + tv_nsec)) (site_of w1) (u32 (pthread_self w1)))
    as (Hmagic & Hsize & Htime & Hlast & Hsite & Htid).
  pose proof (call_site_range (u32 (Z.shiftr (u64 (builtin_return_address w1)) 4)))
    as Hrange. fold (site_of w1) in Hrange.
  rewrite u64_idem in Htime, Hlast. rewrite u32_idem in Htid.
  assert (Hsite' : u32 (site_of w1) = site_of w1)
    by (unfold u32; apply Z.mod_small; lia).
  rewrite Hsite' in Hsite.
  unfold is_valid_allocation. rewrite Hmagic, Hsize, Htime, Hlast, Hsite, Htid.
  repeat split; try reflexivity; try lia.
Qed.
End MallocRuns.

Section Accounting.
Context {P : Platform}.
Implicit Types (st : AgentState P).

Lemma published_spec ev (b : LeakDetectionBuffer) :
  write_index (published ev b) = i32 (write_index b + 1) /\
  read_index (published ev b) = read_index b /\
  shm_total_allocations (published ev b) = shm_total_allocations b /\
  shm_total_frees (published ev b) = shm_total_frees b /\
  current_memory (published ev b) = current_memory b /\
  leak_count (published ev b) = leak_count b /\
  length (events (published ev b)) = length (events b) /\
  (0 <= write_index b ->
   events (published ev b)
   = <[Z.to_nat (write_index b mod LEAK_BUFFER_SIZE) := ev]> (events b)).
Proof.
  unfold published, exec_ops. cbn [fold_left exec_op].
  destruct (0 <=? Z.rem (write_index b) LEAK_BUFFER_SIZE) eqn:E;
    cbn [ring_write_index ring_set_write_index ring_slots ring_set_slots
         LeakDetectionBuffer_layout write_index read_index shm_total_allocations
         shm_total_frees current_memory leak_count events].
  - repeat split; try reflexivity; [apply length_insert|].
    intros Hw. rewrite Z.rem_mod_nonneg by (unfold LEAK_BUFFER_SIZE; lia). reflexivity.
  - repeat split; try reflexivity.
    intros Hw. apply Z.leb_gt in E.
    pose proof (Z.rem_nonneg (write_index b) LEAK_BUFFER_SIZE) as Hn.
    unfold LEAK_BUFFER_SIZE in *. lia.
Qed.

(** Everything a successful [malloc] does outside the memory. *)
Lemma malloc_run_spec st size r w :
  size <> 0 ->
  real_malloc (u64 (size + sizeof_AllocationMeta)) (env st) = (r, w) ->
  r <> 0 ->
  let st' := snd (malloc size st) in
  total_allocations st' = u64 (total_allocations st + 1) /\
  total_frees st' = total_frees st /\
  current_memory_usage st' = u64 (current_memory_usage st + size) /\
  staleness_threshold_ns st' = staleness_threshold_ns st /\
  match leak_buffer st with
  | None => leak_buffer st' = None /\ next_event_id st' = next_event_id st
  | Some b =>
      exists b' ev,
        leak_buffer st' = Some b' /\
        next_event_id st' = u32 (next_event_id st + 1) /\
        shm_total_allocations b' = u64 (shm_total_allocations b + 1) /\
        shm_total_frees b' = shm_total_frees b /\
        current_memory b' = u64 (current_memory b + size) /\
        leak_count b' = leak_count b /\
        write_index b' = i32 (write_index b + 1) /\
        length (events b') = length (events b) /\
        (0 <= write_index b ->
         events b' = <[Z.to_nat (write_index b mod LEAK_BUFFER_SIZE) := ev]> (events b)) /\
        event_id ev = i32 (next_event_id st) /\
        event_type ev = EVENT_MALLOC /\
        is_valid ev = 1 /\
        address (data ev) = r + sizeof_AllocationMeta /\
        Advanced.size (data ev) = size /\
        time_ns (data ev) = meta_alloc_time (mem st') r /\
        site_id (data ev) = meta_site_id (mem st') r
  end.
Proof.
  intros Hs Hr Hr0 st'. subst st'.
  run_of (malloc size) st.
  unfold malloc. destruct (size =? 0) eqn:E; [apply Z.eqb_eq in E; contradiction|].
  wp_step. wp_step.
  destruct (r =? 0) eqn:E0; [apply Z.eqb_eq in E0; contradiction|].
  repeat wp_step.
  all: repeat (split; [reflexivity|]); try (split; reflexivity).
  all: match goal with H : Some _ = Some _ |- _ => injection H as <- end.
  all: eexists _, _; split; [reflexivity|]; split; [reflexivity|].
  all: match goal with
       | |- context [published ?ev ?b0] =>
           destruct (published_spec ev b0) as (Hw & _ & Ha & Hf & Hc & Hl & Hlen & Hev);
           rewrite Ha, Hf, Hc, Hl, Hw, Hlen
       end.
  all: cbn [set_shm_stats write_index shm_total_allocations shm_total_frees
            current_memory leak_count events] in *.
  all: repeat (split; [reflexivity|]).
  all: split; [exact Hev|].
  all: cbn [built_event event_id event_type is_valid data default address
            Advanced.size time_ns site_id next_event_id set_leak_buffer set_stats
            set_active set_mem set_env].
  all: repeat split; reflexivity.
Qed.
End Accounting.

(** ** Removal from the table *)

Section Untrack.
Context {P : Platform}.
Implicit Types (st : AgentState P).

(** No entry from index [k] up to the count has the address: the loop runs
    out without changing anything. *)
Lemma untrack_from_absent user_ptr fuel : forall k st,
  0 <= k ->
  (forall j, k <= j < active_alloc_count st ->
             tr_address (active_allocs st !!! Z.to_nat j) <> user_ptr) ->
  untrack_from fuel k user_ptr st = st.
Proof.
  induction fuel as [|fuel IH]; intros k st Hk Habs; simpl; [reflexivity|].
  destruct (k <? active_alloc_count st) eqn:Hlt; [|reflexivity].
  apply Z.ltb_lt in Hlt.
  destruct (_ =? user_ptr) eqn:Heq.
  - apply Z.eqb_eq in Heq. exfalso. apply (Habs k); [lia | exact Heq].
  - apply IH; [lia|]. intros j Hj. apply Habs. lia.
Qed.

(** The first entry with the address is at index [i]: it is overwritten with
    the last used entry and the count goes down by one. *)
Lemma untrack_from_first user_ptr i fuel : forall k st,
  0 <= k <= i -> i < active_alloc_count st ->
  (Z.to_nat (i - k) < fuel)%nat ->
  (forall j, k <= j < i -> tr_address (active_allocs st !!! Z.to_nat j) <> user_ptr) ->
  tr_address (active_allocs st !!! Z.to_nat i) = user_ptr ->
  untrack_from fuel k user_ptr st
  = set_active
      (<[Z.to_nat i := active_allocs st !!! Z.to_nat (active_alloc_count st - 1)]>
         (active_allocs st))
      (i32 (active_alloc_count st - 1)) st.
Proof.
  induction fuel as [|fuel IH]; intros k st Hk Hi Hfuel Hbefore Hat; [lia|].
  simpl.
  destruct (k <? active_alloc_count st) eqn:Hlt; [|apply Z.ltb_ge in Hlt; lia].
  destruct (Z.eq_dec k i) as [-> | Hne].
  - rewrite Hat, Z.eqb_refl. reflexivity.
  - destruct (_ =? user_ptr) eqn:Heq.
    + apply Z.eqb_eq in Heq. exfalso. apply (Hbefore k); [lia | exact Heq].
    + apply IH; try lia. intros j Hj. apply Hbefore. lia.
Qed.

(** The table has its slots and the count is within them. *)
Definition table_shape st : Prop :=
  length (active_allocs st) = Z.to_nat MAX_TRACKED_ALLOCS /\
  0 <= active_alloc_count st <= MAX_TRACKED_ALLOCS.

Lemma index_inv_shape st : index_inv st -> table_shape st.
Proof. intros (Hlen & Hc & _). now split. Qed.

Lemma snapshot_lookup st (j : nat) :
  table_shape st -> (Z.of_nat j < active_alloc_count st) ->
  snapshot st !! j = Some (active_allocs st !!! j).
Proof.
  intros (Hlen & Hc) Hj. unfold snapshot, MAX_TRACKED_ALLOCS in *.
  rewrite lookup_take_lt by lia.
  apply list_lookup_lookup_total_lt. lia.
Qed.

Lemma snapshot_length st :
  table_shape st -> length (snapshot st) = Z.to_nat (active_alloc_count st).
Proof.
  intros (Hlen & Hc). unfold snapshot, MAX_TRACKED_ALLOCS in *.
  rewrite length_take. lia.
Qed.

Lemma untrack_absent_shape st user_ptr :
  table_shape st ->
  (forall e, e ∈ snapshot st -> tr_address e <> user_ptr) ->
  untrack_allocation user_ptr st = (tt, st).
Proof.
  intros Hsh Habs. unfold untrack_allocation, modify. f_equal.
  apply untrack_from_absent; [lia|].
  intros j Hj. apply Habs.
  apply list_elem_of_lookup. exists (Z.to_nat j).
  apply snapshot_lookup; [exact Hsh | lia].
Qed.

Lemma untrack_allocation_run st user_ptr (i : nat) e :
  table_shape st ->
  snapshot st !! i = Some e ->
  tr_address e = user_ptr ->
  (forall j e', (j < i)%nat -> snapshot st !! j = Some e' -> tr_address e' <> user_ptr) ->
  snd (untrack_allocation user_ptr st)
  = set_active
      (<[i := active_allocs st !!! Z.to_nat (active_alloc_count st - 1)]>
         (active_allocs st))
      (active_alloc_count st - 1) st.
Proof.
  intros Hsh Hi He Hbefore.
  pose proof Hsh as (Hlen & Hc).
  pose proof (snapshot_length st Hsh) as Hsl.
  assert (Hic : (i < Z.to_nat (active_alloc_count st))%nat).
  { rewrite <- Hsl. eapply lookup_lt_Some, Hi. }
  unfold untrack_allocation, modify. cbn [snd].
  rewrite (untrack_from_first user_ptr (Z.of_nat i)); try lia.
  - rewrite Nat2Z.id, i32_small; [reflexivity|]. unfold MAX_TRACKED_ALLOCS in *. lia.
  - intros j Hj.
    apply (Hbefore (Z.to_nat j) (active_allocs st !!! Z.to_nat j)); [lia|].
    apply snapshot_lookup; [exact Hsh | lia].
  - rewrite Nat2Z.id.
    rewrite (snapshot_lookup st i Hsh ltac:(lia)) in Hi. now inversion Hi; subst.
Qed.

Lemma track_untrack_restores st user_ptr meta :
  table_shape st ->
  (forall e, e ∈ snapshot st -> tr_address e <> user_ptr) ->
  let st' := snd (untrack_allocation user_ptr
                    (snd (track_allocation user_ptr meta st))) in
  snapshot st' = snapshot st /\
  active_alloc_count st' = active_alloc_count st.
Proof.
  intros Hsh Habs st'.
  pose proof Hsh as (Hlen & Hc).
  destruct (Z.lt_ge_cases (active_alloc_count st) MAX_TRACKED_ALLOCS) as [Hlt | Hge].
  - set (st1 := snd (track_allocation user_ptr meta st)) in *.
    destruct (track_allocation_room st user_ptr meta Hlen ltac:(lia))
      as (Hs1 & Hn1 & Hl1). fold st1 in Hs1, Hn1, Hl1.
    assert (Hsh1 : table_shape st1) by (split; [congruence | lia]).
    pose proof (snapshot_length st Hsh) as Hsl.
    set (c := Z.to_nat (active_alloc_count st)) in *.
    assert (Hrun : st' = set_active
              (<[c := active_allocs st1 !!! Z.to_nat (active_alloc_count st1 - 1)]>
                 (active_allocs st1))
              (active_alloc_count st1 - 1) st1).
    { subst st'. eapply (untrack_allocation_run st1 user_ptr c); [exact Hsh1 | | |].
      - rewrite Hs1. rewrite lookup_app_r by lia.
        replace (c - length (snapshot st))%nat with 0%nat by lia. reflexivity.
      - reflexivity.
      - intros j e' Hj He'. rewrite Hs1, lookup_app_l in He' by lia.
        apply Habs. eapply list_elem_of_lookup_2, He'. }
    rewrite Hrun. unfold snapshot at 1. cbn [active_alloc_count active_allocs set_active].
    rewrite Hn1. split; [|lia].
    replace (Z.to_nat (active_alloc_count st + 1 - 1)) with c by lia.
    rewrite take_insert_ge by lia.
    transitivity (take c (snapshot st1)).
    + unfold snapshot. rewrite take_take. f_equal. lia.
    + rewrite Hs1, take_app_le by lia. apply take_ge. lia.
  - subst st'. rewrite track_allocation_full by lia. cbn [snd].
    rewrite untrack_absent_shape by assumption. now split.
Qed.
(** Removing an address the used prefix does not hold changes nothing. *)
Theorem untrack_allocation_absent st user_ptr :
  index_inv st ->
  (forall e, e ∈ snapshot st -> tr_address e <> user_ptr) ->
  untrack_allocation user_ptr st = (tt, st).
Proof. intros Hinv. apply untrack_absent_shape, index_inv_shape, Hinv. Qed.

(** When the first entry of the used prefix with the address is at index
    [i], removal decrements the count, moves the last used entry into slot
    [i] and leaves every other slot alone; no other entry is lost, and
    nothing but the table changes. *)
Theorem untrack_allocation_present st user_ptr (i : nat) e :
  index_inv st ->
  snapshot st !! i = Some e ->
  tr_address e = user_ptr ->
  (forall j e', (j < i)%nat -> snapshot st !! j = Some e' -> tr_address e' <> user_ptr) ->
  let st' := snd (untrack_allocation user_ptr st) in
  let last := Z.to_nat (active_alloc_count st - 1) in
  active_alloc_count st' = active_alloc_count st - 1 /\
  index_inv st' /\
  (i <> last -> snapshot st' !! i = snapshot st !! last) /\
  (forall j, j <> i -> (j < last)%nat -> snapshot st' !! j = snapshot st !! j) /\
  (forall j e', j <> i -> snapshot st !! j = Some e' -> e' ∈ snapshot st') /\
  mem st' = mem st /\ leak_buffer st' = leak_buffer st /\
  total_frees st' = total_frees st.
Proof.
  intros Hinv Hi He Hbefore st' last.
  pose proof (index_inv_shape st Hinv) as Hsh.
  pose proof Hsh as (Hlen & Hc).
  pose proof (snapshot_length st Hsh) as Hsl.
  assert (Hic : (i < Z.to_nat (active_alloc_count st))%nat).
  { rewrite <- Hsl. eapply lookup_lt_Some, Hi. }
  assert (Hrun : st' = set_active
            (<[i := active_allocs st !!! last]> (active_allocs st))
            (active_alloc_count st - 1) st).
  { subst st' last. eapply untrack_allocation_run; eassumption. }
  assert (Hinv' : index_inv st').
  { subst st'. now apply preserves_untrack_allocation. }
  unfold MAX_TRACKED_ALLOCS in *.
  assert (Hcount : active_alloc_count st' = active_alloc_count st - 1).
  { rewrite Hrun. reflexivity. }
  assert (Hlook : forall j, (j < last)%nat ->
            snapshot st' !! j
            = (<[i := active_allocs st !!! last]> (active_allocs st)) !! j).
  { intros j Hj. unfold snapshot at 1. rewrite Hcount. fold last.
    rewrite lookup_take_lt by lia. rewrite Hrun. reflexivity. }
  assert (Hlast : snapshot st !! last = Some (active_allocs st !!! last)).
  { apply snapshot_lookup; [exact Hsh | subst last; lia]. }
  split; [exact Hcount|]. split; [exact Hinv'|].
  split; [|split; [|split]].
  - intros Hne. rewrite Hlook by (subst last; lia).
    rewrite list_lookup_insert_eq by lia. now rewrite Hlast.
  - intros j Hne Hj. rewrite Hlook by exact Hj.
    rewrite list_lookup_insert_ne by lia.
    unfold snapshot. rewrite lookup_take_lt by (subst last; lia). reflexivity.
  - intros j e' Hne Hj.
    assert (Hjc : (j < Z.to_nat (active_alloc_count st))%nat).
    { rewrite <- Hsl. eapply lookup_lt_Some, Hj. }
    apply list_elem_of_lookup.
    destruct (decide (j = last)) as [-> | Hjl].
    + exists i. rewrite Hlook by (subst last; lia).
      rewrite list_lookup_insert_eq by lia. now rewrite <- Hlast.
    + exists j. rewrite Hlook by (subst last; lia).
      rewrite list_lookup_insert_ne by lia. rewrite <- Hj.
      unfold snapshot. now rewrite lookup_take_lt by lia.
  - rewrite Hrun. repeat split; reflexivity.
Qed.

(** Registering a block and removing it again gives back the used prefix,
    whether the table had room for it or not. *)
Theorem track_untrack_round_trip st user_ptr meta :
  index_inv st ->
  (forall e, e ∈ snapshot st -> tr_address e <> user_ptr) ->
  let st' := snd (untrack_allocation user_ptr
                    (snd (track_allocation user_ptr meta st))) in
  snapshot st' = snapshot st /\
  active_alloc_count st' = active_alloc_count st.
Proof. intros Hinv. apply track_untrack_restores, index_inv_shape, Hinv. Qed.
End Untrack.

(** ** What [malloc] and [free] do to the table, the counters and the ring *)

Section MallocFree.
Context {P : Platform}.
Implicit Types (st : AgentState P).

Lemma untrack_from_table user_ptr fuel : forall k st1 st2,
  table_of st1 = table_of st2 ->
  table_of (untrack_from fuel k user_ptr st1) = table_of (untrack_from fuel k user_ptr st2).
Proof.
  induction fuel as [|fuel IH]; intros k st1 st2 Heq; simpl; [exact Heq|].
  pose proof Heq as Heq'. unfold table_of in Heq'. injection Heq' as Hl Hn.
  rewrite Hl, Hn.
  destruct (k <? active_alloc_count st2); [|exact Heq].
  destruct (_ =? user_ptr); [reflexivity | now apply IH].
Qed.

Lemma untrack_allocation_table user_ptr st1 st2 :
  table_of st1 = table_of st2 ->
  table_of (snd (untrack_allocation user_ptr st1))
  = table_of (snd (untrack_allocation user_ptr st2)).
Proof.
  intros Heq. unfold untrack_allocation, modify. cbn [snd].
  pose proof Heq as Heq'. unfold table_of in Heq'. injection Heq' as Hl Hn.
  rewrite Hn. now apply untrack_from_table.
Qed.

Lemma snapshot_table st1 st2 :
  table_of st1 = table_of st2 ->
  snapshot st1 = snapshot st2 /\ active_alloc_count st1 = active_alloc_count st2.
Proof.
  unfold table_of, snapshot. intros Heq. injection Heq as -> ->. now split.
Qed.

(** The table after a successful [malloc] is the table after registering the
    block. *)
Lemma malloc_table st size r w :
  size <> 0 ->
  real_malloc (u64 (size + sizeof_AllocationMeta)) (env st) = (r, w) ->
  r <> 0 ->
  table_of (snd (malloc size st))
  = table_of (snd (track_allocation (get_user_ptr_from_meta r) r st)).
Proof.
  intros Hs Hr Hr0. run_of (malloc size) st.
  unfold malloc. destruct (size =? 0) eqn:E; [apply Z.eqb_eq in E; contradiction|].
  wp_step. wp_step.
  destruct (r =? 0) eqn:E0; [apply Z.eqb_eq in E0; contradiction|].
  repeat wp_step.
  all: unfold track_allocation, modify, table_of; cbn [snd].
  all: destruct (active_alloc_count st <? MAX_TRACKED_ALLOCS) eqn:El;
    [apply Z.ltb_lt in El | apply Z.ltb_ge in El]; try lia; reflexivity.
Qed.

(** A successful [malloc] registers the block when the table has room; at
    capacity the allocation succeeds all the same and the table is left as it
    is. *)
Theorem malloc_registers st size r w :
  size <> 0 ->
  real_malloc (u64 (size + sizeof_AllocationMeta)) (env st) = (r, w) ->
  r <> 0 ->
  index_inv st ->
  let st' := snd (malloc size st) in
  fst (malloc size st) = r + sizeof_AllocationMeta /\
  index_inv st' /\
  (active_alloc_count st < MAX_TRACKED_ALLOCS ->
   snapshot st' = snapshot st ++ [{| tr_address := r + sizeof_AllocationMeta;
                                     tr_meta := r |}] /\
   active_alloc_count st' = active_alloc_count st + 1) /\
  (active_alloc_count st = MAX_TRACKED_ALLOCS ->
   snapshot st' = snapshot st /\ active_alloc_count st' = active_alloc_count st).
Proof.
  intros Hs Hr Hr0 Hinv st'.
  pose proof (malloc_table st size r w Hs Hr Hr0) as Htab. fold st' in Htab.
  apply snapshot_table in Htab. destruct Htab as (Hsnap & Hcount).
  pose proof Hinv as (Hlen & Hc & _).
  split; [apply (malloc_result st size r w Hs Hr Hr0)|].
  split; [subst st'; now apply preserves_malloc|].
  rewrite Hsnap, Hcount. split.
  - intros Hroom.
    destruct (track_allocation_room st (get_user_ptr_from_meta r) r Hlen ltac:(lia))
      as (H1 & H2 & _). now split.
  - intros Hfull. rewrite track_allocation_full by lia. now split.
Qed.

(** Everything [free] does to an owned block. *)
Lemma free_run_spec st ptr :
  ptr <> 0 ->
  is_valid_allocation (mem st) (get_meta_from_user_ptr ptr) = true ->
  let meta := ptr - sizeof_AllocationMeta in
  let sz := meta_size (mem st) meta in
  let st' := snd (free ptr st) in
  total_frees st' = u64 (total_frees st + 1) /\
  total_allocations st' = total_allocations st /\
  current_memory_usage st' = u64 (current_memory_usage st - sz) /\
  staleness_threshold_ns st' = staleness_threshold_ns st /\
  mem st' = store_le 4 (mem st) (meta + off_magic) 0 /\
  (exists w0, env st' = real_free meta (store_le 4 (mem st) (meta + off_magic) 0) w0) /\
  table_of st' = table_of (snd (untrack_allocation ptr st)) /\
  match leak_buffer st with
  | None => leak_buffer st' = None /\ next_event_id st' = next_event_id st
  | Some b =>
      exists b' ev,
        leak_buffer st' = Some b' /\
        next_event_id st' = u32 (next_event_id st + 1) /\
        shm_total_allocations b' = shm_total_allocations b /\
        shm_total_frees b' = u64 (shm_total_frees b + 1) /\
        current_memory b' = u64 (current_memory b - sz) /\
        leak_count b' = leak_count b /\
        write_index b' = i32 (write_index b + 1) /\
        length (events b') = length (events b) /\
        (0 <= write_index b ->
         events b' = <[Z.to_nat (write_index b mod LEAK_BUFFER_SIZE) := ev]> (events b)) /\
        event_id ev = i32 (next_event_id st) /\
        event_type ev = EVENT_FREE /\
        is_valid ev = 1 /\
        address (data ev) = ptr /\
        Advanced.size (data ev) = sz /\
        time_ns (data ev) = meta_alloc_time (mem st) meta /\
        site_id (data ev) = meta_site_id (mem st) meta
  end.
Proof.
  intros Hp Hv meta sz st'. subst st'.
  assert (Hmeta : get_meta_from_user_ptr ptr = meta).
  { unfold get_meta_from_user_ptr.
    destruct (ptr =? 0) eqn:E; [apply Z.eqb_eq in E; contradiction | reflexivity]. }
  run_of (free ptr) st.
  unfold free. destruct (ptr =? 0) eqn:E; [apply Z.eqb_eq in E; contradiction|].
  rewrite Hmeta in *.
  wp_step. wp_step. rewrite Hv. cbn [negb].
  repeat wp_step.
  all: fold (meta_size (mem st) meta); fold sz.
  all: repeat (split; [reflexivity|]).
  all: split; [eexists; reflexivity|].
  all: split;
    [ match goal with
      | H : untrack_from _ _ _ ?s1 = _ |- _ =>
          rewrite (untrack_allocation_table ptr st s1 eq_refl);
          unfold untrack_allocation, modify; cbn [snd]; proj_simpl;
          rewrite H; reflexivity
      end |].
  all: try (split; reflexivity).
  all: match goal with H : Some _ = Some _ |- _ => injection H as <- end.
  all: eexists _, _; split; [reflexivity|]; split; [reflexivity|].
  all: match goal with
       | |- context [published ?ev ?b0] =>
           destruct (published_spec ev b0) as (Hw & _ & Ha & Hf & Hc & Hl & Hlen & Hev);
           rewrite Ha, Hf, Hc, Hl, Hw, Hlen
       end.
  all: cbn [set_shm_stats write_index shm_total_allocations shm_total_frees
            current_memory leak_count events] in *.
  all: repeat (split; [reflexivity|]).
  all: split; [exact Hev|].
  all: cbn [built_event event_id event_type is_valid data default address
            Advanced.size time_ns site_id next_event_id set_leak_buffer set_stats
            set_active set_mem set_env].
  all: repeat split; reflexivity.
Qed.

(** After a successful [malloc] the block is ours and its header holds the
    size. *)
Lemma malloc_valid st size r w :
  size <> 0 ->
  real_malloc (u64 (size + sizeof_AllocationMeta)) (env st) = (r, w) ->
  0 < r ->
  meta_size (mem (snd (malloc size st))) r = u64 size /\
  is_valid_allocation (mem (snd (malloc size st)))
    (get_meta_from_user_ptr (fst (malloc size st))) = true.
Proof.
  intros Hs Hr Hr0.
  destruct (clock_gettime w) as [[tv_sec tv_nsec] w1] eqn:Hc.
  rewrite (malloc_result st size r w Hs Hr ltac:(lia)), (get_meta_of_user r Hr0).
  rewrite (malloc_mem st size r w tv_sec tv_nsec w1 Hs Hr ltac:(lia) Hc).
  destruct (installed_header_fields (mem st) r size
              (u64 (tv_sec * 1000000000 + tv_nsec)) (site_of w1) (u32 (pthread_self w1)))
    as (Hmagic & Hsize & _).
  split; [exact Hsize|]. unfold is_valid_allocation. rewrite Hmagic.
  destruct (r =? 0) eqn:E; [apply Z.eqb_eq in E; lia | reflexivity].
Qed.

Lemma u64_sub_add x y : 0 <= x < 2 ^ 64 -> u64 (u64 (x + y) - u64 y) = x.
Proof.
  intros Hx. unfold u64.
  rewrite Zminus_mod_idemp_l, Zminus_mod_idemp_r.
  replace (x + y - y) with x by lia. apply Z.mod_small. lia.
Qed.

(** [malloc] followed by [free] of the pointer it returned: the table and
    the bytes in use are back where they were, both call counters went up by
    one, and the real [free] is handed the block's base with the magic
    cleared.  With the ring mapped and its write index not negative and at
    least two below the largest [int], the ring's counters follow and the
    write index has advanced by the two events published. *)
Theorem malloc_free_round_trip st size r w :
  size <> 0 ->
  real_malloc (u64 (size + sizeof_AllocationMeta)) (env st) = (r, w) ->
  0 < r ->
  index_inv st ->
  (forall e, e ∈ snapshot st -> tr_address e <> r + sizeof_AllocationMeta) ->
  0 <= current_memory_usage st < 2 ^ 64 ->
  let ptr := fst (malloc size st) in
  let st' := snd (free ptr (snd (malloc size st))) in
  ptr = r + sizeof_AllocationMeta /\
  snapshot st' = snapshot st /\
  active_alloc_count st' = active_alloc_count st /\
  current_memory_usage st' = current_memory_usage st /\
  total_allocations st' = u64 (total_allocations st + 1) /\
  total_frees st' = u64 (total_frees st + 1) /\
  (exists m1 w1, env st' = real_free r m1 w1 /\ meta_magic m1 r = 0) /\
  (leak_buffer st = None -> leak_buffer st' = None) /\
  (forall b, leak_buffer st = Some b ->
     0 <= write_index b < 2 ^ 31 - 2 ->
     exists b', leak_buffer st' = Some b' /\
                shm_total_allocations b' = u64 (shm_total_allocations b + 1) /\
                shm_total_frees b' = u64 (shm_total_frees b + 1) /\
                (0 <= current_memory b < 2 ^ 64 -> current_memory b' = current_memory b) /\
                write_index b' = write_index b + 2).
Proof.
  intros Hs Hr Hr0 Hinv Habs Hcmu ptr st'.
  pose proof (malloc_valid st size r w Hs Hr Hr0) as (Hsize & Hvalid).
  pose proof (malloc_run_spec st size r w Hs Hr ltac:(lia))
    as (Hta & Htf & Hcm & _ & Hring).
  pose proof (malloc_table st size r w Hs Hr ltac:(lia)) as Htab.
  assert (Hptr : ptr = r + sizeof_AllocationMeta)
    by apply (malloc_result st size r w Hs Hr ltac:(lia)).
  fold ptr in Hvalid. set (st1 := snd (malloc size st)) in *.
  assert (Hp0 : ptr <> 0) by (rewrite Hptr; offsets; lia).
  pose proof (free_run_spec st1 ptr Hp0 Hvalid)
    as (Htf' & Hta' & Hcm' & _ & Hmem' & Henv' & Htab' & Hring').
  fold st' in Htf', Hta', Hcm', Hmem', Henv', Htab', Hring'.
  replace (ptr - sizeof_AllocationMeta) with r in * by (rewrite Hptr; lia).
  split; [exact Hptr|].
  assert (Hrt : snapshot st' = snapshot st /\
                active_alloc_count st' = active_alloc_count st).
  { rewrite (untrack_allocation_table ptr st1 _ Htab) in Htab'.
    apply snapshot_table in Htab'. destruct Htab' as (-> & ->).
    rewrite Hptr. apply track_untrack_restores; [now apply index_inv_shape | assumption]. }
  destruct Hrt as (Hsnap & Hcount).
  split; [exact Hsnap|]. split; [exact Hcount|].
  split; [rewrite Hcm', Hcm, Hsize; now apply u64_sub_add|].
  split; [congruence|]. split; [congruence|].
  split.
  { destruct Henv' as (w0 & Henv'). eexists _, w0. split; [exact Henv'|].
    apply meta_magic_cleared. }
  split.
  - intros Hb. rewrite Hb in Hring. destruct Hring as (Hb1 & _).
    rewrite Hb1 in Hring'. apply Hring'.
  - intros b Hb Hwi. rewrite Hb in Hring.
    destruct Hring as (b1 & ev1 & Hb1 & _ & Ha1 & Hf1 & Hc1 & _ & Hw1 & _).
    rewrite Hb1 in Hring'.
    destruct Hring' as (b2 & ev2 & Hb2 & _ & Ha2 & Hf2 & Hc2 & _ & Hw2 & _).
    exists b2. split; [exact Hb2|].
    split; [congruence|]. split; [congruence|].
    split.
    + intros Hrange. rewrite Hc2, Hc1, Hsize. now apply u64_sub_add.
    + rewrite Hw2, Hw1. rewrite (i32_small (write_index b + 1)) by lia.
      rewrite i32_small by lia. lia.
Qed.
End MallocFree.

Section Accounts.
Context {P : Platform}.
Implicit Types (st : AgentState P).

(** A successful [malloc] counts one allocation and [size] more bytes in
    use, in the local counters and, when the ring is mapped and its write
    index is not negative, in the ring's counters as well; the count of
    frees, the count of leaks and the threshold are unchanged. *)
Theorem malloc_accounting st size r w :
  size <> 0 ->
  real_malloc (u64 (size + sizeof_AllocationMeta)) (env st) = (r, w) ->
  r <> 0 ->
  let st' := snd (malloc size st) in
  total_allocations st' = u64 (total_allocations st + 1) /\
  total_frees st' = total_frees st /\
  current_memory_usage st' = u64 (current_memory_usage st + size) /\
  staleness_threshold_ns st' = staleness_threshold_ns st /\
  (leak_buffer st = None -> leak_buffer st' = None) /\
  (forall b, leak_buffer st = Some b ->
     0 <= write_index b ->
     exists b', leak_buffer st' = Some b' /\
                shm_total_allocations b' = u64 (shm_total_allocations b + 1) /\
                shm_total_frees b' = shm_total_frees b /\
                current_memory b' = u64 (current_memory b + size) /\
                leak_count b' = leak_count b).
Proof.
  intros Hs Hr Hr0 st'.
  destruct (malloc_run_spec st size r w Hs Hr Hr0) as (Ha & Hf & Hc & Ht & Hring).
  fold st' in Ha, Hf, Hc, Ht, Hring.
  repeat (split; [assumption|]). split.
  - intros Hb. rewrite Hb in Hring. apply Hring.
  - intros b Hb Hwi. rewrite Hb in Hring.
    destruct Hring as (b' & ev & Hb' & _ & Ha' & Hf' & Hc' & Hl' & _).
    exists b'. repeat split; assumption.
Qed.

(** With the ring mapped and its write index not negative, a successful
    [malloc] publishes exactly one event: it takes the next event id, goes
    into slot [write_index % 1000], the index advances by one, and the record
    is a valid MALLOC event carrying the user pointer, the size, and the
    allocation time and call site stored in the header.  Without the ring
    nothing is published and no id is used. *)
Theorem malloc_publishes_event st size r w :
  size <> 0 ->
  real_malloc (u64 (size + sizeof_AllocationMeta)) (env st) = (r, w) ->
  r <> 0 ->
  let st' := snd (malloc size st) in
  (leak_buffer st = None ->
   leak_buffer st' = None /\ next_event_id st' = next_event_id st) /\
  (forall b, leak_buffer st = Some b ->
     0 <= write_index b ->
     exists b' ev,
       leak_buffer st' = Some b' /\
       next_event_id st' = u32 (next_event_id st + 1) /\
       write_index b' = i32 (write_index b + 1) /\
       events b' = <[Z.to_nat (write_index b mod LEAK_BUFFER_SIZE) := ev]> (events b) /\
       event_id ev = i32 (next_event_id st) /\
       event_type ev = EVENT_MALLOC /\
       is_valid ev = 1 /\
       address (data ev) = r + sizeof_AllocationMeta /\
       Advanced.size (data ev) = size /\
       time_ns (data ev) = meta_alloc_time (mem st') r /\
       site_id (data ev) = meta_site_id (mem st') r).
Proof.
  intros Hs Hr Hr0 st'.
  destruct (malloc_run_spec st size r w Hs Hr Hr0) as (_ & _ & _ & _ & Hring).
  fold st' in Hring. split.
  - intros Hb. rewrite Hb in Hring. exact Hring.
  - intros b Hb Hwi. rewrite Hb in Hring.
    destruct Hring as (b' & ev & Hb' & Hn & _ & _ & _ & _ & Hw & _ & Hev & Hrest).
    exists b', ev. split; [exact Hb'|]. split; [exact Hn|]. split; [exact Hw|].
    split; [exact (Hev Hwi) | exact Hrest].
Qed.


(** With the ring mapped and its write index not negative, [free] of an
    owned block publishes exactly one valid FREE event, into slot
    [write_index % 1000], carrying the pointer and the size, allocation time
    and call site read from the header.  Without the ring nothing is
    published and no id is used. *)
Theorem free_publishes_event st ptr :
  ptr <> 0 ->
  is_valid_allocation (mem st) (get_meta_from_user_ptr ptr) = true ->
  let meta := ptr - sizeof_AllocationMeta in
  let st' := snd (free ptr st) in
  (leak_buffer st = None ->
   leak_buffer st' = None /\ next_event_id st' = next_event_id st) /\
  (forall b, leak_buffer st = Some b ->
     0 <= write_index b ->
     exists b' ev,
       leak_buffer st' = Some b' /\
       next_event_id st' = u32 (next_event_id st + 1) /\
       write_index b' = i32 (write_index b + 1) /\
       events b' = <[Z.to_nat (write_index b mod LEAK_BUFFER_SIZE) := ev]> (events b) /\
       event_id ev = i32 (next_event_id st) /\
       event_type ev = EVENT_FREE /\
       is_valid ev = 1 /\
       address (data ev) = ptr /\
       Advanced.size (data ev) = meta_size (mem st) meta /\
       time_ns (data ev) = meta_alloc_time (mem st) meta /\
       site_id (data ev) = meta_site_id (mem st) meta).
Proof.
  intros Hp Hv meta st'.
  destruct (free_run_spec st ptr Hp Hv) as (_ & _ & _ & _ & _ & _ & _ & Hring).
  fold meta st' in Hring. split.
  - intros Hb. rewrite Hb in Hring. exact Hring.
  - intros b Hb Hwi. rewrite Hb in Hring.
    destruct Hring as (b' & ev & Hb' & Hn & _ & _ & _ & _ & Hw & _ & Hev & Hrest).
    exists b', ev. split; [exact Hb'|]. split; [exact Hn|]. split; [exact Hw|].
    split; [exact (Hev Hwi) | exact Hrest].
Qed.
End Accounts.

(** ** Access updates, [realloc] at its edges, [calloc] *)

Section More.
Context {P : Platform}.
Implicit Types (st : AgentState P).

Lemma get_meta_nonnull ptr :
  ptr <> 0 -> get_meta_from_user_ptr ptr = ptr - sizeof_AllocationMeta.
Proof.
  intros Hp. unfold get_meta_from_user_ptr.
  destruct (ptr =? 0) eqn:E; [apply Z.eqb_eq in E; contradiction | reflexivity].
Qed.

(** [update_allocation_access] on a null pointer or on a pointer whose header
    is not ours does nothing at all (the clock is not even read); on an owned
    pointer it reads the clock once and rewrites [last_access], and nothing
    else: the other header fields, the counters, the ring and the table are
    as before. *)
Theorem update_allocation_access_spec st addr :
  (addr = 0 \/ is_valid_allocation (mem st) (get_meta_from_user_ptr addr) = false ->
   update_allocation_access addr st = (tt, st)) /\
  (addr <> 0 ->
   is_valid_allocation (mem st) (get_meta_from_user_ptr addr) = true ->
   forall tv_sec tv_nsec w,
     clock_gettime (env st) = ((tv_sec, tv_nsec), w) ->
     let meta := addr - sizeof_AllocationMeta in
     let st' := snd (update_allocation_access addr st) in
     st' = set_mem (fun m => store_le 8 m (meta + off_last_access)
                               (u64 (tv_sec * 1000000000 + tv_nsec)))
             (set_env w st) /\
     meta_last_access (mem st') meta = u64 (tv_sec * 1000000000 + tv_nsec) /\
     is_valid_allocation (mem st') meta = true /\
     meta_size (mem st') meta = meta_size (mem st) meta /\
     meta_alloc_time (mem st') meta = meta_alloc_time (mem st) meta /\
     meta_site_id (mem st') meta = meta_site_id (mem st) meta /\
     meta_thread_id (mem st') meta = meta_thread_id (mem st) meta).
Proof.
  split.
  - intros Hcase. unfold update_allocation_access.
    destruct (addr =? 0) eqn:E; [reflexivity|].
    destruct Hcase as [-> | Hv]; [discriminate|].
    unfold bind, gets. rewrite Hv. reflexivity.
  - intros Hp Hv tv_sec tv_nsec w Hc meta st'.
    rewrite (get_meta_nonnull addr Hp) in Hv. fold meta in Hv.
    assert (Hst' : st' = set_mem (fun m => store_le 8 m (meta + off_last_access)
                                   (u64 (tv_sec * 1000000000 + tv_nsec)))
                           (set_env w st)).
    { subst st'. run_of (update_allocation_access addr) st.
      unfold update_allocation_access.
      destruct (addr =? 0) eqn:E; [apply Z.eqb_eq in E; contradiction|].
      rewrite (get_meta_nonnull addr Hp). fold meta.
      wp_step. wp_step. rewrite Hv. repeat wp_step. reflexivity. }
    split; [exact Hst'|]. rewrite Hst'. proj_simpl.
    unfold is_valid_allocation in *. fields. mem_simpl.
    pose proof (u64_range (tv_sec * 1000000000 + tv_nsec)) as Hnow.
    change (Z.of_nat 8 * 8) with 64. rewrite Z.mod_small by lia.
    repeat split; try reflexivity. exact Hv.
Qed.

(** [realloc] at its edges: a null pointer makes it [malloc]; a zero size
    makes it [free] and the result is null; a pointer whose header is not
    ours goes to the real [realloc], whose answer is returned, and no counter,
    no event and no table entry changes. *)
Theorem realloc_edges st :
  (forall size, realloc 0 size st = malloc size st) /\
  (forall ptr, ptr <> 0 -> realloc ptr 0 st = (0, snd (free ptr st))) /\
  (forall ptr size q m w,
      ptr <> 0 -> size <> 0 ->
      is_valid_allocation (mem st) (get_meta_from_user_ptr ptr) = false ->
      real_realloc ptr size (mem st) (env st) = (q, m, w) ->
      realloc ptr size st = (q, set_env w (set_mem (fun _ => m) st))).
Proof.
  split; [reflexivity|]. split.
  - intros ptr Hp. unfold realloc.
    destruct (ptr =? 0) eqn:E; [apply Z.eqb_eq in E; contradiction|].
    cbn [Z.eqb]. unfold bind, ret. now destruct (free ptr st).
  - intros ptr size q m w Hp Hs Hv Hr. unfold realloc.
    destruct (ptr =? 0) eqn:E; [apply Z.eqb_eq in E; contradiction|].
    destruct (size =? 0) eqn:E1; [apply Z.eqb_eq in E1; contradiction|].
    unfold bind, gets. rewrite Hv. cbn [negb].
    unfold call_real_realloc. rewrite Hr. reflexivity.
Qed.

(** A successful [calloc] whose request, header included, fits in 64 bits
    returns a block whose [nmemb * size] (wrapped) bytes are all zero,
    whatever they held before, behind a valid header that records that
    size. *)
Theorem calloc_fills_zero st nmemb size r w :
  let total := u64 (nmemb * size) in
  total <> 0 ->
  total + sizeof_AllocationMeta < 2 ^ 64 ->
  real_malloc (u64 (total + sizeof_AllocationMeta)) (env st) = (r, w) ->
  0 < r ->
  let st' := snd (calloc nmemb size st) in
  let ptr := fst (calloc nmemb size st) in
  ptr = r + sizeof_AllocationMeta /\
  load_bytes (Z.to_nat total) (mem st') ptr = repeat Byte.x00 (Z.to_nat total) /\
  is_valid_allocation (mem st') (get_meta_from_user_ptr ptr) = true /\
  meta_size (mem st') r = total.
Proof.
  intros total Htot Hfit Hr Hr0 st' ptr.
  destruct (clock_gettime w) as [[tv_sec tv_nsec] w1] eqn:Hc.
  pose proof (malloc_result st total r w Htot Hr ltac:(lia)) as Hres.
  pose proof (malloc_mem st total r w tv_sec tv_nsec w1 Htot Hr ltac:(lia) Hc) as Hmem.
  assert (Hrun : calloc nmemb size st
                 = (r + sizeof_AllocationMeta,
                    set_mem (fun m => memset m (r + sizeof_AllocationMeta) 0 total)
                            (snd (malloc total st)))).
  { unfold calloc. fold total. unfold bind.
    destruct (malloc total st) as [p st1]. cbn [fst snd] in *.
    subst p. unfold get_user_ptr_from_meta.
    destruct (r + sizeof_AllocationMeta =? 0) eqn:E;
      [apply Z.eqb_eq in E; offsets; lia|].
    reflexivity. }
  subst st' ptr. rewrite Hrun. cbn [fst snd mem set_mem]. rewrite Hmem.
  split; [reflexivity|].
  set (mh := installed_header (mem st) r total (u64 (tv_sec * 1000000000 + tv_nsec))
               (site_of w1) (u32 (pthread_self w1))) in *.
  destruct (installed_header_fields (mem st) r total
              (u64 (tv_sec * 1000000000 + tv_nsec)) (site_of w1) (u32 (pthread_self w1)))
    as (Hmagic & Hsize & _). fold mh in Hmagic, Hsize.
  assert (Hbelow : forall n off, off + Z.of_nat n <= sizeof_AllocationMeta ->
            load_le n (memset mh (r + sizeof_AllocationMeta) 0 total) (r + off)
            = load_le n mh (r + off)).
  { intros n off Hoff. unfold load_le, memset.
    rewrite load_bytes_store_bytes_disjoint by lia. reflexivity. }
  split; [|split].
  - unfold memset.
    rewrite <- (repeat_length (byte.of_Z 0) (Z.to_nat total)) at 1.
    rewrite load_bytes_store_bytes_same. reflexivity.
  - replace (r + sizeof_AllocationMeta) with (get_user_ptr_from_meta r) by reflexivity.
    rewrite (get_meta_of_user r Hr0).
    unfold is_valid_allocation, meta_magic in *.
    rewrite Hbelow by (offsets; lia). rewrite Hmagic.
    destruct (r =? 0) eqn:E; [apply Z.eqb_eq in E; lia | reflexivity].
  - unfold meta_size in *. rewrite Hbelow by (offsets; lia).
    rewrite Hsize. subst total. apply u64_idem.
Qed.
End More.

(** ** The scanner *)

Section Scanner.
Context {P : Platform}.
Implicit Types (st : AgentState P).

Lemma keeps_scan_from_view {B} (proj : AgentState P -> B) fuel :
  ignores_env proj -> ignores_next_event_id proj -> ignores_leak_buffer proj ->
  forall i leaks, keeps proj (scan_from fuel i leaks).
Proof.
  intros He Hn Hb.
  induction fuel as [|k IH]; intros i leaks; simpl; keeps.
  all: first [ apply IH
             | apply keeps_is_potentially_leaked; ignored
             | apply keeps_report_leak; ignored
             | apply keeps_modify; intros ?; apply Hb ].
Qed.

Lemma keeps_scan_pass_view {B} (proj : AgentState P -> B) :
  ignores_env proj -> ignores_next_event_id proj -> ignores_leak_buffer proj ->
  keeps proj scan_pass.
Proof.
  intros He Hn Hb. unfold scan_pass, mapped. keeps.
  now apply keeps_scan_from_view.
Qed.

(** A pass of the scanner only reads the headers and the table: the memory,
    the table, the local counters and the threshold are as before; and when
    the ring is not mapped the pass does nothing at all. *)
Theorem scan_pass_frame st :
  let st' := snd (scan_pass st) in
  mem st' = mem st /\
  active_allocs st' = active_allocs st /\
  active_alloc_count st' = active_alloc_count st /\
  total_allocations st' = total_allocations st /\
  total_frees st' = total_frees st /\
  current_memory_usage st' = current_memory_usage st /\
  staleness_threshold_ns st' = staleness_threshold_ns st /\
  (leak_buffer st = None -> scan_pass st = (0, st)).
Proof.
  cbv zeta.
  repeat (split; [apply (keeps_scan_pass_view _); ignored|]).
  intros Hb. unfold scan_pass, mapped, bind, gets. rewrite Hb. reflexivity.
Qed.

Lemma scan_from_all_invalid fuel : forall i leaks st,
  0 <= i ->
  (forall j, i <= j < active_alloc_count st ->
     is_valid_allocation (mem st) (tr_meta (active_allocs st !!! Z.to_nat j)) = false) ->
  scan_from fuel i leaks st = (leaks, st).
Proof.
  induction fuel as [|k IH]; intros i leaks st Hi Hinv; simpl; [reflexivity|].
  unfold bind at 1. unfold gets at 1.
  destruct (i <? active_alloc_count st) eqn:Hlt; [|reflexivity].
  apply Z.ltb_lt in Hlt.
  unfold bind, gets. rewrite (Hinv i) by lia.
  unfold ret. apply IH; [lia|]. intros j Hj. apply Hinv. lia.
Qed.

(** When no entry of the used prefix has a valid header (the blocks were
    freed, or their headers trampled), a pass reports nothing and leaves the
    state, ring and clock included, untouched. *)
Theorem scan_pass_all_invalid st :
  index_inv st ->
  (forall e, e ∈ snapshot st -> is_valid_allocation (mem st) (tr_meta e) = false) ->
  scan_pass st = (0, st).
Proof.
  intros Hinv Hall. unfold scan_pass, mapped.
  unfold bind at 1. unfold gets at 1.
  destruct (bool_decide (is_Some (leak_buffer st))); [|reflexivity].
  unfold bind, gets. apply scan_from_all_invalid; [lia|].
  intros j Hj. apply Hall. apply list_elem_of_lookup. exists (Z.to_nat j).
  apply snapshot_lookup; [now apply index_inv_shape | lia].
Qed.

(** The ring after [k] more publications by the scanner. *)
Definition ring_advanced (k : Z) st st' : Prop :=
  exists b b',
    leak_buffer st = Some b /\ leak_buffer st' = Some b' /\
    write_index b' = write_index b + k /\
    u32 (leak_count b') = u32 (leak_count b + k) /\
    u32 (next_event_id st') = u32 (next_event_id st + k) /\
    shm_total_allocations b' = shm_total_allocations b /\
    shm_total_frees b' = shm_total_frees b /\
    current_memory b' = current_memory b /\
    length (events b') = length (events b).

Lemma u32_i32 x : u32 (i32 x) = u32 x.
Proof.
  unfold u32, i32.
  rewrite Zminus_mod, Zmod_mod, <- Zminus_mod.
  f_equal. lia.
Qed.

Lemma u32_add_l x y : u32 (u32 x + y) = u32 (x + y).
Proof. unfold u32. apply Zplus_mod_idemp_l. Qed.

Lemma ring_advanced_refl st b : leak_buffer st = Some b -> ring_advanced 0 st st.
Proof.
  intros Hb. exists b, b. rewrite !Z.add_0_r. repeat split; auto.
Qed.

Lemma ring_advanced_trans a c st0 st1 st2 :
  ring_advanced a st0 st1 -> ring_advanced c st1 st2 -> ring_advanced (a + c) st0 st2.
Proof.
  intros (b0 & b1 & H0 & H1 & Hw & Hl & Hn & Ha & Hf & Hm & He)
         (b1' & b2 & H1' & H2 & Hw' & Hl' & Hn' & Ha' & Hf' & Hm' & He').
  rewrite H1 in H1'. injection H1' as <-.
  exists b0, b2. split; [exact H0|]. split; [exact H2|].
  assert (Hstep : forall x0 x1 x2, u32 x1 = u32 (x0 + a) -> u32 x2 = u32 (x1 + c) ->
                                   u32 x2 = u32 (x0 + (a + c))).
  { intros x0 x1 x2 E1 E2. rewrite E2, <- u32_add_l, E1, u32_add_l. f_equal. lia. }
  split; [lia|].
  repeat split; try congruence; eapply Hstep; eassumption.
Qed.

Lemma report_leak_advances meta user_ptr st b :
  leak_buffer st = Some b ->
  0 <= write_index b < 2 ^ 31 - 1 ->
  ring_advanced 1 st (snd (report_leak meta user_ptr st)).
Proof.
  intros Hb Hwi. run_of (report_leak meta user_ptr) st.
  unfold report_leak. repeat wp_step.
  match goal with H : Some _ = Some _ |- _ => injection H as <- end.
  unfold ring_advanced. exists b. eexists. split; [exact Hb|].
  proj_simpl. rewrite Hb. proj_simpl. split; [reflexivity|].
  match goal with
  | |- context [published ?ev ?b0] =>
      destruct (published_spec ev b0) as (Hw & _ & Ha & Hf & Hc & Hl & Hlen & _)
  end.
  cbn [set_shm_stats write_index shm_total_allocations shm_total_frees
       current_memory leak_count events].
  rewrite Ha, Hf, Hc, Hl, Hw, Hlen, !u32_idem.
  rewrite i32_small by lia.
  repeat split; reflexivity.
Qed.

Lemma ring_advanced_from k st0 st st' :
  leak_buffer st = leak_buffer st0 -> next_event_id st = next_event_id st0 ->
  ring_advanced k st st' -> ring_advanced k st0 st'.
Proof. unfold ring_advanced. intros -> ->. auto. Qed.

Lemma wp_keeps {A B} (proj : AgentState P -> B) (c : M (AgentState P) A)
    (Q : A -> AgentState P -> Prop) st :
  keeps proj c -> (forall a s, proj s = proj st -> Q a s) -> wp c Q st.
Proof. intros Hk HQ. apply HQ, Hk. Qed.

Lemma scan_from_counts fuel : forall i leaks st b,
  leak_buffer st = Some b ->
  0 <= leaks -> leaks + Z.of_nat fuel < 2 ^ 31 ->
  0 <= write_index b -> write_index b + Z.of_nat fuel < 2 ^ 31 ->
  wp (scan_from fuel i leaks)
     (fun r st' => leaks <= r <= leaks + Z.of_nat fuel /\ ring_advanced (r - leaks) st st')
     st.
Proof.
  induction fuel as [|k IH]; intros i leaks st b Hb Hl Hfuel Hw0 Hw1.
  - apply wp_ret. split; [lia|]. rewrite Z.sub_diag. now apply (ring_advanced_refl st b).
  - cbn [scan_from]. wp_step. wp_step.
    destruct (i <? active_alloc_count st).
    2:{ wp_step. split; [lia|]. rewrite Z.sub_diag. now apply (ring_advanced_refl st b). }
    do 6 wp_step.
    apply wp_bind.
    apply (wp_keeps (fun s => (leak_buffer s, next_event_id s))).
    { destruct (is_valid_allocation _ _);
        [apply keeps_is_potentially_leaked; ignored | apply keeps_ret]. }
    intros stale s Hs. injection Hs as Hsb Hsn.
    destruct stale.
    + apply wp_bind. unfold wp at 1.
      set (s1 := snd (report_leak _ _ s)).
      assert (H1 : ring_advanced 1 st s1).
      { apply (ring_advanced_from 1 st s s1 Hsb Hsn).
        apply (report_leak_advances _ _ s b); [congruence | lia]. }
      pose proof H1 as (b0 & b1 & Hb0 & Hb1 & Hwb1 & _).
      rewrite Hb in Hb0. injection Hb0 as <-.
      rewrite i32_small by lia.
      eapply wp_conseq; [apply (IH (i + 1) (leaks + 1) s1 b1 Hb1); lia|].
      intros r s2 (Hr & Hadv). split; [lia|].
      replace (r - leaks) with (1 + (r - (leaks + 1))) by lia.
      eapply ring_advanced_trans; eassumption.
    + eapply wp_conseq;
        [apply (IH (i + 1) leaks s b); [congruence | lia | lia | lia | lia]|].
      intros r s2 (Hr & Hadv). split; [lia|].
      now apply (ring_advanced_from _ st s s2 Hsb Hsn).
Qed.

(** A pass over a mapped ring whose write index is not negative and has
    room for one event per used entry: the pass reports at most one leak per
    used entry, and what it reports is what the ring shows: [write_index]
    advances by the number of leaks returned, [leak_count] and the next
    event id advance by it modulo [2^32]; the allocation counters of the ring
    and the number of slots are as before. *)
Theorem scan_pass_counts st b :
  leak_buffer st = Some b ->
  0 <= active_alloc_count st ->
  0 <= write_index b ->
  write_index b + active_alloc_count st < 2 ^ 31 ->
  let leaks := fst (scan_pass st) in
  let st' := snd (scan_pass st) in
  0 <= leaks <= active_alloc_count st /\
  exists b',
    leak_buffer st' = Some b' /\
    write_index b' = write_index b + leaks /\
    u32 (leak_count b') = u32 (leak_count b + leaks) /\
    u32 (next_event_id st') = u32 (next_event_id st + leaks) /\
    shm_total_allocations b' = shm_total_allocations b /\
    shm_total_frees b' = shm_total_frees b /\
    current_memory b' = current_memory b /\
    length (events b') = length (events b).
Proof.
  intros Hb Hc Hw0 Hw1. cbv zeta.
  apply (wp_elim scan_pass (fun leaks st' =>
    0 <= leaks <= active_alloc_count st /\
    exists b', leak_buffer st' = Some b' /\
      write_index b' = write_index b + leaks /\
      u32 (leak_count b') = u32 (leak_count b + leaks) /\
      u32 (next_event_id st') = u32 (next_event_id st + leaks) /\
      shm_total_allocations b' = shm_total_allocations b /\
      shm_total_frees b' = shm_total_frees b /\
      current_memory b' = current_memory b /\
      length (events b') = length (events b))).
  unfold scan_pass. wp_step. wp_step.
  wp_step. wp_step.
  eapply wp_conseq;
    [apply (scan_from_counts (Z.to_nat (active_alloc_count st)) 0 0 st b Hb); lia|].
  intros r s2 (Hr & (bs & b' & Hbs & Hb' & Hrest)).
  rewrite Hb in Hbs. injection Hbs as <-. rewrite Z.sub_0_r in Hrest.
  split; [lia|]. exists b'. split; [exact Hb'|]. exact Hrest.
Qed.
End Scanner.

(** ** What every run of the agent keeps true of the counters and the ring *)

Section Through.
Context {P : Platform}.
Implicit Types (st : AgentState P).

(** What the invariants of the counters and of the ring look at. *)
Definition ring_view st :=
  (leak_buffer st, next_event_id st, total_allocations st, total_frees st,
   current_memory_usage st).

Definition holds_through (I : AgentState P -> Prop) {A} (c : M (AgentState P) A) : Prop :=
  forall st, I st -> I (snd (c st)).

Lemma holds_through_bind I {A B} (c : M (AgentState P) A) (k : A -> M (AgentState P) B) :
  holds_through I c -> (forall a, holds_through I (k a)) -> holds_through I (bind c k).
Proof.
  intros Hc Hk st Hinv. unfold bind. specialize (Hc st Hinv).
  destruct (c st) as [a st1]. simpl in Hc. now apply Hk.
Qed.

(** An invariant that looks at [ring_view] only and that [malloc], [free]
    and [report_leak] keep is kept by every step of the agent. *)
Section Steps.
Variable I : AgentState P -> Prop.
Hypothesis I_view : forall s1 s2, ring_view s1 = ring_view s2 -> I s2 -> I s1.
Hypothesis I_malloc : forall size, holds_through I (malloc size).
Hypothesis I_free : forall ptr, holds_through I (free ptr).
Hypothesis I_report_leak : forall meta p, holds_through I (report_leak meta p).

Lemma holds_through_keeps {A} (c : M (AgentState P) A) :
  keeps ring_view c -> holds_through I c.
Proof. intros Hc st Hinv. eapply I_view; [apply Hc | exact Hinv]. Qed.

Ltac through :=
  repeat first
    [ apply I_malloc
    | apply I_free
    | apply I_report_leak
    | apply holds_through_keeps; solve [keeps]
    | apply holds_through_keeps; apply keeps_is_potentially_leaked; ignored
    | apply holds_through_bind; [|intros ?]
    | match goal with
      | |- holds_through _ (if ?b then _ else _) => destruct b
      end ].

Lemma holds_through_realloc ptr size : holds_through I (realloc ptr size).
Proof. unfold realloc, load_field. through. Qed.

Lemma holds_through_calloc nmemb size : holds_through I (calloc nmemb size).
Proof. unfold calloc. through. Qed.

Lemma holds_through_scan_from fuel : forall i leaks,
  holds_through I (scan_from fuel i leaks).
Proof.
  induction fuel as [|k IH]; intros i leaks; cbn [scan_from]; through.
  all: apply IH.
Qed.

Lemma holds_through_scan_pass : holds_through I scan_pass.
Proof. unfold scan_pass, mapped. through. apply holds_through_scan_from. Qed.

Lemma holds_through_step c st : I st -> I (step c st).
Proof.
  destruct c; cbn [step].
  - apply I_malloc.
  - apply I_free.
  - apply holds_through_realloc.
  - apply holds_through_calloc.
  - apply holds_through_keeps. unfold update_allocation_access. keeps.
  - apply holds_through_scan_pass.
  - intros Hinv. eapply I_view; [|exact Hinv]. reflexivity.
Qed.
End Steps.

(** A run of the agent: the calls are made one after the other. *)
Definition run_calls (calls : list Call) st : AgentState P :=
  fold_left (fun s c => step c s) calls st.

Lemma holds_through_run I :
  (forall c st, I st -> I (step c st)) ->
  forall calls st, I st -> I (run_calls calls st).
Proof.
  intros Hstep calls. unfold run_calls.
  induction calls as [|c calls IH]; intros st Hinv; cbn [fold_left]; [exact Hinv|].
  apply IH, Hstep, Hinv.
Qed.

(** *** The local counters are 64-bit values *)

Definition counters_in_range st : Prop :=
  0 <= total_allocations st < 2 ^ 64 /\
  0 <= total_frees st < 2 ^ 64 /\
  0 <= current_memory_usage st < 2 ^ 64.

Lemma counters_in_range_view s1 s2 :
  ring_view s1 = ring_view s2 -> counters_in_range s2 -> counters_in_range s1.
Proof.
  unfold ring_view, counters_in_range. intros Heq. injection Heq as _ _ -> -> ->. auto.
Qed.

Lemma counters_in_range_malloc size : holds_through counters_in_range (malloc size).
Proof.
  intros st Hinv.
  destruct (Z.eq_dec size 0) as [-> | Hs]; [exact Hinv|].
  destruct (real_malloc (u64 (size + sizeof_AllocationMeta)) (env st)) as [r w] eqn:Hr.
  destruct (Z.eq_dec r 0) as [-> | Hr0].
  - rewrite (malloc_fails_eq st size w Hs Hr). exact Hinv.
  - destruct (malloc_run_spec st size r w Hs Hr Hr0) as (Ha & Hf & Hc & _).
    destruct Hinv as (Ra & Rf & Rc).
    unfold counters_in_range. rewrite Ha, Hf, Hc.
    pose proof (u64_range (total_allocations st + 1)).
    pose proof (u64_range (current_memory_usage st + size)).
    repeat split; lia.
Qed.

Lemma counters_in_range_free ptr : holds_through counters_in_range (free ptr).
Proof.
  intros st Hinv.
  destruct (Z.eq_dec ptr 0) as [-> | Hp]; [exact Hinv|].
  destruct (is_valid_allocation (mem st) (get_meta_from_user_ptr ptr)) eqn:Hv.
  - destruct (free_run_spec st ptr Hp Hv) as (Hf & Ha & Hc & _).
    cbv zeta in Hf, Ha, Hc.
    destruct Hinv as (Ra & Rf & Rc).
    unfold counters_in_range. rewrite Ha, Hf, Hc.
    pose proof (u64_range (total_frees st + 1)).
    pose proof (u64_range (current_memory_usage st
                           - meta_size (mem st) (ptr - sizeof_AllocationMeta))).
    repeat split; lia.
  - rewrite (free_not_ours st ptr Hp Hv). exact Hinv.
Qed.

Lemma counters_in_range_report_leak meta p :
  holds_through counters_in_range (report_leak meta p).
Proof.
  intros st Hinv.
  pose proof (keeps_report_leak
                (fun s => (total_allocations s, total_frees s, current_memory_usage s))
                meta p ltac:(ignored) ltac:(ignored) ltac:(ignored) st) as Hk.
  cbv beta in Hk. injection Hk as Ha Hf Hc. unfold counters_in_range. now rewrite Ha, Hf, Hc.
Qed.

Lemma counters_in_range_step c st : counters_in_range st -> counters_in_range (step c st).
Proof.
  apply holds_through_step.
  - apply counters_in_range_view.
  - apply counters_in_range_malloc.
  - apply counters_in_range_free.
  - apply counters_in_range_report_leak.
Qed.

Lemma counters_in_range_initial m w shm_ok : counters_in_range (initial_state m w shm_ok).
Proof. unfold counters_in_range, initial_state. cbn. lia. Qed.

Lemma reachable_counters_in_range st : reachable st -> counters_in_range st.
Proof.
  induction 1 as [m w ok | c st Hreach IH].
  - apply counters_in_range_initial.
  - apply counters_in_range_step, IH.
Qed.

(** *** Before the ring is mapped no event id is taken *)

Definition unmapped st : Prop := leak_buffer st = None /\ next_event_id st = 1.

Lemma unmapped_view s1 s2 : ring_view s1 = ring_view s2 -> unmapped s2 -> unmapped s1.
Proof. unfold ring_view, unmapped. intros Heq. injection Heq as -> -> _ _ _. auto. Qed.

Lemma unmapped_malloc size : holds_through unmapped (malloc size).
Proof.
  intros st (Hb & Hn).
  destruct (Z.eq_dec size 0) as [-> | Hs]; [now split|].
  destruct (real_malloc (u64 (size + sizeof_AllocationMeta)) (env st)) as [r w] eqn:Hr.
  destruct (Z.eq_dec r 0) as [-> | Hr0].
  - rewrite (malloc_fails_eq st size w Hs Hr). now split.
  - destruct (malloc_run_spec st size r w Hs Hr Hr0) as (_ & _ & _ & _ & Hring).
    rewrite Hb in Hring. destruct Hring as (Hb' & Hn'). split; congruence.
Qed.

Lemma unmapped_free ptr : holds_through unmapped (free ptr).
Proof.
  intros st (Hb & Hn).
  destruct (Z.eq_dec ptr 0) as [-> | Hp]; [now split|].
  destruct (is_valid_allocation (mem st) (get_meta_from_user_ptr ptr)) eqn:Hv.
  - destruct (free_run_spec st ptr Hp Hv) as (_ & _ & _ & _ & _ & _ & _ & Hring).
    cbv zeta in Hring.
    rewrite Hb in Hring. destruct Hring as (Hb' & Hn'). split; congruence.
  - rewrite (free_not_ours st ptr Hp Hv). now split.
Qed.

Lemma unmapped_report_leak meta p : holds_through unmapped (report_leak meta p).
Proof.
  intros st (Hb & Hn). run_of (report_leak meta p) st.
  unfold report_leak. repeat wp_step.
  unfold unmapped. proj_simpl. rewrite Hb. now split.
Qed.

Lemma unmapped_step c st : unmapped st -> unmapped (step c st).
Proof.
  apply holds_through_step.
  - apply unmapped_view.
  - apply unmapped_malloc.
  - apply unmapped_free.
  - apply unmapped_report_leak.
Qed.
End Through.

(** *** Once the ring is mapped it follows the counters *)

Section Sync.
Context {P : Platform}.
Implicit Types (st : AgentState P).

(** The local counters when the ring was mapped. *)
Variables a0 f0 c0 : Z.

(** The ring is mapped; its write index lies in [0 .. k]; the next event id
    is the write index plus one; the ring has its slots; its allocation
    counters are the local ones less what was counted before the ring was
    mapped. *)
Definition ring_sync (k : Z) st : Prop :=
  exists b,
    leak_buffer st = Some b /\
    0 <= write_index b <= k /\
    next_event_id st = write_index b + 1 /\
    length (events b) = Z.to_nat LEAK_BUFFER_SIZE /\
    shm_total_allocations b = u64 (total_allocations st - a0) /\
    shm_total_frees b = u64 (total_frees st - f0) /\
    current_memory b = u64 (current_memory_usage st - c0).

(** A computation that publishes at most [n] events. *)
Definition advances (n : Z) {A} (c : M (AgentState P) A) : Prop :=
  forall k st, 0 <= k -> k + n < 2 ^ 31 -> ring_sync k st ->
               ring_sync (k + n) (snd (c st)).

Lemma ring_sync_le k k' st : k <= k' -> ring_sync k st -> ring_sync k' st.
Proof.
  intros Hle (b & Hb & Hw & Hrest). exists b. split; [exact Hb|]. split; [lia | exact Hrest].
Qed.

Lemma ring_sync_view k s1 s2 : ring_view s1 = ring_view s2 -> ring_sync k s2 -> ring_sync k s1.
Proof.
  unfold ring_view, ring_sync. intros Heq. injection Heq as -> -> -> -> ->. auto.
Qed.

Lemma advances_keeps {A} (c : M (AgentState P) A) : keeps ring_view c -> advances 0 c.
Proof.
  intros Hc k st Hk Hlt Hs. rewrite Z.add_0_r.
  eapply ring_sync_view; [apply Hc | exact Hs].
Qed.

Lemma advances_le n m {A} (c : M (AgentState P) A) :
  n <= m -> advances n c -> advances m c.
Proof.
  intros Hle Hc k st Hk Hlt Hs.
  apply (ring_sync_le (k + n)); [lia|]. apply Hc; [lia | lia | exact Hs].
Qed.

Lemma advances_bind n1 n2 {A B} (c : M (AgentState P) A) (k : A -> M (AgentState P) B) :
  0 <= n1 -> 0 <= n2 ->
  advances n1 c -> (forall a, advances n2 (k a)) -> advances (n1 + n2) (bind c k).
Proof.
  intros H1 H2 Hc Hk j st Hj Hlt Hs. unfold bind.
  specialize (Hc j st Hj ltac:(lia) Hs).
  destruct (c st) as [a st1]. cbn [snd] in Hc.
  replace (j + (n1 + n2)) with (j + n1 + n2) by lia.
  apply Hk; [lia | lia | exact Hc].
Qed.

Lemma advances_bind_keeps n {A B} (c : M (AgentState P) A) (k : A -> M (AgentState P) B) :
  0 <= n ->
  keeps ring_view c -> (forall a, advances n (k a)) -> advances n (bind c k).
Proof.
  intros Hn Hc Hk. change n with (0 + n).
  apply advances_bind; [lia | exact Hn | now apply advances_keeps | exact Hk].
Qed.

Lemma u64_shift x y d : u64 (u64 (x - y) + d) = u64 (u64 (x + d) - y).
Proof.
  unfold u64. rewrite Zplus_mod_idemp_l, Zminus_mod_idemp_l. f_equal. lia.
Qed.

Lemma u64_shift_sub x y d : u64 (u64 (x - y) - d) = u64 (u64 (x - d) - y).
Proof.
  unfold u64. rewrite !Zminus_mod_idemp_l. f_equal. lia.
Qed.

(** One publication, as [malloc], [free] and [report_leak] make it. *)
Lemma ring_sync_published k st b st' b' ta tf cm :
  0 <= k -> k + 1 < 2 ^ 31 ->
  leak_buffer st = Some b ->
  0 <= write_index b <= k ->
  next_event_id st = write_index b + 1 ->
  length (events b) = Z.to_nat LEAK_BUFFER_SIZE ->
  leak_buffer st' = Some b' ->
  next_event_id st' = u32 (next_event_id st + 1) ->
  write_index b' = i32 (write_index b + 1) ->
  length (events b') = length (events b) ->
  total_allocations st' = ta -> total_frees st' = tf -> current_memory_usage st' = cm ->
  shm_total_allocations b' = u64 (ta - a0) ->
  shm_total_frees b' = u64 (tf - f0) ->
  current_memory b' = u64 (cm - c0) ->
  ring_sync (k + 1) st'.
Proof.
  intros Hk Hlt Hb Hw Hn Hlen Hb' Hn' Hw' Hlen' <- <- <- Ha Hf Hc.
  exists b'. split; [exact Hb'|].
  rewrite Hw', Hn', Hn, Hlen'.
  rewrite i32_small by lia.
  unfold u32. rewrite Z.mod_small by lia.
  repeat split; try assumption; lia.
Qed.

Lemma advances_malloc size : advances 1 (malloc size).
Proof.
  intros k st Hk Hlt Hs.
  destruct (Z.eq_dec size 0) as [-> | Hsz].
  { apply (ring_sync_le k); [lia | exact Hs]. }
  destruct (real_malloc (u64 (size + sizeof_AllocationMeta)) (env st)) as [r w] eqn:Hr.
  destruct (Z.eq_dec r 0) as [-> | Hr0].
  { rewrite (malloc_fails_eq st size w Hsz Hr). apply (ring_sync_le k); [lia | exact Hs]. }
  destruct (malloc_run_spec st size r w Hsz Hr Hr0) as (Ha & Hf & Hc & _ & Hring).
  destruct Hs as (b & Hb & Hw & Hn & Hlen & Sa & Sf & Sc).
  rewrite Hb in Hring.
  destruct Hring as (b' & ev & Hb' & Hn' & Ha' & Hf' & Hc' & _ & Hw' & Hlen' & _).
  eapply (ring_sync_published k st b _ b'); try eassumption; try reflexivity.
  - rewrite Ha', Sa, ?Ha. apply u64_shift.
  - rewrite Hf', Sf, ?Hf. reflexivity.
  - rewrite Hc', Sc, ?Hc. apply u64_shift.
Qed.

Lemma advances_free ptr : advances 1 (free ptr).
Proof.
  intros k st Hk Hlt Hs.
  destruct (Z.eq_dec ptr 0) as [-> | Hp].
  { apply (ring_sync_le k); [lia | exact Hs]. }
  destruct (is_valid_allocation (mem st) (get_meta_from_user_ptr ptr)) eqn:Hv.
  2:{ rewrite (free_not_ours st ptr Hp Hv). apply (ring_sync_le k); [lia | exact Hs]. }
  destruct (free_run_spec st ptr Hp Hv) as (Hf & Ha & Hc & _ & _ & _ & _ & Hring).
  cbv zeta in Hf, Ha, Hc, Hring.
  destruct Hs as (b & Hb & Hw & Hn & Hlen & Sa & Sf & Sc).
  rewrite Hb in Hring.
  destruct Hring as (b' & ev & Hb' & Hn' & Ha' & Hf' & Hc' & _ & Hw' & Hlen' & _).
  eapply (ring_sync_published k st b _ b'); try eassumption; try reflexivity.
  - rewrite Ha', Sa, ?Ha. reflexivity.
  - rewrite Hf', Sf, ?Hf. apply u64_shift.
  - rewrite Hc', Sc, ?Hc. apply u64_shift_sub.
Qed.

Lemma advances_report_leak meta p : advances 1 (report_leak meta p).
Proof.
  intros k st Hk Hlt (b & Hb & Hw & Hn & Hlen & Sa & Sf & Sc).
  run_of (report_leak meta p) st.
  unfold report_leak. repeat wp_step.
  match goal with H : Some _ = Some _ |- _ => injection H as <- end.
  match goal with
  | |- context [published ?ev ?b0] =>
      destruct (published_spec ev b0) as (Hw' & _ & Ha' & Hf' & Hc' & _ & Hlen' & _)
  end.
  unfold ring_sync. proj_simpl. rewrite Hb. proj_simpl.
  eexists. split; [reflexivity|].
  cbn [set_shm_stats write_index shm_total_allocations shm_total_frees
       current_memory leak_count events].
  rewrite Ha', Hf', Hc', Hw', Hlen', Hn.
  rewrite i32_small by lia.
  unfold u32. rewrite Z.mod_small by lia.
  repeat split; try assumption; lia.
Qed.


Lemma advances_ret n {A} (a : A) : 0 <= n -> advances n (ret a).
Proof. intros Hn. apply (advances_le 0); [lia|]. apply advances_keeps, keeps_ret. Qed.

Lemma advances_realloc ptr size : advances 2 (realloc ptr size).
Proof.
  unfold realloc, load_field.
  destruct (ptr =? 0); [apply (advances_le 1); [lia | apply advances_malloc]|].
  destruct (size =? 0).
  { apply (advances_le 1); [lia|]. change 1 with (1 + 0).
    apply advances_bind; [lia | lia | apply advances_free|].
    intros _. apply advances_keeps, keeps_ret. }
  apply advances_bind_keeps; [lia | solve [keeps] | intros ours].
  destruct (negb ours).
  { apply (advances_le 0); [lia|]. apply advances_keeps. keeps. }
  apply advances_bind_keeps; [lia | solve [keeps] | intros old_size].
  change 2 with (1 + 1).
  apply advances_bind; [lia | lia | apply advances_malloc | intros new_ptr].
  destruct (new_ptr =? 0); [apply advances_ret; lia|].
  apply advances_bind_keeps; [lia | solve [keeps] | intros _].
  change 1 with (1 + 0).
  apply advances_bind; [lia | lia | apply advances_free | intros _].
  apply advances_keeps, keeps_ret.
Qed.

Lemma advances_calloc nmemb size : advances 1 (calloc nmemb size).
Proof.
  unfold calloc. change 1 with (1 + 0).
  apply advances_bind; [lia | lia | apply advances_malloc | intros ptr].
  apply advances_keeps. keeps.
Qed.

Lemma advances_scan_from fuel : forall i leaks,
  advances (Z.of_nat fuel) (scan_from fuel i leaks).
Proof.
  induction fuel as [|n IH]; intros i leaks; cbn [scan_from].
  - apply advances_keeps, keeps_ret.
  - apply advances_bind_keeps; [lia | solve [keeps] | intros cnt].
    destruct (i <? cnt); [|apply advances_ret; lia].
    do 3 (apply advances_bind_keeps; [lia | solve [keeps] | intros ?]).
    apply advances_bind_keeps; [lia| |intros stale].
    { match goal with |- keeps _ (if ?b then _ else _) => destruct b end;
        [apply keeps_is_potentially_leaked; ignored | apply keeps_ret]. }
    destruct stale.
    + replace (Z.of_nat (S n)) with (1 + Z.of_nat n) by lia.
      apply advances_bind; [lia | lia | apply advances_report_leak | intros _].
      apply IH.
    + apply (advances_le (Z.of_nat n)); [lia | apply IH].
Qed.

Lemma ring_sync_scan_pass k st :
  0 <= k -> 0 <= active_alloc_count st <= MAX_TRACKED_ALLOCS ->
  k + MAX_TRACKED_ALLOCS < 2 ^ 31 ->
  ring_sync k st -> ring_sync (k + MAX_TRACKED_ALLOCS) (snd (scan_pass st)).
Proof.
  intros Hk Hc Hlt Hs.
  assert (Hadv : advances MAX_TRACKED_ALLOCS
                   (scan_from (Z.to_nat (active_alloc_count st)) 0 0)).
  { apply (advances_le (Z.of_nat (Z.to_nat (active_alloc_count st)))); [lia|].
    apply advances_scan_from. }
  unfold scan_pass, mapped, bind, gets. cbn [fst snd].
  destruct (bool_decide (is_Some (leak_buffer st))).
  - now apply Hadv.
  - apply (ring_sync_le k); [unfold MAX_TRACKED_ALLOCS; lia | exact Hs].
Qed.

(** The events one call can publish at most: one for [malloc], [free] and
    [calloc], two for [realloc], one per table slot for a pass of the
    scanner. *)
Definition call_cost (c : Call) : Z :=
  match c with
  | CallMalloc _ | CallFree _ | CallCalloc _ _ => 1
  | CallRealloc _ _ => 2
  | ScannerPass => MAX_TRACKED_ALLOCS
  | CallUpdateAccess _ | UserStore _ _ => 0
  end.

Definition run_cost (calls : list Call) : Z :=
  fold_right (fun c n => call_cost c + n) 0 calls.

Lemma call_cost_nonneg c : 0 <= call_cost c.
Proof. destruct c; unfold call_cost, MAX_TRACKED_ALLOCS; lia. Qed.

Lemma run_cost_nonneg calls : 0 <= run_cost calls.
Proof.
  induction calls as [|c calls IH]; cbn [run_cost fold_right]; [lia|].
  fold (run_cost calls). pose proof (call_cost_nonneg c). lia.
Qed.

Lemma ring_sync_step c k st :
  index_inv st -> 0 <= k -> k + call_cost c < 2 ^ 31 ->
  ring_sync k st -> ring_sync (k + call_cost c) (step c st).
Proof.
  intros Hinv Hk Hlt Hs. destruct c; cbn [step call_cost] in *.
  - now apply advances_malloc.
  - now apply advances_free.
  - now apply advances_realloc.
  - now apply advances_calloc.
  - rewrite Z.add_0_r. eapply ring_sync_view; [|exact Hs].
    assert (Hkeep : keeps ring_view (update_allocation_access addr))
      by (unfold update_allocation_access; keeps).
    apply Hkeep.
  - destruct Hinv as (_ & Hc & _). now apply ring_sync_scan_pass.
  - rewrite Z.add_0_r. eapply ring_sync_view; [|exact Hs]. reflexivity.
Qed.

Lemma ring_sync_run calls : forall k st,
  index_inv st -> 0 <= k -> k + run_cost calls < 2 ^ 31 ->
  ring_sync k st -> ring_sync (k + run_cost calls) (run_calls calls st).
Proof.
  unfold run_calls.
  induction calls as [|c calls IH]; intros k st Hinv Hk Hlt Hs;
    cbn [fold_left run_cost fold_right] in *.
  - now rewrite Z.add_0_r.
  - fold (run_cost calls) in *.
    pose proof (call_cost_nonneg c). pose proof (run_cost_nonneg calls).
    replace (k + (call_cost c + run_cost calls))
      with (k + call_cost c + run_cost calls) by lia.
    apply IH; [now apply step_inv | lia | lia|].
    apply ring_sync_step; [exact Hinv | lia | lia | exact Hs].
Qed.
End Sync.

Section Startup.
Context {P : Platform}.
Implicit Types (st : AgentState P).

Lemma index_inv_run calls : forall st, index_inv st -> index_inv (run_calls calls st).
Proof. apply holds_through_run. intros c st. apply step_inv. Qed.

Lemma unmapped_run calls : forall st, unmapped st -> unmapped (run_calls calls st).
Proof. apply holds_through_run. intros c st. apply unmapped_step. Qed.

(** From the loading of the library on: whatever was allocated and freed
    before [advanced_agent_init] mapped the ring ([pre]), and whatever is
    called afterwards ([calls]), as long as the calls cannot publish [2^31]
    events or more: the ring stays mapped, its write index is the number of
    events published, at most the run's budget and never negative, the next
    event id is the write index plus one, the ring keeps its slots, and its
    three allocation counters are the local ones less what the local ones
    held when the ring was mapped (modulo [2^64]). *)
Theorem ring_follows_counters m w pre calls :
  run_cost calls < 2 ^ 31 ->
  let st0 := run_calls pre (initial_state m w false) in
  let st := run_calls calls (snd (advanced_agent_init ShmMapped st0)) in
  exists b,
    leak_buffer st = Some b /\
    0 <= write_index b <= run_cost calls /\
    next_event_id st = write_index b + 1 /\
    length (events b) = Z.to_nat LEAK_BUFFER_SIZE /\
    shm_total_allocations b = u64 (total_allocations st - total_allocations st0) /\
    shm_total_frees b = u64 (total_frees st - total_frees st0) /\
    current_memory b = u64 (current_memory_usage st - current_memory_usage st0).
Proof.
  intros Hcost st0 st.
  assert (Hinv0 : index_inv st0) by apply index_inv_run, initial_state_inv.
  assert (Hun0 : unmapped st0).
  { apply unmapped_run. split; reflexivity. }
  destruct Hun0 as (_ & Hn0).
  set (st1 := snd (advanced_agent_init ShmMapped st0)) in *.
  assert (Hinv1 : index_inv st1).
  { apply (index_inv_table st1 st0); [reflexivity | exact Hinv0]. }
  assert (Hs1 : ring_sync (total_allocations st0) (total_frees st0)
                  (current_memory_usage st0) 0 st1).
  { exists zero_buffer. split; [reflexivity|].
    cbn [write_index zero_buffer]. split; [lia|]. split; [exact Hn0|].
    split; [apply length_replicate|].
    subst st1. cbn. rewrite !Z.sub_diag. repeat split; reflexivity. }
  pose proof (ring_sync_run _ _ _ calls 0 st1 Hinv1 ltac:(lia) ltac:(lia) Hs1) as Hs.
  rewrite Z.add_0_l in Hs. exact Hs.
Qed.
End Startup.

(** ** The counting agent *)

Section MonitorRuns.
Context {P : Platform}.
Implicit Types (st : Monitor.State P).
#[local] Existing Instance Monitor.SharedBuffer_layout.

Lemma i32_range x : - 2 ^ 31 <= i32 x < 2 ^ 31.
Proof. unfold i32. pose proof (Z.mod_pos_bound (x + 2 ^ 31) (2 ^ 32)). lia. Qed.

Lemma i32_idem x : i32 (i32 x) = i32 x.
Proof. apply i32_small, i32_range. Qed.

(** The record [write_to_shared_memory] prepares. *)
Definition monitor_record (count size total t : Z) : Monitor.AllocationData :=
  {| Monitor.malloc_count_field := i32 count; Monitor.size := u64 size;
     Monitor.total_bytes := u64 total; Monitor.timestamp := i64 t;
     Monitor.is_valid := 1 |}.

Lemma monitor_write_run st b count size total :
  Monitor.shared_buffer st = Some b ->
  snd (Monitor.write_to_shared_memory count size total st)
  = {| Monitor.env := snd (time (Monitor.env st));
       Monitor.malloc_count := Monitor.malloc_count st;
       Monitor.total_bytes_allocated := Monitor.total_bytes_allocated st;
       Monitor.shared_buffer :=
         Some (exec_ops
                 [StoreSlot (Z.rem (Monitor.write_index b) Monitor.BUFFER_SIZE)
                    (monitor_record count size total (fst (time (Monitor.env st))));
                  FullFence; IncWriteIndex] b) |}.
Proof.
  intros Hb. unfold Monitor.write_to_shared_memory, Monitor.write_to_shared_memory_ops,
    bind, modify.
  rewrite Hb. destruct (time (Monitor.env st)) as [t w].
  cbn [fst snd Monitor.env Monitor.malloc_count Monitor.total_bytes_allocated
       Monitor.shared_buffer]. rewrite ?Hb. reflexivity.
Qed.

Lemma monitor_write_unmapped st count size total :
  Monitor.shared_buffer st = None ->
  Monitor.write_to_shared_memory count size total st = (tt, st).
Proof.
  intros Hb. unfold Monitor.write_to_shared_memory, Monitor.write_to_shared_memory_ops,
    bind, modify.
  rewrite Hb. cbn [fst snd]. rewrite ?Hb. destruct st. cbn in *. now subst.
Qed.

Lemma monitor_published_spec d (b : Monitor.SharedBuffer) :
  let b' := exec_ops [StoreSlot (Z.rem (Monitor.write_index b) Monitor.BUFFER_SIZE) d;
                      FullFence; IncWriteIndex] b in
  Monitor.write_index b' = i32 (Monitor.write_index b + 1) /\
  Monitor.read_index b' = Monitor.read_index b /\
  length (Monitor.allocations b') = length (Monitor.allocations b) /\
  (0 <= Monitor.write_index b ->
   Monitor.allocations b'
   = <[Z.to_nat (Monitor.write_index b mod Monitor.BUFFER_SIZE) := d]>
       (Monitor.allocations b)).
Proof.
  unfold exec_ops. cbn [fold_left exec_op].
  destruct (0 <=? Z.rem (Monitor.write_index b) Monitor.BUFFER_SIZE) eqn:E;
    cbn [ring_write_index ring_set_write_index ring_slots ring_set_slots
         Monitor.SharedBuffer_layout Monitor.write_index Monitor.read_index
         Monitor.allocations].
  - repeat split; try reflexivity; [apply length_insert|].
    intros Hw. rewrite Z.rem_mod_nonneg by (unfold Monitor.BUFFER_SIZE; lia). reflexivity.
  - repeat split; try reflexivity.
    intros Hw. apply Z.leb_gt in E.
    pose proof (Z.rem_nonneg (Monitor.write_index b) Monitor.BUFFER_SIZE) as Hn.
    unfold Monitor.BUFFER_SIZE in *. lia.
Qed.

(** Everything one call of the counting [malloc] does. *)
Lemma monitor_malloc_run st size :
  let ptr := fst (real_malloc size (Monitor.env st)) in
  let w := snd (real_malloc size (Monitor.env st)) in
  let st' := snd (Monitor.malloc size st) in
  fst (Monitor.malloc size st) = ptr /\
  (ptr = 0 ->
   st' = {| Monitor.env := w; Monitor.malloc_count := Monitor.malloc_count st;
            Monitor.total_bytes_allocated := Monitor.total_bytes_allocated st;
            Monitor.shared_buffer := Monitor.shared_buffer st |}) /\
  (ptr <> 0 ->
   Monitor.malloc_count st' = i32 (Monitor.malloc_count st + 1) /\
   Monitor.total_bytes_allocated st' = u64 (Monitor.total_bytes_allocated st + size) /\
   match Monitor.shared_buffer st with
   | None => Monitor.shared_buffer st' = None /\ Monitor.env st' = w
   | Some b =>
       exists b',
         Monitor.shared_buffer st' = Some b' /\
         Monitor.env st' = snd (time w) /\
         Monitor.write_index b' = i32 (Monitor.write_index b + 1) /\
         Monitor.read_index b' = Monitor.read_index b /\
         length (Monitor.allocations b') = length (Monitor.allocations b) /\
         (0 <= Monitor.write_index b ->
          Monitor.allocations b'
          = <[Z.to_nat (Monitor.write_index b mod Monitor.BUFFER_SIZE) :=
                monitor_record (i32 (Monitor.malloc_count st + 1)) size
                  (u64 (Monitor.total_bytes_allocated st + size)) (fst (time w))]>
              (Monitor.allocations b))
   end).
Proof.
  cbv zeta. unfold Monitor.malloc.
  destruct (real_malloc size (Monitor.env st)) as [ptr w]. cbn [fst snd].
  destruct (ptr =? 0) eqn:E; cbn [fst snd].
  - apply Z.eqb_eq in E. split; [reflexivity|]. split; [reflexivity|]. intros; contradiction.
  - apply Z.eqb_neq in E. split; [reflexivity|]. split; [intros; contradiction|].
    intros _.
    destruct (Monitor.shared_buffer st) as [b|] eqn:Hb.
    + rewrite (monitor_write_run _ b) by reflexivity.
      cbn [Monitor.env Monitor.malloc_count Monitor.total_bytes_allocated
           Monitor.shared_buffer].
      split; [reflexivity|]. split; [reflexivity|].
      eexists. split; [reflexivity|]. split; [reflexivity|].
      apply monitor_published_spec.
    + rewrite monitor_write_unmapped by reflexivity.
      cbn [snd Monitor.env Monitor.malloc_count Monitor.total_bytes_allocated
           Monitor.shared_buffer].
      repeat split; reflexivity.
Qed.

(** The counting [malloc] is transparent: it hands the size to the real
    [malloc] and returns its answer.  A failed allocation is not counted and
    nothing is published.  A successful one counts one call and [size]
    bytes and, when the buffer is mapped and its write index is not
    negative, publishes one valid record with the new counters into slot
    [write_index % BUFFER_SIZE] and advances the index by one. *)
Theorem monitor_malloc_spec st size :
  let ptr := fst (real_malloc size (Monitor.env st)) in
  let st' := snd (Monitor.malloc size st) in
  fst (Monitor.malloc size st) = ptr /\
  (ptr = 0 ->
   Monitor.malloc_count st' = Monitor.malloc_count st /\
   Monitor.total_bytes_allocated st' = Monitor.total_bytes_allocated st /\
   Monitor.shared_buffer st' = Monitor.shared_buffer st) /\
  (ptr <> 0 ->
   Monitor.malloc_count st' = i32 (Monitor.malloc_count st + 1) /\
   Monitor.total_bytes_allocated st' = u64 (Monitor.total_bytes_allocated st + size) /\
   (Monitor.shared_buffer st = None -> Monitor.shared_buffer st' = None) /\
   (forall b, Monitor.shared_buffer st = Some b ->
      0 <= Monitor.write_index b ->
      exists b' d,
        Monitor.shared_buffer st' = Some b' /\
        Monitor.write_index b' = i32 (Monitor.write_index b + 1) /\
        Monitor.read_index b' = Monitor.read_index b /\
        Monitor.allocations b'
        = <[Z.to_nat (Monitor.write_index b mod Monitor.BUFFER_SIZE) := d]>
            (Monitor.allocations b) /\
        Monitor.malloc_count_field d = Monitor.malloc_count st' /\
        Monitor.size d = u64 size /\
        Monitor.total_bytes d = Monitor.total_bytes_allocated st' /\
        Monitor.is_valid d = 1)).
Proof.
  cbv zeta. destruct (monitor_malloc_run st size) as (Hres & Hnull & Hok).
  cbv zeta in Hres, Hnull, Hok.
  split; [exact Hres|]. split.
  - intros H0. rewrite (Hnull H0). repeat split; reflexivity.
  - intros Hne. destruct (Hok Hne) as (Hc & Ht & Hring).
    split; [exact Hc|]. split; [exact Ht|]. split.
    + intros Hb. rewrite Hb in Hring. apply Hring.
    + intros b Hb Hwi. rewrite Hb in Hring.
      destruct Hring as (b' & Hb' & _ & Hw & Hrd & _ & Hev).
      exists b'. eexists. split; [exact Hb'|]. split; [exact Hw|]. split; [exact Hrd|].
      split; [exact (Hev Hwi)|]. rewrite Hc, Ht.
      cbn [monitor_record Monitor.malloc_count_field Monitor.size Monitor.total_bytes
           Monitor.is_valid].
      repeat split; [apply i32_idem | apply u64_idem].
Qed.

(** The runs of the counting agent: a sequence of [malloc] calls. *)
Definition monitor_run (sizes : list Z) st : Monitor.State P :=
  fold_left (fun s size => snd (Monitor.malloc size s)) sizes st.

(** The buffer is mapped; its write index lies in [0 .. k] and is the
    number of calls counted since the buffer was mapped, when the call
    counter was [count0]; nothing moves the read index; the buffer keeps its
    [BUFFER_SIZE] slots; and once a call was counted the slot before the
    write index holds a valid record with the current counters. *)
Definition monitor_sync (count0 k : Z) st : Prop :=
  exists b,
    Monitor.shared_buffer st = Some b /\
    0 <= Monitor.write_index b <= k /\
    Monitor.read_index b = 0 /\
    length (Monitor.allocations b) = Z.to_nat Monitor.BUFFER_SIZE /\
    Monitor.malloc_count st = i32 (count0 + Monitor.write_index b) /\
    (0 < Monitor.write_index b ->
     exists d,
       Monitor.allocations b
         !! Z.to_nat ((Monitor.write_index b - 1) mod Monitor.BUFFER_SIZE) = Some d /\
       Monitor.malloc_count_field d = Monitor.malloc_count st /\
       Monitor.total_bytes d = Monitor.total_bytes_allocated st /\
       Monitor.is_valid d = 1).

Lemma i32_add_l x y : i32 (i32 x + y) = i32 (x + y).
Proof.
  unfold i32. f_equal.
  replace ((x + 2 ^ 31) mod 2 ^ 32 - 2 ^ 31 + y + 2 ^ 31)
    with ((x + 2 ^ 31) mod 2 ^ 32 + y) by lia.
  rewrite Zplus_mod_idemp_l. f_equal. lia.
Qed.

Lemma monitor_sync_malloc count0 k st size :
  0 <= k -> k + 1 < 2 ^ 31 ->
  monitor_sync count0 k st -> monitor_sync count0 (k + 1) (snd (Monitor.malloc size st)).
Proof.
  intros Hk Hlt (b & Hb & Hw & Hr0 & Hl & Hcnt & Hlast).
  destruct (monitor_malloc_run st size) as (_ & Hnull & Hok).
  cbv zeta in Hnull, Hok.
  destruct (Z.eq_dec (fst (real_malloc size (Monitor.env st))) 0) as [H0 | Hne].
  - rewrite (Hnull H0). exists b.
    cbn [Monitor.malloc_count Monitor.total_bytes_allocated Monitor.shared_buffer].
    split; [exact Hb|]. split; [lia|]. repeat split; assumption.
  - destruct (Hok Hne) as (Hc & Ht & Hring). rewrite Hb in Hring.
    destruct Hring as (b' & Hb' & _ & Hw' & Hrd' & Hlen' & Hev).
    rewrite i32_small in Hw' by lia.
    exists b'. split; [exact Hb'|]. rewrite Hw', Hrd', Hlen', Hc, Ht.
    split; [lia|]. split; [exact Hr0|]. split; [exact Hl|].
    split.
    { rewrite Hcnt, i32_add_l. f_equal. lia. }
    intros _. rewrite Hev by lia.
    replace (Monitor.write_index b + 1 - 1) with (Monitor.write_index b) by lia.
    eexists. split.
    + apply list_lookup_insert_eq. rewrite Hl.
      pose proof (Z.mod_pos_bound (Monitor.write_index b) Monitor.BUFFER_SIZE).
      unfold Monitor.BUFFER_SIZE in *. lia.
    + cbn [monitor_record Monitor.malloc_count_field Monitor.total_bytes Monitor.is_valid].
      split; [apply i32_idem|]. split; [apply u64_idem | reflexivity].
Qed.

Lemma monitor_sync_run count0 sizes : forall k st,
  0 <= k -> k + Z.of_nat (length sizes) < 2 ^ 31 ->
  monitor_sync count0 k st ->
  monitor_sync count0 (k + Z.of_nat (length sizes)) (monitor_run sizes st).
Proof.
  unfold monitor_run.
  induction sizes as [|size sizes IH]; intros k st Hk Hlt Hs;
    cbn [fold_left length] in *.
  - now rewrite Z.add_0_r.
  - replace (k + Z.of_nat (S (length sizes)))
      with (k + 1 + Z.of_nat (length sizes)) by lia.
    apply IH; [lia | lia|]. apply monitor_sync_malloc; [lia | lia | exact Hs].
Qed.

(** From the loading of the library on: whatever was allocated before
    [agent_start] mapped the buffer ([pre]) and whatever is allocated
    afterwards ([sizes]), as long as fewer than [2^31] calls follow: the
    buffer stays mapped, its write index is the number of calls counted
    since it was mapped and never negative, the call counter is the one at
    mapping time plus the write index, and the newest record, in the slot
    before the write index, carries the agent's current counters. *)
Theorem monitor_run_inv w pre sizes :
  Z.of_nat (length sizes) < 2 ^ 31 ->
  let st0 := monitor_run pre (Monitor.loaded w) in
  let st := monitor_run sizes (snd (Monitor.agent_start ShmMapped st0)) in
  exists b,
    Monitor.shared_buffer st = Some b /\
    0 <= Monitor.write_index b <= Z.of_nat (length sizes) /\
    Monitor.read_index b = 0 /\
    length (Monitor.allocations b) = Z.to_nat Monitor.BUFFER_SIZE /\
    Monitor.malloc_count st = i32 (Monitor.malloc_count st0 + Monitor.write_index b) /\
    (0 < Monitor.write_index b ->
     exists d,
       Monitor.allocations b
         !! Z.to_nat ((Monitor.write_index b - 1) mod Monitor.BUFFER_SIZE) = Some d /\
       Monitor.malloc_count_field d = Monitor.malloc_count st /\
       Monitor.total_bytes d = Monitor.total_bytes_allocated st /\
       Monitor.is_valid d = 1).
Proof.
  intros Hlen st0 st.
  assert (Hrange : forall sizes' st', - 2 ^ 31 <= Monitor.malloc_count st' < 2 ^ 31 ->
            - 2 ^ 31 <= Monitor.malloc_count (monitor_run sizes' st') < 2 ^ 31).
  { unfold monitor_run. induction sizes' as [|n sizes' IH]; intros st' Hr;
      cbn [fold_left]; [exact Hr|].
    apply IH. destruct (monitor_malloc_run st' n) as (_ & Hnull & Hok).
    cbv zeta in Hnull, Hok.
    destruct (Z.eq_dec (fst (real_malloc n (Monitor.env st'))) 0) as [H0 | Hne].
    - rewrite (Hnull H0). exact Hr.
    - destruct (Hok Hne) as (Hc & _). rewrite Hc. apply i32_range. }
  assert (Hr0 : - 2 ^ 31 <= Monitor.malloc_count st0 < 2 ^ 31).
  { apply Hrange. cbn. lia. }
  assert (Hs1 : monitor_sync (Monitor.malloc_count st0) 0
                  (snd (Monitor.agent_start ShmMapped st0))).
  { exists Monitor.zero_buffer. split; [reflexivity|].
    cbn [Monitor.write_index Monitor.read_index Monitor.allocations Monitor.zero_buffer
         Monitor.agent_start modify snd Monitor.malloc_count].
    split; [lia|]. split; [reflexivity|]. split; [apply length_replicate|].
    split; [|lia]. rewrite Z.add_0_r. symmetry. now apply i32_small. }
  pose proof (monitor_sync_run _ sizes 0 _ ltac:(lia) ltac:(lia) Hs1) as Hs.
  rewrite Z.add_0_l in Hs. exact Hs.
Qed.
End MonitorRuns.

(** ** Reading the counters, and when a block counts as stale *)

Section Stats.
Context {P : Platform}.
Implicit Types (st : AgentState P).

(** The memory [get_allocation_stats] leaves. *)
Definition stats_stored (m : gmap Z byte) (p v : Z) : gmap Z byte :=
  if p =? 0 then m else store_le 8 m p v.

Lemma get_allocation_stats_run st allocs frees current_mem :
  get_allocation_stats allocs frees current_mem st
  = (tt, set_mem (fun m =>
           stats_stored
             (stats_stored (stats_stored m allocs (total_allocations st))
                frees (total_frees st))
             current_mem (current_memory_usage st)) st).
Proof.
  unfold get_allocation_stats, stats_stored, bind, gets, when, modify, ret.
  destruct st.
  destruct (allocs =? 0), (frees =? 0), (current_mem =? 0); reflexivity.
Qed.

Lemma stats_stored_outside m p v a :
  p = 0 \/ a < p \/ p + 8 <= a ->
  load_byte (stats_stored m p v) a = load_byte m a.
Proof.
  intros Hout. unfold stats_stored.
  destruct (p =? 0) eqn:E; [reflexivity|]. apply Z.eqb_neq in E.
  apply load_byte_store_le_outside. change (Z.of_nat 8) with 8. lia.
Qed.

Lemma stats_stored_apart m p v q :
  p = 0 \/ q + 8 <= p \/ p + 8 <= q ->
  load_le 8 (stats_stored m p v) q = load_le 8 m q.
Proof.
  intros Hout. unfold stats_stored.
  destruct (p =? 0) eqn:E; [reflexivity|]. apply Z.eqb_neq in E.
  apply load_le_store_le_disjoint. change (Z.of_nat 8) with 8. lia.
Qed.

Lemma stats_stored_same m p v :
  p <> 0 -> 0 <= v < 2 ^ 64 -> load_le 8 (stats_stored m p v) p = v.
Proof.
  intros Hp Hv. unfold stats_stored.
  destruct (p =? 0) eqn:E; [apply Z.eqb_eq in E; contradiction|].
  rewrite load_le_store_le_same. change (Z.of_nat 8 * 8) with 64.
  apply Z.mod_small. exact Hv.
Qed.

(** In any state the agent can reach, [get_allocation_stats] hands the
    three counters back through its pointers.  A null pointer is skipped.
    The stores are made in the order allocations, frees, bytes in use, so a
    value reads back when no later store overlaps it; the bytes outside the
    three 8-byte windows are untouched, and nothing but the program's own
    memory changes. *)
Theorem get_allocation_stats_read_back st allocs frees current_mem :
  reachable st ->
  let st' := snd (get_allocation_stats allocs frees current_mem st) in
  let outside p a := p = 0 \/ a < p \/ p + 8 <= a in
  let apart p q := p = 0 \/ q + 8 <= p \/ p + 8 <= q in
  (allocs <> 0 -> apart frees allocs -> apart current_mem allocs ->
   load_le 8 (mem st') allocs = total_allocations st) /\
  (frees <> 0 -> apart current_mem frees ->
   load_le 8 (mem st') frees = total_frees st) /\
  (current_mem <> 0 ->
   load_le 8 (mem st') current_mem = current_memory_usage st) /\
  (forall a, outside allocs a -> outside frees a -> outside current_mem a ->
     load_byte (mem st') a = load_byte (mem st) a) /\
  st' = set_mem (fun _ => mem st') st.
Proof.
  intros Hreach st' outside apart. subst st' outside apart.
  destruct (reachable_counters_in_range st Hreach) as (Ra & Rf & Rc).
  rewrite get_allocation_stats_run. cbn [snd mem set_mem].
  split; [|split; [|split; [|split]]].
  - intros Hp H1 H2. rewrite !stats_stored_apart by assumption.
    now apply stats_stored_same.
  - intros Hp H1. rewrite stats_stored_apart by assumption.
    now apply stats_stored_same.
  - intros Hp. now apply stats_stored_same.
  - intros a H1 H2 H3. now rewrite !stats_stored_outside by assumption.
  - reflexivity.
Qed.

Lemma is_potentially_leaked_run st meta tv_sec tv_nsec w :
  is_valid_allocation (mem st) meta = true ->
  clock_gettime (env st) = ((tv_sec, tv_nsec), w) ->
  is_potentially_leaked meta st
  = (staleness_threshold_ns st
       <? u64 (u64 (tv_sec * 1000000000 + tv_nsec) - meta_last_access (mem st) meta),
     set_env w st).
Proof.
  intros Hv Hc. unfold is_potentially_leaked.
  unfold bind at 1. unfold gets at 1. rewrite Hv. cbn [negb].
  unfold bind, get_timestamp_ns, load_field, gets, ret. rewrite Hc. reflexivity.
Qed.

(** The staleness test on a block that was just allocated and not accessed
    since: with the allocation stamped [t0] and the clock showing [now] when
    the test is made, the block counts as leaked exactly when
    [(now - t0) mod 2^64] exceeds the threshold.  So a block is left alone while its age is within the
    threshold, is reported once it is older, and, the difference being
    unsigned, is reported at once if the clock shows a time before [t0]. *)
Theorem fresh_block_staleness st size r w s0 ns0 w1 s1 ns1 w2 :
  size <> 0 ->
  real_malloc (u64 (size + sizeof_AllocationMeta)) (env st) = (r, w) ->
  0 < r ->
  clock_gettime w = ((s0, ns0), w1) ->
  clock_gettime (env (snd (malloc size st))) = ((s1, ns1), w2) ->
  let t0 := u64 (s0 * 1000000000 + ns0) in
  let now := u64 (s1 * 1000000000 + ns1) in
  let threshold := staleness_threshold_ns st in
  let st1 := snd (malloc size st) in
  is_potentially_leaked r st1 = (threshold <? u64 (now - t0), set_env w2 st1) /\
  (t0 <= now -> now - t0 <= threshold -> fst (is_potentially_leaked r st1) = false) /\
  (t0 <= now -> threshold < now - t0 -> fst (is_potentially_leaked r st1) = true) /\
  (now < t0 -> threshold < 2 ^ 64 - (t0 - now) ->
   fst (is_potentially_leaked r st1) = true).
Proof.
  intros Hs Hr Hr0 Hc0 Hc1 t0 now threshold st1.
  pose proof (malloc_valid st size r w Hs Hr Hr0) as (_ & Hvalid).
  rewrite (malloc_result st size r w Hs Hr ltac:(lia)) in Hvalid.
  change (r + sizeof_AllocationMeta) with (get_user_ptr_from_meta r) in Hvalid.
  rewrite (get_meta_of_user r Hr0) in Hvalid. fold st1 in Hvalid.
  fold st1 in Hc1.
  pose proof (malloc_mem st size r w s0 ns0 w1 Hs Hr ltac:(lia) Hc0) as Hmem.
  fold st1 in Hmem.
  destruct (installed_header_fields (mem st) r size
              (u64 (s0 * 1000000000 + ns0)) (site_of w1) (u32 (pthread_self w1)))
    as (_ & _ & _ & Hlast & _).
  rewrite <- Hmem, u64_idem in Hlast. fold t0 in Hlast.
  destruct (malloc_run_spec st size r w Hs Hr ltac:(lia)) as (_ & _ & _ & Hth & _).
  fold st1 in Hth.
  assert (Hrun : is_potentially_leaked r st1
                 = (threshold <? u64 (now - t0), set_env w2 st1)).
  { rewrite (is_potentially_leaked_run st1 r s1 ns1 w2 Hvalid Hc1).
    rewrite Hlast, Hth. reflexivity. }
  pose proof (u64_range (s0 * 1000000000 + ns0)) as Rt0. fold t0 in Rt0.
  pose proof (u64_range (s1 * 1000000000 + ns1)) as Rnow. fold now in Rnow.
  split; [exact Hrun|]. rewrite Hrun. cbn [fst].
  split; [|split].
  - intros Hle Hin. unfold u64. rewrite Z.mod_small by lia. apply Z.ltb_ge. lia.
  - intros Hle Hin. unfold u64. rewrite Z.mod_small by lia. apply Z.ltb_lt. lia.
  - intros Hlt Hin. apply Z.ltb_lt.
    replace (u64 (now - t0)) with (2 ^ 64 - (t0 - now)); [exact Hin|].
    unfold u64. symmetry.
    rewrite <- (Z_mod_plus_full (now - t0) 1 (2 ^ 64)).
    rewrite Z.mod_small by lia. lia.
Qed.
End Stats.

(** ** The properties above on the bump allocator *)

(** The agent with the ring not mapped. *)
Definition started_unmapped : AgentState Fixture.bump :=
  initial_state (P := Fixture.bump) ∅ Fixture.arena false.

(** One block, the first byte of its magic overwritten by the program. *)
Definition trampled : AgentState Fixture.bump :=
  step (UserStore 0x1000 Byte.x00) (step (CallMalloc 16) Fixture.started).

(** The ring of a state where it is mapped. *)
Definition ring_of (st : AgentState Fixture.bump) : LeakDetectionBuffer :=
  default zero_buffer (leak_buffer st).

(** One block and three blocks of 16 bytes: user pointers [0x1024], [0x1058]
    and [0x108c]. *)
Local Abbreviation one_malloc := (step (CallMalloc 16) Fixture.started).
Local Abbreviation three_mallocs :=
  (step (CallMalloc 16) (step (CallMalloc 16) (step (CallMalloc 16) Fixture.started))).

(** One block that two passes of the scanner have looked at: the clock now
    shows four seconds since the allocation. *)
Local Abbreviation aged :=
  (step ScannerPass (step ScannerPass (step (CallMalloc 16) Fixture.started))).

(** A byte of the arena that the program has written. *)
Local Abbreviation dirty := (step (UserStore 0x1030 Byte.xff) Fixture.started).

Lemma started_real_malloc :
  real_malloc (u64 (16 + sizeof_AllocationMeta)) (env Fixture.started)
  = (0x1000, snd (real_malloc (u64 (16 + sizeof_AllocationMeta)) (env Fixture.started))).
Proof. vm_compute. reflexivity. Qed.

Lemma started_clock :
  clock_gettime (snd (real_malloc (u64 (16 + sizeof_AllocationMeta)) (env Fixture.started)))
  = ((100, 0),
     snd (clock_gettime
            (snd (real_malloc (u64 (16 + sizeof_AllocationMeta)) (env Fixture.started))))).
Proof. vm_compute. reflexivity. Qed.

Lemma started_snapshot_empty user_ptr :
  forall e, e ∈ snapshot Fixture.started -> tr_address e <> user_ptr.
Proof. intros e He. exfalso. revert He. apply not_elem_of_nil. Qed.

Lemma one_block_inv : index_inv one_malloc.
Proof.
  exact (step_inv (CallMalloc 16) Fixture.started
           (initial_state_inv (P := Fixture.bump) ∅ Fixture.arena true)).
Qed.

Lemma three_blocks_inv : index_inv three_mallocs.
Proof.
  exact (step_inv (CallMalloc 16) _ (step_inv (CallMalloc 16) _ one_block_inv)).
Qed.

Lemma one_block_real_malloc :
  real_malloc (u64 (32 + sizeof_AllocationMeta)) (env one_malloc)
  = (0x1034, snd (real_malloc (u64 (32 + sizeof_AllocationMeta)) (env one_malloc))).
Proof. vm_compute. reflexivity. Qed.

Lemma one_block_mapped : leak_buffer one_malloc = Some (ring_of one_malloc).
Proof. vm_compute. reflexivity. Qed.

Lemma one_block_ring_index : 0 <= write_index (ring_of one_malloc) < 2 ^ 31 - 2.
Proof. vm_compute. split; [discriminate | reflexivity]. Qed.

Lemma one_block_valid :
  is_valid_allocation (mem one_malloc) (get_meta_from_user_ptr 0x1024) = true.
Proof. vm_compute. reflexivity. Qed.

Lemma one_block_absent user_ptr :
  user_ptr <> 0x1024 ->
  forall e, e ∈ snapshot one_malloc -> tr_address e <> user_ptr.
Proof.
  intros Hne e He.
  assert (Hs : snapshot one_malloc = [{| tr_address := 0x1024; tr_meta := 0x1000 |}])
    by (vm_compute; reflexivity).
  rewrite Hs in He. apply list_elem_of_singleton in He. subst e.
  cbn [tr_address]. congruence.
Qed.

Lemma malloc_installs_header_witness :
  16 <> 0 /\ 0 < 0x1000 /\
  meta_magic (mem (snd (malloc 16 Fixture.started))) 0x1000 = ALLOC_MAGIC /\
  meta_size (mem (snd (malloc 16 Fixture.started))) 0x1000 = u64 16.
Proof.
  split; [lia|]. split; [lia|].
  destruct (malloc_installs_header Fixture.started 16 0x1000 _ 100 0 _
              ltac:(lia) started_real_malloc ltac:(lia) started_clock)
    as (Hmagic & Hsize & _).
  split; [exact Hmagic | exact Hsize].
Defined.

Lemma malloc_registers_witness :
  16 <> 0 /\
  fst (malloc 16 Fixture.started) = 0x1000 + sizeof_AllocationMeta /\
  index_inv (snd (malloc 16 Fixture.started)).
Proof.
  split; [lia|].
  destruct (malloc_registers Fixture.started 16 0x1000 _
              ltac:(lia) started_real_malloc ltac:(lia) (initial_state_inv _ _ _))
    as (Hptr & Hinv & _).
  split; [exact Hptr | exact Hinv].
Defined.

Lemma malloc_accounting_witness :
  16 <> 0 /\ 0 <= write_index zero_buffer /\
  total_allocations (snd (malloc 16 Fixture.started))
  = u64 (total_allocations Fixture.started + 1) /\
  current_memory_usage (snd (malloc 16 Fixture.started))
  = u64 (current_memory_usage Fixture.started + 16) /\
  exists b', leak_buffer (snd (malloc 16 Fixture.started)) = Some b' /\
             shm_total_allocations b' = u64 (shm_total_allocations zero_buffer + 1) /\
             current_memory b' = u64 (current_memory zero_buffer + 16).
Proof.
  split; [lia|]. split; [cbn; lia|].
  destruct (malloc_accounting Fixture.started 16 0x1000 _
              ltac:(lia) started_real_malloc ltac:(lia))
    as (Ha & _ & Hc & _ & _ & Hring).
  split; [exact Ha|]. split; [exact Hc|].
  destruct (Hring zero_buffer eq_refl ltac:(cbn; lia)) as (b' & Hb' & Ha' & _ & Hc' & _).
  exists b'. split; [exact Hb'|]. split; [exact Ha' | exact Hc'].
Defined.

Lemma malloc_publishes_event_witness :
  16 <> 0 /\ 0 <= write_index zero_buffer /\
  exists b' ev,
    leak_buffer (snd (malloc 16 Fixture.started)) = Some b' /\
    write_index b' = i32 (write_index zero_buffer + 1) /\
    events b'
    = <[Z.to_nat (write_index zero_buffer mod LEAK_BUFFER_SIZE) := ev]> (events zero_buffer) /\
    event_type ev = EVENT_MALLOC /\
    address (data ev) = 0x1000 + sizeof_AllocationMeta.
Proof.
  split; [lia|]. split; [cbn; lia|].
  destruct (malloc_publishes_event Fixture.started 16 0x1000 _
              ltac:(lia) started_real_malloc ltac:(lia))
    as (_ & Hsome).
  destruct (Hsome zero_buffer eq_refl ltac:(cbn; lia))
    as (b' & ev & Hb & _ & Hw & Hev & _ & Hty & _ & Haddr & _).
  exists b', ev. repeat split; assumption.
Defined.


Lemma free_publishes_event_witness :
  0x1024 <> 0 /\
  exists b' ev,
    leak_buffer (snd (free 0x1024 one_malloc)) = Some b' /\
    write_index b' = i32 (write_index (ring_of one_malloc) + 1) /\
    events b'
    = <[Z.to_nat (write_index (ring_of one_malloc) mod LEAK_BUFFER_SIZE) := ev]>
        (events (ring_of one_malloc)) /\
    event_type ev = EVENT_FREE /\
    is_valid ev = 1 /\
    address (data ev) = 0x1024 /\
    Advanced.size (data ev) = meta_size (mem one_malloc) (0x1024 - sizeof_AllocationMeta).
Proof.
  split; [lia|].
  destruct (free_publishes_event one_malloc 0x1024 ltac:(lia) one_block_valid)
    as (_ & Hsome).
  destruct (Hsome (ring_of one_malloc) one_block_mapped (proj1 one_block_ring_index))
    as (b' & ev & Hb & _ & Hw & Hev & _ & Hty & Hv & Haddr & Hsz & _).
  exists b', ev. repeat split; assumption.
Defined.

Lemma malloc_free_round_trip_witness :
  32 <> 0 /\
  snapshot (snd (free (fst (malloc 32 one_malloc)) (snd (malloc 32 one_malloc))))
  = snapshot one_malloc /\
  current_memory_usage
    (snd (free (fst (malloc 32 one_malloc)) (snd (malloc 32 one_malloc))))
  = current_memory_usage one_malloc /\
  exists b',
    leak_buffer (snd (free (fst (malloc 32 one_malloc)) (snd (malloc 32 one_malloc))))
    = Some b' /\
    write_index b' = write_index (ring_of one_malloc) + 2.
Proof.
  split; [lia|].
  destruct (malloc_free_round_trip one_malloc 32 0x1034 _
              ltac:(lia) one_block_real_malloc ltac:(lia) one_block_inv
              (one_block_absent (0x1034 + sizeof_AllocationMeta)
                 ltac:(vm_compute; discriminate))
              ltac:(vm_compute; split; [discriminate | reflexivity]))
    as (_ & Hsnap & _ & Hmem & _ & _ & _ & _ & Hring).
  split; [exact Hsnap|]. split; [exact Hmem|].
  destruct (Hring (ring_of one_malloc) one_block_mapped one_block_ring_index)
    as (b' & Hb' & _ & _ & _ & Hw').
  exists b'. split; [exact Hb' | exact Hw'].
Defined.

Lemma untrack_allocation_absent_witness :
  snapshot one_malloc = [{| tr_address := 0x1024; tr_meta := 0x1000 |}] /\
  untrack_allocation 0x2000 one_malloc = (tt, one_malloc).
Proof.
  split; [vm_compute; reflexivity|].
  exact (untrack_allocation_absent one_malloc 0x2000 one_block_inv
           (one_block_absent 0x2000 ltac:(lia))).
Defined.

Lemma untrack_allocation_present_witness :
  snapshot three_mallocs
  = [{| tr_address := 0x1024; tr_meta := 0x1000 |};
     {| tr_address := 0x1058; tr_meta := 0x1034 |};
     {| tr_address := 0x108c; tr_meta := 0x1068 |}] /\
  active_alloc_count (snd (untrack_allocation 0x1024 three_mallocs))
  = active_alloc_count three_mallocs - 1 /\
  snapshot (snd (untrack_allocation 0x1024 three_mallocs)) !! 0%nat
  = snapshot three_mallocs !! Z.to_nat (active_alloc_count three_mallocs - 1) /\
  snapshot (snd (untrack_allocation 0x1024 three_mallocs)) !! 1%nat
  = snapshot three_mallocs !! 1%nat.
Proof.
  split; [vm_compute; reflexivity|].
  destruct (untrack_allocation_present three_mallocs 0x1024 0
              {| tr_address := 0x1024; tr_meta := 0x1000 |}
              three_blocks_inv ltac:(vm_compute; reflexivity) eq_refl
              ltac:(intros j e' Hj; lia))
    as (Hcount & _ & Hmoved & Hkept & _).
  split; [exact Hcount|]. split.
  - apply Hmoved. vm_compute. discriminate.
  - apply Hkept; [discriminate | vm_compute; lia].
Defined.

Lemma track_untrack_round_trip_witness :
  snapshot (snd (untrack_allocation 0x1024
                   (snd (track_allocation 0x1024 0x1000 Fixture.started))))
  = snapshot Fixture.started.
Proof.
  exact (proj1 (track_untrack_round_trip Fixture.started 0x1024 0x1000
                  (initial_state_inv _ _ _) (started_snapshot_empty _))).
Defined.

Lemma update_allocation_access_spec_witness :
  update_allocation_access 0x500 Fixture.started = (tt, Fixture.started) /\
  meta_last_access (mem (snd (update_allocation_access 0x1024 Fixture.one_block)))
    (0x1024 - sizeof_AllocationMeta)
  = u64 (102 * 1000000000 + 0).
Proof.
  split.
  - apply (proj1 (update_allocation_access_spec Fixture.started 0x500)).
    right. vm_compute. reflexivity.
  - refine (proj1 (proj2 (proj2 (update_allocation_access_spec Fixture.one_block 0x1024)
                            _ _ 102 0 (snd (clock_gettime (env Fixture.one_block))) _))).
    + lia.
    + vm_compute. reflexivity.
    + vm_compute. reflexivity.
Defined.

Lemma realloc_edges_witness :
  0x1024 <> 0 /\
  realloc 0x1024 0 Fixture.one_block = (0, snd (free 0x1024 Fixture.one_block)).
Proof.
  split; [lia|].
  apply (proj1 (proj2 (realloc_edges Fixture.one_block)) 0x1024). lia.
Defined.

Lemma calloc_fills_zero_witness :
  u64 (4 * 4) <> 0 /\
  load_byte (mem dirty) 0x1030 = Byte.xff /\
  fst (calloc 4 4 dirty) = 0x1000 + sizeof_AllocationMeta /\
  load_bytes (Z.to_nat (u64 (4 * 4))) (mem (snd (calloc 4 4 dirty))) (fst (calloc 4 4 dirty))
  = repeat Byte.x00 (Z.to_nat (u64 (4 * 4))).
Proof.
  split; [vm_compute; discriminate|].
  split; [vm_compute; reflexivity|].
  destruct (calloc_fills_zero dirty 4 4 0x1000
              (snd (real_malloc (u64 (16 + sizeof_AllocationMeta)) (env dirty)))
              ltac:(vm_compute; discriminate) ltac:(vm_compute; reflexivity)
              ltac:(vm_compute; reflexivity) ltac:(lia))
    as (Hptr & Hzero & _).
  split; [exact Hptr | exact Hzero].
Defined.

Lemma scan_pass_frame_witness :
  mem (snd (scan_pass Fixture.one_block)) = mem Fixture.one_block /\
  scan_pass started_unmapped = (0, started_unmapped).
Proof.
  split.
  - exact (proj1 (scan_pass_frame Fixture.one_block)).
  - apply (scan_pass_frame started_unmapped). reflexivity.
Defined.

Lemma trampled_inv : index_inv trampled.
Proof.
  exact (step_inv (UserStore 0x1000 Byte.x00) (step (CallMalloc 16) Fixture.started)
           one_block_inv).
Qed.

Lemma trampled_all_invalid :
  forall e, e ∈ snapshot trampled -> is_valid_allocation (mem trampled) (tr_meta e) = false.
Proof.
  intros e He.
  assert (Hs : snapshot trampled = [{| tr_address := 0x1024; tr_meta := 0x1000 |}])
    by (vm_compute; reflexivity).
  rewrite Hs in He. apply list_elem_of_singleton in He. subst e.
  vm_compute. reflexivity.
Qed.

Lemma scan_pass_all_invalid_witness :
  snapshot trampled = [{| tr_address := 0x1024; tr_meta := 0x1000 |}] /\
  scan_pass trampled = (0, trampled).
Proof.
  split; [vm_compute; reflexivity|].
  exact (scan_pass_all_invalid trampled trampled_inv trampled_all_invalid).
Defined.

Lemma aged_mapped : leak_buffer aged = Some (ring_of aged).
Proof. vm_compute. reflexivity. Qed.

Lemma scan_pass_counts_witness :
  fst (scan_pass aged) = 1 /\
  exists b',
    leak_buffer (snd (scan_pass aged)) = Some b' /\
    write_index b' = write_index (ring_of aged) + fst (scan_pass aged) /\
    u32 (leak_count b') = u32 (leak_count (ring_of aged) + fst (scan_pass aged)).
Proof.
  split; [vm_compute; reflexivity|].
  destruct (scan_pass_counts aged (ring_of aged) aged_mapped
              ltac:(vm_compute; discriminate) ltac:(vm_compute; discriminate)
              ltac:(vm_compute; reflexivity))
    as (_ & b' & Hb' & Hw & Hl & _).
  exists b'. split; [exact Hb'|]. split; [exact Hw | exact Hl].
Defined.

(** A run in which a block was allocated before the ring was mapped and is
    freed afterwards. *)
Local Abbreviation before_init :=
  (run_calls [CallMalloc 16] (initial_state (P := Fixture.bump) ∅ Fixture.arena false)).
Local Abbreviation after_init :=
  (run_calls [CallMalloc 64; CallFree 0x1024; ScannerPass]
     (snd (advanced_agent_init ShmMapped before_init))).

Lemma ring_follows_counters_witness :
  total_allocations before_init = 1 /\
  current_memory_usage before_init = 16 /\
  exists b,
    leak_buffer after_init = Some b /\
    0 <= write_index b /\
    next_event_id after_init = write_index b + 1 /\
    shm_total_allocations b
    = u64 (total_allocations after_init - total_allocations before_init) /\
    current_memory b
    = u64 (current_memory_usage after_init - current_memory_usage before_init).
Proof.
  split; [vm_compute; reflexivity|]. split; [vm_compute; reflexivity|].
  destruct (ring_follows_counters (P := Fixture.bump) ∅ Fixture.arena [CallMalloc 16]
              [CallMalloc 64; CallFree 0x1024; ScannerPass]
              ltac:(vm_compute; reflexivity))
    as (b & Hb & Hw & Hn & _ & Ha & _ & Hc).
  exists b. split; [exact Hb|]. split; [exact (proj1 Hw)|]. split; [exact Hn|].
  split; [exact Ha | exact Hc].
Defined.

Lemma monitor_malloc_spec_witness :
  fst (Monitor.malloc 16 Fixture.monitor_started) = 0x1000 /\
  Monitor.malloc_count (snd (Monitor.malloc 16 Fixture.monitor_started))
  = i32 (Monitor.malloc_count Fixture.monitor_started + 1) /\
  exists b' d,
    Monitor.shared_buffer (snd (Monitor.malloc 16 Fixture.monitor_started)) = Some b' /\
    Monitor.write_index b' = i32 (Monitor.write_index Monitor.zero_buffer + 1) /\
    Monitor.allocations b'
    = <[Z.to_nat (Monitor.write_index Monitor.zero_buffer mod Monitor.BUFFER_SIZE) := d]>
        (Monitor.allocations Monitor.zero_buffer) /\
    Monitor.malloc_count_field d
    = Monitor.malloc_count (snd (Monitor.malloc 16 Fixture.monitor_started)) /\
    Monitor.is_valid d = 1.
Proof.
  destruct (monitor_malloc_spec Fixture.monitor_started 16) as (Hres & _ & Hok).
  split; [exact Hres|].
  destruct (Hok ltac:(vm_compute; discriminate)) as (Hc & _ & _ & Hring).
  split; [exact Hc|].
  destruct (Hring Monitor.zero_buffer eq_refl ltac:(cbn; lia))
    as (b' & d & Hb' & Hw & _ & Hev & Hcnt & _ & _ & Hv).
  exists b', d. repeat split; assumption.
Defined.

(** One call before [agent_start], then three, the second of which the
    allocator refuses. *)
Local Abbreviation monitor_before :=
  (monitor_run [16] (Monitor.loaded (P := Fixture.bump) Fixture.arena)).
Local Abbreviation monitor_after :=
  (monitor_run [16; 0x10000; 32] (snd (Monitor.agent_start ShmMapped monitor_before))).

Lemma monitor_run_inv_witness :
  Monitor.malloc_count monitor_before = 1 /\
  Monitor.malloc_count monitor_after = 3 /\
  exists b,
    Monitor.shared_buffer monitor_after = Some b /\
    0 <= Monitor.write_index b /\
    Monitor.malloc_count monitor_after
    = i32 (Monitor.malloc_count monitor_before + Monitor.write_index b).
Proof.
  split; [vm_compute; reflexivity|]. split; [vm_compute; reflexivity|].
  destruct (monitor_run_inv (P := Fixture.bump) Fixture.arena [16] [16; 0x10000; 32]
              ltac:(vm_compute; reflexivity))
    as (b & Hb & Hw & _ & _ & Hc & _).
  exists b. split; [exact Hb|]. split; [exact (proj1 Hw) | exact Hc].
Defined.

Lemma get_allocation_stats_read_back_witness :
  load_le 8 (mem (snd (get_allocation_stats 0x3000 0x3008 0x3010
                         (step (CallMalloc 16) Fixture.started)))) 0x3000
  = total_allocations (step (CallMalloc 16) Fixture.started) /\
  load_le 8 (mem (snd (get_allocation_stats 0x3000 0x3008 0x3010
                         (step (CallMalloc 16) Fixture.started)))) 0x3010
  = current_memory_usage (step (CallMalloc 16) Fixture.started).
Proof.
  destruct (get_allocation_stats_read_back (step (CallMalloc 16) Fixture.started)
              0x3000 0x3008 0x3010
              (reachable_step (CallMalloc 16) _
                 (reachable_init (P := Fixture.bump) ∅ Fixture.arena true)))
    as (Ha & _ & Hc & _).
  split.
  - apply Ha; cbv beta; lia.
  - apply Hc. lia.
Defined.

Lemma fresh_block_staleness_witness :
  16 <> 0 /\
  fst (is_potentially_leaked 0x1000 (snd (malloc 16 Fixture.started))) = false.
Proof.
  split; [lia|].
  refine (proj1 (proj2 (fresh_block_staleness Fixture.started 16 0x1000 _ 100 0 _ 102 0
                          (snd (clock_gettime (env (snd (malloc 16 Fixture.started)))))
                          _ started_real_malloc _ started_clock _)) _ _).
  - lia.
  - lia.
  - vm_compute. reflexivity.
  - vm_compute. discriminate.
  - vm_compute. discriminate.
Defined.
